(** * Library management: loans, reservations and fines

    A shallow embedding of the inventory and reservation rules of
    [library/models.py] and [library/views.py], and the properties of
    them that the specification states.

    Conventions of the embedding.
    - A table is the list of its rows in insertion order and the primary
      key of a row is its position in that list (rows are never deleted
      by the views; Django numbers from 1, the lists from 0).
    - A [datetime] is a number of microseconds since the epoch, in UTC;
      [timezone.now()] is the argument [now] of a view or method, read
      once per request.
    - A [Decimal] with two decimal places is a number of hundredths.
    - A view returns the store it leaves behind and an [Outcome]: the
      message it flashes, or the exception that left it. No view opens a
      transaction, so what was saved before an exception stays saved.
    - The views always pass [due_date] and [expiry_date], so the defaults
      that [Loan.save] and [Reservation.save] fill in are never used.
    - Only the columns that the loan, reservation and fine rules read or
      write are kept. *)

From stdpp Require Import base numbers list strings gmap.

Local Open Scope Z_scope.

(** ** Time and money *)

Definition datetime := Z.
Definition Decimal := Z.

Definition microseconds_per_day : Z := 86400000000.

(** [timedelta(days=n)] *)
Definition timedelta (days : Z) : Z := days * microseconds_per_day.

(** [dt.date()], as a day number *)
Definition date (dt : datetime) : Z := dt `div` microseconds_per_day.

(** [Decimal('1.00')] *)
Definition fine_per_day : Decimal := 100.

(** ** The ORM operations the views use *)

Inductive Exception :=
  | DoesNotExist
  | MultipleObjectsReturned
  | IntegrityError
  | NameError.

Section queryset.
Context {A : Type}.

Fixpoint rows_from (n : nat) (table : list A) : list (nat * A) :=
  match table with
  | [] => []
  | x :: table' => (n, x) :: rows_from (S n) table'
  end.

(** [Model.objects.all()]: every row with its primary key *)
Definition objects (table : list A) : list (nat * A) := rows_from 0 table.

(** [Model.objects.filter(...)] *)
Definition qfilter (P : A → bool) (table : list A) : list (nat * A) :=
  List.filter (λ r, P r.2) (objects table).

(** [.exists()], [.count()] and [.first()] of a query set *)
Definition qexists {B} (q : list B) : bool :=
  match q with [] => false | _ => true end.
Definition qcount {B} (q : list B) : Z := Z.of_nat (length q).
Definition first {B} (q : list B) : option B := head q.

(** [.get()]: the one row of the query set *)
Definition qget {B} (q : list B) : Exception + B :=
  match q with
  | [] => inl DoesNotExist
  | [r] => inr r
  | _ => inl MultipleObjectsReturned
  end.

(** [get_object_or_404(Model, id=pk, ...)] *)
Definition get_object_or_404 (P : A → bool) (pk : nat) (table : list A) : option A :=
  match table !! pk with
  | Some r => if P r then Some r else None
  | None => None
  end.

(** [row.save()] of a row read from the table *)
Definition save (pk : nat) (r : A) (table : list A) : list A := <[pk := r]> table.

(** [Model.objects.create(...)]: the new row goes last; its key is returned *)
Definition create (r : A) (table : list A) : list A * nat :=
  (table ++ [r], length table).
End queryset.

(** [.order_by(key)]: a stable sort, ascending in [key]; rows with equal
    keys stay in insertion order. *)
Fixpoint insert_by {B} (key : B → Z) (x : B) (q : list B) : list B :=
  match q with
  | [] => [x]
  | y :: q' =>
      if bool_decide (key x ≤ key y) then x :: y :: q'
      else y :: insert_by key x q'
  end.

Definition order_by {B} (key : B → Z) (q : list B) : list B :=
  foldr (insert_by key) [] q.

(** ** The models *)

Module UserProfile.
Record t := mk { loan_limit : Z }.
End UserProfile.

Module Book.
Record t := mk {
  title : string;
  total_copies : Z;
  available_copies : Z;
}.

Definition is_available (self : t) : bool :=
  bool_decide (0 < available_copies self).

Definition copies_on_loan (self : t) : Z :=
  total_copies self - available_copies self.

Definition set_available_copies (n : Z) (self : t) : t :=
  {| title := title self; total_copies := total_copies self;
     available_copies := n |}.
End Book.

Module Loan.
Inductive Status := active | returned | overdue | lost.

#[global] Instance Status_eq_dec : EqDecision Status.
Proof. solve_decision. Defined.

Record t := mk {
  book : nat;
  user : nat;
  loan_date : datetime;
  due_date : datetime;
  return_date : option datetime;
  status : Status;
  renewal_count : Z;
  fine_amount : Decimal;
}.

Definition set_status (s : Status) (self : t) : t :=
  {| book := book self; user := user self; loan_date := loan_date self;
     due_date := due_date self; return_date := return_date self;
     status := s; renewal_count := renewal_count self;
     fine_amount := fine_amount self |}.

Definition set_return_date (d : option datetime) (self : t) : t :=
  {| book := book self; user := user self; loan_date := loan_date self;
     due_date := due_date self; return_date := d;
     status := status self; renewal_count := renewal_count self;
     fine_amount := fine_amount self |}.

Definition set_fine_amount (a : Decimal) (self : t) : t :=
  {| book := book self; user := user self; loan_date := loan_date self;
     due_date := due_date self; return_date := return_date self;
     status := status self; renewal_count := renewal_count self;
     fine_amount := a |}.

Definition set_due_date (d : datetime) (self : t) : t :=
  {| book := book self; user := user self; loan_date := loan_date self;
     due_date := d; return_date := return_date self;
     status := status self; renewal_count := renewal_count self;
     fine_amount := fine_amount self |}.

Definition set_renewal_count (n : Z) (self : t) : t :=
  {| book := book self; user := user self; loan_date := loan_date self;
     due_date := due_date self; return_date := return_date self;
     status := status self; renewal_count := n;
     fine_amount := fine_amount self |}.

Definition is_overdue (now : datetime) (self : t) : bool :=
  if bool_decide (status self = returned) then false
  else bool_decide (due_date self < now).

Definition days_overdue (now : datetime) (self : t) : Z :=
  if negb (is_overdue now self) then 0
  else date now - date (due_date self).

(** [calculate_fine] updates [fine_amount] and [status] of the row in
    memory and returns the fine; the caller saves the row. *)
Definition calculate_fine (now : datetime) (self : t) : t * Decimal :=
  if is_overdue now self && negb (bool_decide (status self = returned)) then
    let overdue_days := days_overdue now self in
    let self := set_fine_amount (overdue_days * fine_per_day) self in
    let self :=
      if negb (bool_decide (status self = overdue)) then set_status overdue self
      else self in
    (self, fine_amount self)
  else (self, 0).
End Loan.

Module Reservation.
Inductive Status := pending | available | fulfilled | cancelled | expired.

#[global] Instance Status_eq_dec : EqDecision Status.
Proof. solve_decision. Defined.

Record t := mk {
  book : nat;
  user : nat;
  reservation_date : datetime;
  expiry_date : datetime;
  status : Status;
}.

Definition set_status (s : Status) (self : t) : t :=
  {| book := book self; user := user self;
     reservation_date := reservation_date self;
     expiry_date := expiry_date self; status := s |}.

Definition set_expiry_date (d : datetime) (self : t) : t :=
  {| book := book self; user := user self;
     reservation_date := reservation_date self;
     expiry_date := d; status := status self |}.

(** [status__in=['pending', 'available']] *)
Definition is_open (self : t) : bool :=
  bool_decide (status self = pending) || bool_decide (status self = available).

Definition is_expired (now : datetime) (self : t) : bool :=
  bool_decide (expiry_date self < now)
  && negb (bool_decide (status self = fulfilled)
           || bool_decide (status self = cancelled)).
End Reservation.

Module Fine.
Inductive Status := pending | paid | waived | disputed.

#[global] Instance Status_eq_dec : EqDecision Status.
Proof. solve_decision. Defined.

Record t := mk {
  user : nat;
  loan : nat;
  amount : Decimal;
  reason : string;
  created_date : datetime;
  status : Status;
}.

Definition set_amount (a : Decimal) (self : t) : t :=
  {| user := user self; loan := loan self; amount := a;
     reason := reason self; created_date := created_date self;
     status := status self |}.
End Fine.

(** ** The store *)

Record DB := mkDB {
  books : list Book.t;
  loans : list Loan.t;
  reservations : list Reservation.t;
  fines : list Fine.t;
  userprofiles : gmap nat UserProfile.t;
}.

Definition set_books (x : list Book.t) (db : DB) : DB :=
  {| books := x; loans := loans db; reservations := reservations db;
     fines := fines db; userprofiles := userprofiles db |}.
Definition set_loans (x : list Loan.t) (db : DB) : DB :=
  {| books := books db; loans := x; reservations := reservations db;
     fines := fines db; userprofiles := userprofiles db |}.
Definition set_reservations (x : list Reservation.t) (db : DB) : DB :=
  {| books := books db; loans := loans db; reservations := x;
     fines := fines db; userprofiles := userprofiles db |}.
Definition set_fines (x : list Fine.t) (db : DB) : DB :=
  {| books := books db; loans := loans db; reservations := reservations db;
     fines := x; userprofiles := userprofiles db |}.

(** ** What a request answers

    The error kinds carry the names the specification gives them; the
    comment is the message the view flashes. *)

Inductive Outcome :=
  | NOT_FOUND             (* Http404 of get_object_or_404 *)
  | UNAVAILABLE           (* This book is currently not available. *)
  | ALREADY_BORROWED      (* You have already borrowed this book. *)
  | FINES_OUTSTANDING     (* Please pay your pending fines before borrowing new books. *)
  | LOAN_LIMIT_REACHED    (* You have reached the maximum number of active loans (5). *)
  | BORROWED (loan_id : nat)
  | RETURNED (fine_amount : Decimal)
  | BOOK_AVAILABLE        (* This book is currently available for borrowing. *)
  | DUPLICATE_RESERVATION (* You already have a reservation for this book. *)
  | ALREADY_HOLDING       (* You currently have this book on loan. *)
  | RESERVED (reservation_id : nat) (queue_position : Z)
  | CANCELLED
  | RENEWAL (answer : bool * string)
  | RENDERED
  | RAISED (e : Exception).

(** ** Query predicates *)

(** [book=b, user=u, status='active'] on loans *)
Definition loan_of (b u : nat) (l : Loan.t) : bool :=
  bool_decide (Loan.book l = b) && bool_decide (Loan.user l = u)
  && bool_decide (Loan.status l = Loan.active).

(** [user=u, status='active'] on loans *)
Definition active_loan_of_user (u : nat) (l : Loan.t) : bool :=
  bool_decide (Loan.user l = u) && bool_decide (Loan.status l = Loan.active).

(** [user=u, status='pending'] on fines *)
Definition pending_fine_of (u : nat) (f : Fine.t) : bool :=
  bool_decide (Fine.user f = u) && bool_decide (Fine.status f = Fine.pending).

(** [user=u, loan=l] on fines *)
Definition fine_for (u l : nat) (f : Fine.t) : bool :=
  bool_decide (Fine.user f = u) && bool_decide (Fine.loan f = l).

(** [book=b, user=u, status__in=['pending', 'available']] on reservations *)
Definition open_reservation_of (b u : nat) (r : Reservation.t) : bool :=
  bool_decide (Reservation.book r = b) && bool_decide (Reservation.user r = u)
  && Reservation.is_open r.

(** [book=b, status='pending'] on reservations *)
Definition pending_reservation_on (b : nat) (r : Reservation.t) : bool :=
  bool_decide (Reservation.book r = b)
  && bool_decide (Reservation.status r = Reservation.pending).

(** [book=b, user=u] on reservations: the columns of [unique_together] *)
Definition reservation_pair (b u : nat) (r : Reservation.t) : bool :=
  bool_decide (Reservation.book r = b) && bool_decide (Reservation.user r = u).

(** The head of the queue of a book:
    [Reservation.objects.filter(book=b, status='pending')
       .order_by('reservation_date').first()] *)
Definition next_reservation (b : nat) (db : DB) : option (nat * Reservation.t) :=
  first (order_by (λ r, Reservation.reservation_date r.2)
           (qfilter (pending_reservation_on b) (reservations db))).

Definition dquote : string := String (Ascii.ascii_of_nat 34) EmptyString.

(** [f'Late return of "{title}"'] *)
Definition late_return_reason (title : string) : string :=
  ("Late return of " +:+ dquote +:+ title +:+ dquote)%string.

(** ** Methods of the models that read the store *)

(** [Book.can_be_borrowed_by] *)
Definition Book_can_be_borrowed_by (db : DB) (book_id : nat) (self : Book.t)
    (user : nat) : Exception + bool * string :=
  if negb (Book.is_available self) then inr (false, "Book is not available"%string)
  else if qexists (qfilter (loan_of book_id user) (loans db)) then
    inr (false, "You already have this book on loan"%string)
  else
    match userprofiles db !! user with
    | None => inl DoesNotExist
    | Some profile =>
        if bool_decide (UserProfile.loan_limit profile
                        ≤ qcount (qfilter (active_loan_of_user user) (loans db)))
        then inr (false, "You have reached your loan limit"%string)
        else if qexists (qfilter (pending_fine_of user) (fines db)) then
          inr (false, "Please pay pending fines first"%string)
        else inr (true, "Can borrow"%string)
    end.

(** [Loan.can_be_renewed] *)
Definition Loan_can_be_renewed (now : datetime) (db : DB) (self : Loan.t)
    : bool * string :=
  if bool_decide (3 ≤ Loan.renewal_count self) then
    (false, "Maximum renewals reached"%string)
  else if Loan.is_overdue now self then
    (false, "Cannot renew overdue book"%string)
  else if qexists (qfilter (pending_reservation_on (Loan.book self)) (reservations db))
  then (false, "Book has pending reservations"%string)
  else (true, "Can be renewed"%string).

(** [Loan.renew], on the row [self] whose key is [pk]: the store and the
    row in memory afterwards, and the answer. *)
Definition Loan_renew (now : datetime) (pk : nat) (self : Loan.t) (db : DB)
    : DB * Loan.t * (bool * string) :=
  let '(can_renew, message) := Loan_can_be_renewed now db self in
  if can_renew then
    let self := Loan.set_due_date (now + timedelta 14) self in
    let self := Loan.set_renewal_count (Loan.renewal_count self + 1) self in
    (set_loans (save pk self (loans db)) db, self,
     (true, "Loan renewed successfully"%string))
  else (db, self, (false, message)).

(** [Reservation.objects.create]: [unique_together = ['book', 'user']]
    refuses a second row for the pair, whatever the status of the first. *)
Definition Reservation_create (r : Reservation.t) (db : DB) : Exception + DB * nat :=
  if qexists (qfilter (reservation_pair (Reservation.book r) (Reservation.user r))
                (reservations db))
  then inl IntegrityError
  else
    let '(table, pk) := create r (reservations db) in
    inr (set_reservations table db, pk).

(** [Fine.objects.get_or_create(user=u, loan=l, defaults=...)]: the store,
    the key of the row, the row, and whether it was created. *)
Definition Fine_get_or_create (u l : nat) (defaults : Fine.t) (db : DB)
    : Exception + DB * nat * Fine.t * bool :=
  match qget (qfilter (fine_for u l) (fines db)) with
  | inr (pk, fine) => inr (db, pk, fine, false)
  | inl DoesNotExist =>
      let '(table, pk) := create defaults (fines db) in
      inr (set_fines table db, pk, defaults, true)
  | inl e => inl e
  end.

(** ** The views *)

(** [borrow_book] *)
Definition borrow_book (now : datetime) (user book_id : nat) (db : DB) : DB * Outcome :=
  match books db !! book_id with
  | None => (db, NOT_FOUND)
  | Some book =>
      if bool_decide (Book.available_copies book ≤ 0) then (db, UNAVAILABLE)
      else
        (* Check if user already has this book *)
        let existing_loan := qexists (qfilter (loan_of book_id user) (loans db)) in
        if existing_loan then (db, ALREADY_BORROWED)
        else
          (* Check for pending fines *)
          let pending_fines := qexists (qfilter (pending_fine_of user) (fines db)) in
          if pending_fines then (db, FINES_OUTSTANDING)
          else
            (* Check loan limit *)
            let active_loans_count :=
              qcount (qfilter (active_loan_of_user user) (loans db)) in
            if bool_decide (5 ≤ active_loans_count) then (db, LOAN_LIMIT_REACHED)
            else
              (* Create loan *)
              let '(table, loan_id) :=
                create {| Loan.book := book_id; Loan.user := user;
                          Loan.loan_date := now;
                          Loan.due_date := now + timedelta 14;
                          Loan.return_date := None; Loan.status := Loan.active;
                          Loan.renewal_count := 0; Loan.fine_amount := 0 |}
                       (loans db) in
              let db := set_loans table db in
              (* Update available copies *)
              let book := Book.set_available_copies (Book.available_copies book - 1) book in
              let db := set_books (save book_id book (books db)) db in
              (* Check if user had a reservation *)
              match qget (qfilter (open_reservation_of book_id user) (reservations db)) with
              | inl MultipleObjectsReturned => (db, RAISED MultipleObjectsReturned)
              | found =>
                  let db :=
                    match found with
                    | inr (pk, reservation) =>
                        set_reservations
                          (save pk (Reservation.set_status Reservation.fulfilled reservation)
                                (reservations db)) db
                    | inl _ => db
                    end in
                  (* Check if this book had pending reservations *)
                  let db :=
                    match next_reservation book_id db with
                    | Some (pk, reservation) =>
                        if bool_decide (0 < Book.available_copies book) then
                          set_reservations
                            (save pk (Reservation.set_status Reservation.available reservation)
                                  (reservations db)) db
                        else db
                    | None => db
                    end in
                  (db, BORROWED loan_id)
              end
  end.

(** [return_book] *)
Definition return_book (now : datetime) (user loan_id : nat) (db : DB) : DB * Outcome :=
  match get_object_or_404 (active_loan_of_user user) loan_id (loans db) with
  | None => (db, NOT_FOUND)
  | Some loan =>
      let loan := Loan.set_return_date (Some now) loan in
      let loan := Loan.set_status Loan.returned loan in
      (* Calculate fine if overdue *)
      let late : Exception + Loan.t * Decimal * DB :=
        if Loan.is_overdue now loan then
          let '(loan, fine_amount) := Loan.calculate_fine now loan in
          if bool_decide (0 < fine_amount) then
            match books db !! Loan.book loan with
            | None => inl DoesNotExist
            | Some book =>
                let '(table, _) :=
                  create {| Fine.user := user; Fine.loan := loan_id;
                            Fine.amount := fine_amount;
                            Fine.reason := late_return_reason (Book.title book);
                            Fine.created_date := now;
                            Fine.status := Fine.pending |}
                         (fines db) in
                inr (loan, fine_amount, set_fines table db)
            end
          else inr (loan, fine_amount, db)
        else inr (loan, 0, db) in
      match late with
      | inl e => (db, RAISED e)
      | inr (loan, fine_amount, db) =>
          let db := set_loans (save loan_id loan (loans db)) db in
          (* Update available copies *)
          match books db !! Loan.book loan with
          | None => (db, RAISED DoesNotExist)
          | Some book =>
              let book := Book.set_available_copies (Book.available_copies book + 1) book in
              let db := set_books (save (Loan.book loan) book (books db)) db in
              (* Check for pending reservations *)
              let db :=
                match next_reservation (Loan.book loan) db with
                | Some (pk, reservation) =>
                    let reservation := Reservation.set_status Reservation.available reservation in
                    let reservation := Reservation.set_expiry_date (now + timedelta 7) reservation in
                    set_reservations (save pk reservation (reservations db)) db
                | None => db
                end in
              (db, RETURNED fine_amount)
          end
      end
  end.

(** [reserve_book] *)
Definition reserve_book (now : datetime) (user book_id : nat) (db : DB) : DB * Outcome :=
  match books db !! book_id with
  | None => (db, NOT_FOUND)
  | Some book =>
      (* Check if book is available *)
      if bool_decide (0 < Book.available_copies book) then (db, BOOK_AVAILABLE)
      else
        (* Check if user already has a reservation *)
        let existing_reservation :=
          qexists (qfilter (open_reservation_of book_id user) (reservations db)) in
        if existing_reservation then (db, DUPLICATE_RESERVATION)
        else
          (* Check if user already has this book on loan *)
          let existing_loan := qexists (qfilter (loan_of book_id user) (loans db)) in
          if existing_loan then (db, ALREADY_HOLDING)
          else
            (* Create reservation *)
            match Reservation_create
                    {| Reservation.book := book_id; Reservation.user := user;
                       Reservation.reservation_date := now;
                       Reservation.expiry_date := now + timedelta 7;
                       Reservation.status := Reservation.pending |} db with
            | inl e => (db, RAISED e)
            | inr (db, pk) =>
                (* Calculate queue position *)
                let queue_position :=
                  qcount (qfilter (λ r, pending_reservation_on book_id r
                                        && bool_decide (Reservation.reservation_date r < now))
                            (reservations db)) + 1 in
                (db, RESERVED pk queue_position)
            end
  end.

(** [cancel_reservation] *)
Definition cancel_reservation (user reservation_id : nat) (db : DB) : DB * Outcome :=
  match get_object_or_404
          (λ r, bool_decide (Reservation.user r = user) && Reservation.is_open r)
          reservation_id (reservations db) with
  | None => (db, NOT_FOUND)
  | Some reservation =>
      let reservation := Reservation.set_status Reservation.cancelled reservation in
      (set_reservations (save reservation_id reservation (reservations db)) db, CANCELLED)
  end.

(** [.select_related('book')]: each row with the book it references
    (an inner join: the foreign key is not nullable). *)
Definition select_related {A} (book_of : A → nat) (db : DB) (q : list (nat * A))
    : list (nat * A * Book.t) :=
  omap (λ r, match books db !! book_of r.2 with
             | Some b => Some (r, b)
             | None => None
             end) q.

(** A [for] loop over the rows a query set held when the loop began; an
    exception leaves the loop and keeps what was saved before it. *)
Fixpoint for_each {R} (body : R → DB → DB * option Exception) (rows : list R)
    (db : DB) : DB * option Exception :=
  match rows with
  | [] => (db, None)
  | r :: rows' =>
      match body r db with
      | (db', None) => for_each body rows' db'
      | raised => raised
      end
  end.

(** The body of the loop of [my_loans]: the overdue sweep of one loan. *)
Definition sweep_loan (now : datetime) (user : nat) (row : nat * Loan.t * Book.t)
    (db : DB) : DB * option Exception :=
  let '(pk, loan, book) := row in
  if bool_decide (Loan.status loan = Loan.active) && Loan.is_overdue now loan then
    let '(loan, fine_amount) := Loan.calculate_fine now loan in
    if bool_decide (0 < fine_amount) then
      (* Create fine if it doesn't exist *)
      match Fine_get_or_create user pk
              {| Fine.user := user; Fine.loan := pk; Fine.amount := fine_amount;
                 Fine.reason := late_return_reason (Book.title book);
                 Fine.created_date := now; Fine.status := Fine.pending |} db with
      | inl e => (db, Some e)
      | inr (db, fine_id, fine, created) =>
          let db :=
            if negb created then
              (* Update existing fine amount *)
              set_fines (save fine_id (Fine.set_amount fine_amount fine) (fines db)) db
            else db in
          (set_loans (save pk loan (loans db)) db, None)
      end
    else (set_loans (save pk loan (loans db)) db, None)
  else (db, None).

(** [Loan.objects.filter(user=u).select_related('book').order_by('-loan_date')] *)
Definition loans_of_user (user : nat) (db : DB) : list (nat * Loan.t * Book.t) :=
  order_by (λ r, - Loan.loan_date r.1.2)
    (select_related Loan.book db
       (qfilter (λ l, bool_decide (Loan.user l = user)) (loans db))).

Definition finish (r : DB * option Exception) : DB * Outcome :=
  match r with
  | (db, None) => (db, RENDERED)
  | (db, Some e) => (db, RAISED e)
  end.

(** [my_loans]: the overdue sweep *)
Definition my_loans (now : datetime) (user : nat) (db : DB) : DB * Outcome :=
  finish (for_each (sweep_loan now user) (loans_of_user user db) db).

(** The body of the loop of [my_reservations]: the expiry of one hold. *)
Definition expire_reservation (now : datetime) (row : nat * Reservation.t * Book.t)
    (db : DB) : DB * option Exception :=
  let '(pk, reservation, _) := row in
  if Reservation.is_expired now reservation && Reservation.is_open reservation then
    let reservation := Reservation.set_status Reservation.expired reservation in
    (set_reservations (save pk reservation (reservations db)) db, None)
  else (db, None).

(** [Reservation.objects.filter(user=u).select_related('book')
      .order_by('-reservation_date')] *)
Definition reservations_of_user (user : nat) (db : DB)
    : list (nat * Reservation.t * Book.t) :=
  order_by (λ r, - Reservation.reservation_date r.1.2)
    (select_related Reservation.book db
       (qfilter (λ r, bool_decide (Reservation.user r = user)) (reservations db))).

(** [my_reservations]: the expire sweep *)
Definition my_reservations (now : datetime) (user : nat) (db : DB) : DB * Outcome :=
  finish (for_each (expire_reservation now) (reservations_of_user user db) db).

(** ** The engine: one request at a time

    No view calls [Loan.renew]; the engine reads the row and calls the
    method on it. *)

Inductive Request :=
  | Borrow (user book_id : nat)
  | Return (user loan_id : nat)
  | Renew (loan_id : nat)
  | Reserve (user book_id : nat)
  | Cancel (user reservation_id : nat)
  | OverdueSweep (user : nat)
  | ExpireSweep (user : nat).

Definition handle (now : datetime) (req : Request) (db : DB) : DB * Outcome :=
  match req with
  | Borrow user book_id => borrow_book now user book_id db
  | Return user loan_id => return_book now user loan_id db
  | Renew loan_id =>
      match loans db !! loan_id with
      | None => (db, NOT_FOUND)
      | Some loan =>
          let '(db, _, answer) := Loan_renew now loan_id loan db in
          (db, RENEWAL answer)
      end
  | Reserve user book_id => reserve_book now user book_id db
  | Cancel user reservation_id => cancel_reservation user reservation_id db
  | OverdueSweep user => my_loans now user db
  | ExpireSweep user => my_reservations now user db
  end.

(** A run of requests, each at its own time. *)
Fixpoint run (reqs : list (datetime * Request)) (db : DB) : DB :=
  match reqs with
  | [] => db
  | (now, req) :: reqs' => run reqs' (handle now req db).1
  end.

(** ** What the specification states of the store *)

(** The number of rows of a table that satisfy [P]. *)
Definition count_where {A} (P : A → bool) (table : list A) : Z :=
  Z.of_nat (length (List.filter P table)).

Definition indicator (b : bool) : Z := if b then 1 else 0.

(** The loans on book [b] whose status satisfies [st]. *)
Definition counts (st : Loan.Status → bool) (b : nat) (l : Loan.t) : bool :=
  bool_decide (Loan.book l = b) && st (Loan.status l).

(** The status [active]. *)
Definition is_active (s : Loan.Status) : bool := bool_decide (s = Loan.active).

(** The statuses of a loan that still holds a copy: [active] and [overdue]. *)
Definition holds_copy (s : Loan.Status) : bool :=
  bool_decide (s = Loan.active) || bool_decide (s = Loan.overdue).

(** [available_copies == total_copies - count(loans of the book in st)] *)
Definition inventory_consistent (st : Loan.Status → bool) (db : DB) : Prop :=
  ∀ b book, books db !! b = Some book →
    Book.available_copies book
    = Book.total_copies book - count_where (counts st b) (loans db).

(** The borrower has a fine of status [pending]. *)
Definition has_pending_fine (user : nat) (db : DB) : Prop :=
  ∃ pk fine, fines db !! pk = Some fine ∧ Fine.user fine = user
             ∧ Fine.status fine = Fine.pending.

(** At most one fine row for each (borrower, loan) pair. *)
Definition fines_unique (db : DB) : Prop :=
  ∀ u l, count_where (fine_for u l) (fines db) ≤ 1.

(** The columns of [unique_together] of a reservation row, and those of
    all the rows, in row order. *)
Definition pair_of (r : Reservation.t) : nat * nat :=
  (Reservation.book r, Reservation.user r).

Definition reservation_pairs (db : DB) : list (nat * nat) :=
  pair_of <$> reservations db.

(** [unique_together = ['book', 'user']] holds of the store. *)
Definition unique_together (db : DB) : Prop := NoDup (reservation_pairs db).

(** What the overdue sweep makes of a loan row. *)
Definition sweep_row (now : datetime) (l : Loan.t) : Loan.t :=
  if bool_decide (Loan.status l = Loan.active) && Loan.is_overdue now l
  then (Loan.calculate_fine now l).1
  else l.

(** Two loan rows with the same borrower, book and loan date. *)
Definition same_loan_keys (l l' : Loan.t) : Prop :=
  Loan.user l' = Loan.user l ∧ Loan.book l' = Loan.book l
  ∧ Loan.loan_date l' = Loan.loan_date l.

(** ** Scenarios *)

Definition day (n : Z) : datetime := timedelta n.

Definition a_book (copies available : Z) : Book.t :=
  {| Book.title := "Dune"; Book.total_copies := copies;
     Book.available_copies := available |}.

(** One book with one copy on the shelf; borrower 1 has [loan_limit = 3]. *)
Definition shelf : DB :=
  {| books := [a_book 1 1]; loans := []; reservations := []; fines := [];
     userprofiles := {[ 1%nat := UserProfile.mk 3 ]} |}.

(** Borrower 1 takes the copy on day 0; it is due on day 14. *)
Definition lent : DB := run [(day 0, Borrow 1 0)] shelf.

(** The overdue sweep catches the loan on day 15. *)
Definition swept : DB := run [(day 15, OverdueSweep 1)] lent.

(** Two books; borrower 1 takes the first on day 0 and the overdue sweep
    of day 15 records a fine for it: the second book is on the shelf. *)
Definition fined : DB :=
  run [(day 0, Borrow 1 0); (day 15, OverdueSweep 1)]
    {| books := [a_book 1 1; a_book 1 1]; loans := []; reservations := [];
       fines := []; userprofiles := {[ 1%nat := UserProfile.mk 3 ]} |}.

(** Four books on the shelf; borrower 1, whose [loan_limit] is 3, has
    borrowed three of them. *)
Definition three_loans : DB :=
  run [(day 0, Borrow 1 0); (day 0, Borrow 1 1); (day 0, Borrow 1 2)]
    {| books := [a_book 1 1; a_book 1 1; a_book 1 1; a_book 1 1];
       loans := []; reservations := []; fines := [];
       userprofiles := {[ 1%nat := UserProfile.mk 3 ]} |}.

(** A book with three copies, all lent on day 0; borrowers 4, 5 and 6
    reserve it on days 1, 2 and 3; two copies come back on days 4 and 5,
    which promotes the holds of 4 and 5 and leaves the hold of 6 pending. *)
Definition two_back : DB :=
  run [(day 0, Borrow 1 0); (day 0, Borrow 2 0); (day 0, Borrow 3 0);
       (day 1, Reserve 4 0); (day 2, Reserve 5 0); (day 3, Reserve 6 0);
       (day 4, Return 1 0); (day 5, Return 2 1)]
    {| books := [a_book 3 3]; loans := []; reservations := []; fines := [];
       userprofiles := ∅ |}.

(** From [two_back], borrowers 4 and 5 claim their holds on days 6 and 7,
    borrower 4 brings the copy back on day 8 and borrower 6 takes it on
    day 9: the three copies are out again, none with borrower 4, whose
    hold is [fulfilled]. *)
Definition all_out : DB :=
  run [(day 6, Borrow 4 0); (day 7, Borrow 5 0); (day 8, Return 4 3);
       (day 9, Borrow 6 0)] two_back.

(** ** The rest of the models and of the views

    The derived values of the models, the read-only views, and the
    actions of the admin on loans. *)

(** [sum(...)] of Python: a left fold that starts at 0. *)
Definition py_sum (xs : list Z) : Z := fold_left Z.add xs 0.

(** [UserProfile.active_loans_count] *)
Definition UserProfile_active_loans_count (db : DB) (user : nat) : Z :=
  qcount (qfilter (active_loan_of_user user) (loans db)).

(** [UserProfile.total_fines]; the fines come in the order of [Fine.Meta],
    newest first. *)
Definition UserProfile_total_fines (db : DB) (user : nat) : Decimal :=
  py_sum ((λ r, Fine.amount r.2)
          <$> order_by (λ r, - Fine.created_date r.2)
                (qfilter (pending_fine_of user) (fines db))).

(** [Book.reservation_queue_length], of the book with key [book_id] *)
Definition Book_reservation_queue_length (db : DB) (book_id : nat) : Z :=
  qcount (qfilter (pending_reservation_on book_id) (reservations db)).

(** [book=b, status='pending', reservation_date__lt=d] on reservations *)
Definition pending_before (b : nat) (d : datetime) (r : Reservation.t) : bool :=
  pending_reservation_on b r && bool_decide (Reservation.reservation_date r < d).

(** [Reservation.queue_position] *)
Definition Reservation_queue_position (db : DB) (self : Reservation.t) : Z :=
  qcount (qfilter (pending_before (Reservation.book self)
                     (Reservation.reservation_date self))
            (reservations db)) + 1.

(** [Reservation.days_until_expiry]; [delta.days] rounds down. *)
Definition Reservation_days_until_expiry (now : datetime) (self : Reservation.t)
    : option Z :=
  if negb (bool_decide (Reservation.status self = Reservation.available)) then None
  else
    let delta := Reservation.expiry_date self - now in
    Some (Z.max 0 (delta `div` microseconds_per_day)).

(** [.select_related('loan__book')] on fines: the fines whose loan and
    whose loan's book are in the store. *)
Definition select_related_loan_book (db : DB) (q : list (nat * Fine.t))
    : list (nat * Fine.t) :=
  List.filter
    (λ r, match loans db !! Fine.loan r.2 with
          | Some l => bool_decide (is_Some (books db !! Loan.book l))
          | None => false
          end) q.

(** [my_fines]: the value [total_pending] of the page *)
Definition my_fines (user : nat) (db : DB) : Decimal :=
  let fines :=
    order_by (λ r, - Fine.created_date r.2)
      (select_related_loan_book db
         (qfilter (λ f, bool_decide (Fine.user f = user)) (fines db))) in
  py_sum ((λ r, Fine.amount r.2)
          <$> List.filter (λ r, bool_decide (Fine.status r.2 = Fine.pending)) fines).

(** [check_book_availability]: [available_copies], [total_copies] and
    [is_available] of the JSON answer; [None] is the 404. *)
Definition check_book_availability (book_id : nat) (db : DB) : option (Z * Z * bool) :=
  match books db !! book_id with
  | None => None
  | Some book =>
      Some (Book.available_copies book, Book.total_copies book,
            bool_decide (0 < Book.available_copies book))
  end.

(** [book_id=b, user=u, status='pending'] on reservations *)
Definition pending_reservation_of (b u : nat) (r : Reservation.t) : bool :=
  bool_decide (Reservation.book r = b) && bool_decide (Reservation.user r = u)
  && bool_decide (Reservation.status r = Reservation.pending).

(** [get_reservation_queue_position]: [position] and [status] of the JSON
    answer; [None] is the answer "No reservation found" with status 404. *)
Definition get_reservation_queue_position (user book_id : nat) (db : DB)
    : Exception + option (Z * Reservation.Status) :=
  match qget (qfilter (pending_reservation_of book_id user) (reservations db)) with
  | inr (_, reservation) =>
      let position :=
        qcount (qfilter (pending_before book_id
                           (Reservation.reservation_date reservation))
                  (reservations db)) + 1 in
      inr (Some (position, Reservation.status reservation))
  | inl DoesNotExist => inr None
  | inl e => inl e
  end.

(** The selected keys that are in the table, each with its row. The
    properties proved of the admin actions hold for every order of the
    selection, so for the order the change list gives the query set. *)
Definition selected_rows {A} (selected : list nat) (table : list A) : list (nat * A) :=
  omap (λ pk, match table !! pk with
              | Some r => Some (pk, r)
              | None => None
              end) selected.

(** The query set an admin action of [LoanAdmin] receives. The change
    list builds it: when it joins the foreign keys ([joined], as for a
    [list_display] that names one) each row carries the book read with
    it and a loan without its book is no row; otherwise a row carries no
    book and [loan.book] reads the store when it is first used. *)
Definition admin_queryset (joined : bool) (selected : list nat) (db : DB)
    : list (nat * Loan.t * option Book.t) :=
  if joined
  then (λ r, (r.1, Some r.2))
         <$> select_related Loan.book db (selected_rows selected (loans db))
  else (λ r, (r, None)) <$> selected_rows selected (loans db).

(** [loan.book] of a row of the query set *)
Definition related_book (cached : option Book.t) (loan : Loan.t) (db : DB)
    : option Book.t :=
  match cached with
  | Some book => Some book
  | None => books db !! Loan.book loan
  end.

(** The body of the loop of [LoanAdmin.mark_as_returned]. The module
    of the admin does not import [timezone]: for an active loan the
    status of the row in memory is set, then the line
    [loan.return_date = timezone.now()] looks the name up and raises
    [NameError], before the book is read and before anything is saved. *)
Definition admin_return_loan (row : nat * Loan.t * option Book.t) (db : DB)
    : DB * option Exception :=
  let '(pk, loan, cached) := row in
  if bool_decide (Loan.status loan = Loan.active) then
    let loan := Loan.set_status Loan.returned loan in
    (db, Some NameError)
  else (db, None).

(** [LoanAdmin.mark_as_returned] *)
Definition mark_as_returned (joined : bool) (selected : list nat) (db : DB)
    : DB * option Exception :=
  for_each admin_return_loan (admin_queryset joined selected db) db.

(** The body of the loop of [LoanAdmin.calculate_fines]: the loan in
    memory is not saved. *)
Definition admin_fine_loan (now : datetime) (row : nat * Loan.t * option Book.t)
    (db : DB) : DB * option Exception :=
  let '(pk, loan, cached) := row in
  let '(loan, fine_amount) := Loan.calculate_fine now loan in
  if bool_decide (0 < fine_amount) then
    match related_book cached loan db with
    | None => (db, Some DoesNotExist)
    | Some book =>
        match Fine_get_or_create (Loan.user loan) pk
                {| Fine.user := Loan.user loan; Fine.loan := pk;
                   Fine.amount := fine_amount;
                   Fine.reason := late_return_reason (Book.title book);
                   Fine.created_date := now; Fine.status := Fine.pending |} db with
        | inl e => (db, Some e)
        | inr (db, _, _, _) => (db, None)
        end
    end
  else (db, None).

(** [LoanAdmin.calculate_fines] *)
Definition calculate_fines (now : datetime) (joined : bool) (selected : list nat)
    (db : DB) : DB * option Exception :=
  for_each (admin_fine_loan now) (admin_queryset joined selected db) db.

(** Every loan is on a book of the store: the foreign key of [Loan.book]. *)
Definition loans_resolve (db : DB) : Prop :=
  ∀ pk l, loans db !! pk = Some l → is_Some (books db !! Loan.book l).

(** ** What the code shows of the store, beyond the specification *)

(** The loan that [borrow_book] creates. *)
Definition borrowed_loan (now : datetime) (user book_id : nat) : Loan.t :=
  {| Loan.book := book_id; Loan.user := user; Loan.loan_date := now;
     Loan.due_date := now + timedelta 14; Loan.return_date := None;
     Loan.status := Loan.active; Loan.renewal_count := 0;
     Loan.fine_amount := 0 |}.

(** What a request may make of a loan row: book, borrower and loan date
    stay; the status stays or moves from [active] to [returned] or
    [overdue]; [renewal_count] stays or, below 3, grows by one. *)
Definition loan_step (l l' : Loan.t) : Prop :=
  Loan.book l' = Loan.book l ∧ Loan.user l' = Loan.user l
  ∧ Loan.loan_date l' = Loan.loan_date l
  ∧ (Loan.status l' = Loan.status l
     ∨ Loan.status l = Loan.active
       ∧ (Loan.status l' = Loan.returned ∨ Loan.status l' = Loan.overdue))
  ∧ (Loan.renewal_count l' = Loan.renewal_count l
     ∨ Loan.renewal_count l < 3
       ∧ Loan.renewal_count l' = Loan.renewal_count l + 1).

(** No book has a negative number of available copies. *)
Definition copies_nonneg (db : DB) : Prop :=
  ∀ b book, books db !! b = Some book → 0 ≤ Book.available_copies book.

(** At most one active loan of a book to a borrower. *)
Definition active_loans_unique (db : DB) : Prop :=
  ∀ b u, count_where (loan_of b u) (loans db) ≤ 1.

(** No borrower has more than five active loans. *)
Definition loans_capped (db : DB) : Prop :=
  ∀ u, count_where (active_loan_of_user u) (loans db) ≤ 5.

(** Every loan has a [renewal_count] from 0 to 3. *)
Definition renewals_bounded (db : DB) : Prop :=
  ∀ pk l, loans db !! pk = Some l → 0 ≤ Loan.renewal_count l ≤ 3.

(** What the expire sweep makes of a reservation row. *)
Definition expire_row (now : datetime) (r : Reservation.t) : Reservation.t :=
  if Reservation.is_expired now r && Reservation.is_open r
  then Reservation.set_status Reservation.expired r
  else r.

(** Every fine of the borrower is on a loan of the store whose book is in
    the store. *)
Definition fines_resolve (user : nat) (db : DB) : Prop :=
  ∀ pk f, fines db !! pk = Some f → Fine.user f = user →
    ∃ l b, loans db !! Fine.loan f = Some l ∧ books db !! Loan.book l = Some b.

(** The one copy of [shelf] is lent to borrower 1 on day 0; borrowers 2
    and 3 reserve the book on days 1 and 2. *)
Definition queued : DB :=
  run [(day 0, Borrow 1 0); (day 1, Reserve 2 0); (day 2, Reserve 3 0)] shelf.

(** The head of the queue of a book in a table of reservations: what
    [next_reservation] reads. *)
Definition queue_head (b : nat) (table : list Reservation.t)
    : option (nat * Reservation.t) :=
  first (order_by (λ r, Reservation.reservation_date r.2)
           (qfilter (pending_reservation_on b) table)).

(** The reservation that [reserve_book] creates. *)
Definition reserved_row (now : datetime) (user book_id : nat) : Reservation.t :=
  {| Reservation.book := book_id; Reservation.user := user;
     Reservation.reservation_date := now;
     Reservation.expiry_date := now + timedelta 7;
     Reservation.status := Reservation.pending |}.

(** What a request may make of a reservation row: book, borrower and
    reservation date stay; the row stays as it is, or it was pending or
    available and is now fulfilled, cancelled or expired, or it was
    pending and is now available. *)
Definition reservation_step (r r' : Reservation.t) : Prop :=
  Reservation.book r' = Reservation.book r
  ∧ Reservation.user r' = Reservation.user r
  ∧ Reservation.reservation_date r' = Reservation.reservation_date r
  ∧ (r' = r
     ∨ Reservation.is_open r = true
       ∧ (Reservation.status r' = Reservation.fulfilled
          ∨ Reservation.status r' = Reservation.cancelled
          ∨ Reservation.status r' = Reservation.expired)
     ∨ Reservation.status r = Reservation.pending
       ∧ Reservation.status r' = Reservation.available).

(** * Properties *)

(** ** Query sets *)

Section queryset_facts.
Context {A : Type}.
Implicit Types (table : list A) (P : A → bool).

Lemma elem_of_rows_from n table pk r :
  (pk, r) ∈ rows_from n table ↔ (n ≤ pk)%nat ∧ table !! (pk - n)%nat = Some r.
Proof.
  revert n. induction table as [|x table IH]; intros n; simpl.
  - rewrite elem_of_nil. split; [tauto | intros [_ H]; discriminate].
  - rewrite elem_of_cons, IH. split.
    + intros [H | [Hle H]].
      * inversion H; subst. split; [lia |]. by rewrite Nat.sub_diag.
      * split; [lia |]. replace (pk - n)%nat with (S (pk - S n)) by lia. done.
    + intros [Hle H]. destruct (decide (pk = n)) as [-> | Hne].
      * left. rewrite Nat.sub_diag in H. simpl in H. congruence.
      * right. split; [lia |].
        replace (pk - n)%nat with (S (pk - S n)) in H by lia. done.
Qed.

Lemma elem_of_objects table pk r : (pk, r) ∈ objects table ↔ table !! pk = Some r.
Proof.
  unfold objects. rewrite elem_of_rows_from, Nat.sub_0_r.
  split; [tauto | intros; split; [lia | done]].
Qed.

Lemma elem_of_qfilter P table pk r :
  (pk, r) ∈ qfilter P table ↔ table !! pk = Some r ∧ P r = true.
Proof.
  unfold qfilter. rewrite list_elem_of_In, filter_In, <- list_elem_of_In.
  by rewrite elem_of_objects.
Qed.

Lemma keys_rows_from n table : (rows_from n table).*1 = seq n (length table).
Proof.
  revert n. induction table as [|x table IH]; intros n; simpl; [done |].
  by rewrite IH.
Qed.

Lemma NoDup_keys_filter {B} (f : nat * B → bool) (q : list (nat * B)) :
  NoDup q.*1 → NoDup (List.filter f q).*1.
Proof.
  induction q as [|x q IH]; simpl; [done |].
  rewrite NoDup_cons. intros [Hx Hq]. destruct (f x); simpl; [| by apply IH].
  rewrite NoDup_cons. split; [| by apply IH].
  intros Hin. apply Hx. apply list_elem_of_fmap in Hin as (y & -> & Hy).
  apply list_elem_of_fmap. exists y. split; [done |].
  apply list_elem_of_In in Hy. apply filter_In in Hy as [Hy _].
  by apply list_elem_of_In.
Qed.

Lemma NoDup_keys_qfilter P table : NoDup (qfilter P table).*1.
Proof.
  apply NoDup_keys_filter. unfold objects. rewrite keys_rows_from.
  apply NoDup_seq.
Qed.

Lemma qexists_true {B} (q : list B) : qexists q = true ↔ ∃ x, x ∈ q.
Proof.
  destruct q as [|x q]; simpl.
  - split; [done | intros [x Hx]; by apply elem_of_nil in Hx].
  - split; [| done]. intros _. exists x. apply elem_of_cons. by left.
Qed.

Lemma qexists_qfilter P table :
  qexists (qfilter P table) = true ↔ ∃ pk r, table !! pk = Some r ∧ P r = true.
Proof.
  rewrite qexists_true. split.
  - intros [[pk r] H]. apply elem_of_qfilter in H. eauto.
  - intros (pk & r & H). exists (pk, r). by apply elem_of_qfilter.
Qed.

Lemma get_object_or_404_Some P pk table r :
  get_object_or_404 P pk table = Some r ↔ table !! pk = Some r ∧ P r = true.
Proof.
  unfold get_object_or_404. destruct (table !! pk) as [r' |].
  - destruct (P r') eqn:HP.
    + split; [intros [= <-]; done | intros [H _]; done].
    + split; [done | intros [[= <-] HP']; congruence].
  - split; [done | intros [? _]; done].
Qed.
End queryset_facts.

(** [order_by] permutes the rows, puts a smallest key first, and commutes
    with an update of the rows that keeps their keys. *)
Section order_by_facts.
Context {B : Type} (key : B → Z).

Lemma insert_by_Permutation x q : insert_by key x q ≡ₚ x :: q.
Proof.
  induction q as [|y q IH]; simpl; [done |].
  case_bool_decide; [done |]. rewrite IH. apply Permutation_swap.
Qed.

Lemma order_by_Permutation q : order_by key q ≡ₚ q.
Proof.
  induction q as [|x q IH]; simpl; [done |].
  rewrite insert_by_Permutation. by rewrite IH.
Qed.

Lemma elem_of_order_by x q : x ∈ order_by key q ↔ x ∈ q.
Proof. by rewrite order_by_Permutation. Qed.

Lemma head_insert_by_le x q y z :
  head (insert_by key x q) = Some y → z ∈ x :: q →
  (∀ h, head q = Some h → ∀ z, z ∈ q → key h ≤ key z) →
  key y ≤ key z.
Proof.
  destruct q as [|h q]; simpl.
  - intros [= <-] Hz _. apply list_elem_of_singleton in Hz as ->. lia.
  - intros Hy Hz Hmin. specialize (Hmin h eq_refl).
    case_bool_decide as Hle; simpl in Hy; injection Hy as <-.
    + apply elem_of_cons in Hz as [-> | Hz]; [lia |].
      specialize (Hmin z Hz). lia.
    + apply elem_of_cons in Hz as [-> | Hz]; [lia |]. by apply Hmin.
Qed.

Lemma first_order_by_le q y z :
  first (order_by key q) = Some y → z ∈ q → key y ≤ key z.
Proof.
  unfold first. revert y z. induction q as [|x q IH]; intros y z; simpl.
  - done.
  - intros Hy Hz. apply (head_insert_by_le x (order_by key q) y z Hy).
    + apply elem_of_cons in Hz as [-> | Hz]; apply elem_of_cons.
      * by left.
      * right. by apply (proj2 (elem_of_order_by z q)).
    + intros h Hh z' Hz'. apply IH; [done |].
      by apply (proj1 (elem_of_order_by z' q)).
Qed.
End order_by_facts.

(** ** Renewal *)

(** C7. A loan with [renewal_count = 3] is not renewed, whatever its due
    date and whatever reservations the book has: the answer is "Maximum
    renewals reached", and neither the store nor the row in memory (so
    neither [due_date] nor [renewal_count]) changes. *)
Theorem renew_at_max_renewals now pk (self : Loan.t) db :
  Loan.renewal_count self = 3 →
  Loan_renew now pk self db
  = (db, self, (false, "Maximum renewals reached"%string)).
Proof.
  intros H3. unfold Loan_renew, Loan_can_be_renewed.
  rewrite bool_decide_eq_true_2 by lia. done.
Qed.

(** An overdue loan, renewed three times, of a book with a pending hold. *)
Lemma renew_at_max_renewals_witness :
  let self := {| Loan.book := 0; Loan.user := 3; Loan.loan_date := day 0;
                 Loan.due_date := day 1; Loan.return_date := None;
                 Loan.status := Loan.active; Loan.renewal_count := 3;
                 Loan.fine_amount := 0 |} in
  Loan.is_overdue (day 9) self = true
  ∧ qexists (qfilter (pending_reservation_on 0) (reservations two_back)) = true
  ∧ Loan_renew (day 9) 2 self two_back
    = (two_back, self, (false, "Maximum renewals reached"%string)).
Proof.
  split; [reflexivity |]. split; [reflexivity |].
  apply renew_at_max_renewals. reflexivity.
Defined.

(** ** Borrowing with a fine outstanding *)

Lemma has_pending_fine_qexists user db :
  has_pending_fine user db ↔ qexists (qfilter (pending_fine_of user) (fines db)) = true.
Proof.
  rewrite qexists_qfilter. unfold has_pending_fine, pending_fine_of.
  split; intros (pk & fine & Hpk & H); exists pk, fine; (split; [done |]).
  - destruct H as [-> ->]. by rewrite !bool_decide_eq_true_2.
  - apply andb_true_iff in H as [H1 H2].
    by apply bool_decide_eq_true in H1, H2.
Qed.

(** C8, as stated, fails: the availability check comes first, so the
    borrower of [swept], who has a pending fine, is told that the book is
    not available. *)
Lemma borrow_with_pending_fine_unavailable :
  has_pending_fine 1 swept
  ∧ (borrow_book (day 16) 1 0 swept).2 ≠ FINES_OUTSTANDING.
Proof.
  split.
  - apply has_pending_fine_qexists. reflexivity.
  - vm_compute. discriminate.
Qed.

(** C8, amended. A borrower with a pending fine borrows nothing and the
    store is left as it was. The answer is that of the first check that
    fails: [NOT_FOUND] exactly when the book is not in the store,
    [UNAVAILABLE] exactly when it is and has no copy available,
    [ALREADY_BORROWED] exactly when it has a copy and the borrower has an
    active loan of it, and [FINES_OUTSTANDING] exactly when the book
    exists, has a copy available and is not already on an active loan to
    the borrower. *)
Theorem borrow_with_pending_fine now user book_id db :
  has_pending_fine user db →
  (borrow_book now user book_id db).1 = db
  ∧ (borrow_book now user book_id db).2
    ∈ [NOT_FOUND; UNAVAILABLE; ALREADY_BORROWED; FINES_OUTSTANDING]
  ∧ ((borrow_book now user book_id db).2 = NOT_FOUND
     ↔ books db !! book_id = None)
  ∧ ((borrow_book now user book_id db).2 = UNAVAILABLE
     ↔ ∃ book, books db !! book_id = Some book
               ∧ Book.available_copies book ≤ 0)
  ∧ ((borrow_book now user book_id db).2 = ALREADY_BORROWED
     ↔ ∃ book, books db !! book_id = Some book
               ∧ 0 < Book.available_copies book
               ∧ qexists (qfilter (loan_of book_id user) (loans db)) = true)
  ∧ ((borrow_book now user book_id db).2 = FINES_OUTSTANDING
     ↔ ∃ book, books db !! book_id = Some book
               ∧ 0 < Book.available_copies book
               ∧ qexists (qfilter (loan_of book_id user) (loans db)) = false).
Proof.
  intros Hfine%has_pending_fine_qexists. unfold borrow_book.
  destruct (books db !! book_id) as [book |]; simpl.
  - case_bool_decide as Hav; simpl.
    { split; [done |]. split; [set_solver |]. split_and!; split; try done.
      - intros _. by exists book.
      - intros (? & [= <-] & ? & _). lia.
      - intros (? & [= <-] & ? & _). lia. }
    destruct (qexists (qfilter (loan_of book_id user) (loans db))) eqn:Hloan; simpl.
    { split; [done |]. split; [set_solver |]. split_and!; split; try done.
      - intros (? & [= <-] & ?). lia.
      - intros _. exists book. split; [done |]. split; [lia | done].
      - intros (? & _ & _ & ?). done. }
    rewrite Hfine. simpl. split; [done |]. split; [set_solver |].
    split_and!; split; try done.
    + intros (? & [= <-] & ?). lia.
    + intros (? & _ & _ & ?). done.
    + intros _. exists book. split; [done |]. split; [lia | done].
  - split; [done |]. split; [set_solver |]. split_and!; split; try done.
    + intros (? & ? & _). done.
    + intros (? & ? & _). done.
    + intros (? & ? & _). done.
Qed.

(** The borrower of [fined] has a pending fine and asks for the book
    that is on the shelf: the answer is [FINES_OUTSTANDING]. *)
Lemma borrow_with_pending_fine_witness :
  (borrow_book (day 16) 1 1 fined).1 = fined
  ∧ (borrow_book (day 16) 1 1 fined).2 = FINES_OUTSTANDING.
Proof.
  destruct (borrow_with_pending_fine (day 16) 1 1 fined)
    as (Hsame & _ & _ & _ & _ & Hfines).
  - exists 0%nat. eexists. split; [reflexivity |]. split; reflexivity.
  - split; [exact Hsame |]. apply Hfines.
    eexists. split; [reflexivity |]. split; reflexivity.
Defined.

(** ** The promoted reservation *)

(** The head of the queue is a pending reservation of the book, and no
    pending reservation of the book has an earlier [reservation_date]. *)
Lemma next_reservation_earliest b db pk r :
  next_reservation b db = Some (pk, r) →
  reservations db !! pk = Some r
  ∧ pending_reservation_on b r = true
  ∧ ∀ pk' r', reservations db !! pk' = Some r' →
      pending_reservation_on b r' = true →
      Reservation.reservation_date r ≤ Reservation.reservation_date r'.
Proof.
  unfold next_reservation. intros Hfirst.
  assert ((pk, r) ∈ qfilter (pending_reservation_on b) (reservations db)) as Hin.
  { eapply elem_of_order_by. apply head_Some_elem_of. exact Hfirst. }
  apply elem_of_qfilter in Hin as [Hpk Hpend]. split; [done |]. split; [done |].
  intros pk' r' Hpk' Hpend'.
  apply (first_order_by_le _ _ _ (pk', r') Hfirst).
  by apply elem_of_qfilter.
Qed.

(** C5, on the failing input. In [two_back] the hold of borrower 6, made on
    day 3, heads the queue with the placeholder [expiry_date] of day 10.
    Borrower 4 borrows on day 6 and a copy remains: the hold of borrower 6
    is promoted to [available], and its [expiry_date] is still day 10, not
    day 13. *)
Theorem borrow_promotes_without_new_expiry :
  let hold := {| Reservation.book := 0; Reservation.user := 6;
                 Reservation.reservation_date := day 3;
                 Reservation.expiry_date := day 10;
                 Reservation.status := Reservation.pending |} in
  let after := borrow_book (day 6) 4 0 two_back in
  next_reservation 0 two_back = Some (2%nat, hold)
  ∧ after.2 = BORROWED 3
  ∧ Book.available_copies <$> books after.1 = [1]
  ∧ reservations after.1 !! 2%nat
    = Some (Reservation.set_status Reservation.available hold)
  ∧ Reservation.expiry_date (Reservation.set_status Reservation.available hold)
    ≠ day 6 + timedelta 7.
Proof. vm_compute. repeat split; discriminate. Qed.

(** ** Returning late *)

(** C2, on the failing input. The loan of [lent] is active and due on day
    14. Returned on day 20, six calendar days late, it is closed with
    [return_date = now] and [status = returned], but [fine_amount] stays
    0 and no Fine row is created: [is_overdue] is asked after the status
    has become [returned], and answers no. *)
Theorem return_late_creates_no_fine :
  let after := return_book (day 20) 1 0 lent in
  loans lent
  = [ {| Loan.book := 0; Loan.user := 1; Loan.loan_date := day 0;
         Loan.due_date := day 14; Loan.return_date := None;
         Loan.status := Loan.active; Loan.renewal_count := 0;
         Loan.fine_amount := 0 |} ]
  ∧ date (day 20) - date (day 14) = 6
  ∧ after.2 = RETURNED 0
  ∧ loans after.1
    = [ {| Loan.book := 0; Loan.user := 1; Loan.loan_date := day 0;
           Loan.due_date := day 14; Loan.return_date := Some (day 20);
           Loan.status := Loan.returned; Loan.renewal_count := 0;
           Loan.fine_amount := 0 |} ]
  ∧ fines after.1 = [].
Proof. vm_compute. repeat split. Qed.

(** [is_overdue] of a returned loan is false, so no return creates a fine. *)
Lemma is_overdue_returned now (l : Loan.t) :
  Loan.is_overdue now (Loan.set_status Loan.returned l) = false.
Proof. reflexivity. Qed.

Lemma return_book_fines now user loan_id db :
  fines (return_book now user loan_id db).1 = fines db.
Proof.
  unfold return_book.
  destruct (get_object_or_404 _ _ _) as [loan |]; [| done].
  rewrite is_overdue_returned. simpl.
  destruct (books db !! Loan.book loan) as [book |]; [| done]. simpl.
  destruct (next_reservation _ _) as [[pk r] |]; done.
Qed.

(** ** The overdue sweep and the amount of the fine *)

(** C3, on the failing input. The sweep of day 15 finds the loan of
    [lent] one day overdue, records a fine of 1.00 and flips the loan to
    [overdue]. The sweep of day 20 looks at [active] loans only: the loan
    is now six days overdue and still not returned, and the fine is still
    1.00. *)
Theorem sweep_does_not_recompute :
  let after := my_loans (day 20) 1 swept in
  Loan.status <$> loans swept = [Loan.overdue]
  ∧ Fine.amount <$> fines swept = [1 * fine_per_day]
  ∧ after.2 = RENDERED
  ∧ Loan.days_overdue (day 20) <$> loans after.1 = [6]
  ∧ Loan.return_date <$> loans after.1 = [None]
  ∧ Fine.amount <$> fines after.1 = [1 * fine_per_day]
  ∧ 1 * fine_per_day ≠ 6 * fine_per_day.
Proof. vm_compute. repeat split; discriminate. Qed.

(** ** The loan limit *)

(** C4, on the failing input. Borrower 1 has [loan_limit = 3] and three
    active loans. [Book.can_be_borrowed_by] refuses a fourth, but
    [borrow_book] compares the count with 5 and lends the book. *)
Theorem borrow_ignores_loan_limit :
  userprofiles three_loans !! 1%nat = Some (UserProfile.mk 3)
  ∧ qcount (qfilter (active_loan_of_user 1) (loans three_loans)) = 3
  ∧ Book_can_be_borrowed_by three_loans 3 (a_book 1 1) 1
    = inr (false, "You have reached your loan limit"%string)
  ∧ (borrow_book (day 1) 1 3 three_loans).2 = BORROWED 3
  ∧ qcount (qfilter (active_loan_of_user 1)
                    (loans (borrow_book (day 1) 1 3 three_loans).1)) = 4.
Proof. vm_compute. repeat split. Qed.

(** ** Counting rows *)

Lemma count_where_cons {A} (P : A → bool) x table :
  count_where P (x :: table) = indicator (P x) + count_where P table.
Proof. unfold count_where. simpl. destruct (P x); simpl; lia. Qed.

Lemma count_where_nil {A} (P : A → bool) : count_where P [] = 0.
Proof. reflexivity. Qed.

Lemma count_where_app {A} (P : A → bool) table x :
  count_where P (table ++ [x]) = count_where P table + indicator (P x).
Proof.
  induction table as [|y table IH]; simpl.
  - rewrite !count_where_cons, count_where_nil. lia.
  - rewrite !count_where_cons, IH. lia.
Qed.

Lemma count_where_insert {A} (P : A → bool) table pk x y :
  table !! pk = Some x →
  count_where P (<[pk := y]> table)
  = count_where P table - indicator (P x) + indicator (P y).
Proof.
  revert pk. induction table as [|z table IH]; intros [|pk] Hpk; simpl in *;
    try discriminate.
  - injection Hpk as ->. rewrite !count_where_cons. lia.
  - rewrite !count_where_cons, (IH pk Hpk). lia.
Qed.

Lemma count_where_Forall2 {A B} (P : A → bool) (Q : B → bool) table table' :
  Forall2 (λ x y, P x = Q y) table table' →
  count_where P table = count_where Q table'.
Proof.
  induction 1 as [|x y table table' Hxy _ IH]; [done |].
  by rewrite !count_where_cons, Hxy, IH.
Qed.


(** ** What each view does to the books and the loans *)

Ltac db_simpl :=
  unfold set_books, set_loans, set_reservations, set_fines, save, create in *;
  simpl in *.

Lemma borrow_book_effect now user book_id db :
  let after := (borrow_book now user book_id db).1 in
  (books after = books db ∧ loans after = loans db)
  ∨ ∃ book loan,
      books db !! book_id = Some book
      ∧ Loan.book loan = book_id ∧ Loan.status loan = Loan.active
      ∧ books after
        = <[book_id := Book.set_available_copies (Book.available_copies book - 1) book]>
            (books db)
      ∧ loans after = loans db ++ [loan].
Proof.
  unfold borrow_book. destruct (books db !! book_id) as [book |] eqn:Hbook; [| by left].
  case_bool_decide; [by left |].
  destruct (qexists (qfilter (loan_of _ _) _)); [by left |].
  destruct (qexists (qfilter (pending_fine_of _) _)); [by left |].
  case_bool_decide; [by left |].
  right.
  exists book, {| Loan.book := book_id; Loan.user := user; Loan.loan_date := now;
                  Loan.due_date := now + timedelta 14; Loan.return_date := None;
                  Loan.status := Loan.active; Loan.renewal_count := 0;
                  Loan.fine_amount := 0 |}.
  split; [done |]. db_simpl.
  destruct (qget _) as [[] | [pk r]]; simpl;
    try destruct (next_reservation _ _) as [[pk' r'] |];
    try case_bool_decide; simpl; done.
Qed.

Lemma return_book_effect now user loan_id db :
  let after := (return_book now user loan_id db).1 in
  after = db
  ∨ ∃ loan,
      loans db !! loan_id = Some loan ∧ Loan.status loan = Loan.active
      ∧ loans after
        = <[loan_id := Loan.set_status Loan.returned
                         (Loan.set_return_date (Some now) loan)]> (loans db)
      ∧ match books db !! Loan.book loan with
        | None => books after = books db
        | Some book =>
            books after
            = <[Loan.book loan
                := Book.set_available_copies (Book.available_copies book + 1) book]>
                (books db)
        end.
Proof.
  unfold return_book.
  destruct (get_object_or_404 _ _ _) as [loan |] eqn:Hget; [| by left].
  apply get_object_or_404_Some in Hget as [Hloan Hact].
  apply andb_true_iff in Hact as [_ Hact%bool_decide_eq_true].
  right. exists loan. split; [done |]. split; [done |].
  rewrite is_overdue_returned. db_simpl.
  destruct (books db !! Loan.book loan) as [book |]; [| done]. simpl.
  destruct (next_reservation _ _) as [[pk r] |]; done.
Qed.

Lemma Loan_renew_effect now pk (self : Loan.t) db :
  let after := (Loan_renew now pk self db).1.1 in
  books after = books db
  ∧ (loans after = loans db
     ∨ ∃ loan, Loan.book loan = Loan.book self
               ∧ Loan.status loan = Loan.status self
               ∧ loans after = <[pk := loan]> (loans db)).
Proof.
  unfold Loan_renew. destruct (Loan_can_be_renewed now db self) as [[] message]; simpl.
  - split; [done |]. right. by eexists (Loan.set_renewal_count _ (Loan.set_due_date _ self)).
  - split; [done |]. by left.
Qed.

Lemma reserve_book_effect now user book_id db :
  let after := (reserve_book now user book_id db).1 in
  books after = books db ∧ loans after = loans db.
Proof.
  unfold reserve_book. destruct (books db !! book_id) as [book |]; [| done].
  case_bool_decide; [done |].
  destruct (qexists (qfilter (open_reservation_of _ _) _)); [done |].
  destruct (qexists (qfilter (loan_of _ _) _)); [done |].
  unfold Reservation_create. destruct (qexists _); done.
Qed.

Lemma cancel_reservation_effect user reservation_id db :
  let after := (cancel_reservation user reservation_id db).1 in
  books after = books db ∧ loans after = loans db.
Proof.
  unfold cancel_reservation. by destruct (get_object_or_404 _ _ _).
Qed.

Lemma for_each_cons {R} (body : R → DB → DB * option Exception) r rows db :
  for_each body (r :: rows) db
  = match body r db with
    | (db', None) => for_each body rows db'
    | raised => raised
    end.
Proof. reflexivity. Qed.

(** What the body of a loop preserves, the loop preserves. *)
Lemma for_each_preserves {R} (body : R → DB → DB * option Exception)
    (I : DB → DB → Prop) rows db :
  (∀ db', I db' db') →
  (∀ db1 db2 db3, I db1 db2 → I db2 db3 → I db1 db3) →
  (∀ r db', I db' (body r db').1) →
  I db (for_each body rows db).1.
Proof.
  intros Hrefl Htrans Hbody. revert db.
  induction rows as [|r rows IH]; intros db; simpl; [done |].
  pose proof (Hbody r db) as Hstep.
  destruct (body r db) as [db' [e |]]; simpl in *; [done |].
  by apply (Htrans _ db').
Qed.

Lemma finish_fst r : (finish r).1 = r.1.
Proof. by destruct r as [db [e |]]. Qed.

Lemma my_reservations_effect now user db :
  let after := (my_reservations now user db).1 in
  books after = books db ∧ loans after = loans db.
Proof.
  unfold my_reservations. rewrite finish_fst.
  apply (for_each_preserves _ (λ d d', books d' = books d ∧ loans d' = loans d)).
  - done.
  - by intros d1 d2 d3 [-> ->] [-> ->].
  - intros [[pk r] b] d. unfold expire_reservation. by destruct (_ && _).
Qed.

(** ** The overdue sweep, row by row *)

Lemma elem_of_keys {A B} (rows : list (nat * A * B)) pk l b :
  (pk, l, b) ∈ rows → pk ∈ rows.*1.*1.
Proof.
  intros H. apply (list_elem_of_fmap_2 fst) in H.
  by apply (list_elem_of_fmap_2 fst) in H.
Qed.

Lemma Fine_get_or_create_effect u l defaults db db' pk fine created :
  Fine_get_or_create u l defaults db = inr (db', pk, fine, created) →
  books db' = books db ∧ loans db' = loans db
  ∧ reservations db' = reservations db ∧ userprofiles db' = userprofiles db
  ∧ if created
    then qfilter (fine_for u l) (fines db) = []
         ∧ fines db' = fines db ++ [defaults] ∧ fine = defaults
    else db' = db ∧ qfilter (fine_for u l) (fines db) = [(pk, fine)].
Proof.
  unfold Fine_get_or_create.
  destruct (qfilter (fine_for u l) (fines db)) as [|[pk0 f0] [|? ?]] eqn:Hq;
    simpl; intros [= <- <- <- <-]; done.
Qed.

Lemma sweep_row_keys now (l : Loan.t) :
  Loan.book (sweep_row now l) = Loan.book l
  ∧ Loan.user (sweep_row now l) = Loan.user l
  ∧ Loan.loan_date (sweep_row now l) = Loan.loan_date l.
Proof.
  unfold sweep_row, Loan.calculate_fine.
  destruct (bool_decide (Loan.status l = Loan.active) && Loan.is_overdue now l); [| done].
  destruct (Loan.is_overdue now l && _); [| done]. simpl.
  by destruct (negb _).
Qed.

(** A swept row is no longer both active and overdue. *)
Lemma sweep_row_quiet now (l : Loan.t) :
  bool_decide (Loan.status (sweep_row now l) = Loan.active)
  && Loan.is_overdue now (sweep_row now l) = false.
Proof.
  unfold sweep_row.
  destruct (bool_decide (Loan.status l = Loan.active) && Loan.is_overdue now l) eqn:Hq;
    [| done].
  apply andb_true_iff in Hq as [Hact%bool_decide_eq_true Hover].
  unfold Loan.calculate_fine. rewrite Hover, Hact. simpl. rewrite Hact. done.
Qed.

(** A loan that the sweep catches comes out [overdue]. *)
Lemma sweep_row_overdue now (l : Loan.t) :
  Loan.status l = Loan.active → Loan.is_overdue now l = true →
  Loan.status (sweep_row now l) = Loan.overdue.
Proof.
  intros Hact Hover. unfold sweep_row, Loan.calculate_fine.
  rewrite Hover, Hact. simpl. rewrite Hact. done.
Qed.

Lemma sweep_loan_effect now user pk l b db :
  loans db !! pk = Some l →
  let r := sweep_loan now user (pk, l, b) db in
  match r.2 with
  | None =>
      books r.1 = books db ∧ reservations r.1 = reservations db
      ∧ userprofiles r.1 = userprofiles db
      ∧ loans r.1 = <[pk := sweep_row now l]> (loans db)
  | Some e => r.1 = db
  end.
Proof.
  intros Hpk. unfold sweep_loan, sweep_row.
  destruct (bool_decide (Loan.status l = Loan.active) && Loan.is_overdue now l); simpl.
  - destruct (Loan.calculate_fine now l) as [l' amount]. simpl.
    case_bool_decide; simpl; [| done].
    destruct (Fine_get_or_create _ _ _ _) as [e | [[[db' fpk] fine] created]] eqn:Hgoc;
      simpl; [done |].
    apply Fine_get_or_create_effect in Hgoc as (Hb & Hl & Hr & Hu & Hf).
    destruct created; simpl; rewrite ?Hb, ?Hl, ?Hr, ?Hu; done.
  - by rewrite list_insert_id.
Qed.

(** The loop of [my_loans] over rows that are in the store as the loop
    holds them, each once: outside the rows nothing changes; the rows
    the loop went through are swept; if [get_or_create] raised at a row,
    that row and the store are as the attempt found them. *)
Lemma sweep_loop_spec now user rows db :
  NoDup rows.*1.*1 →
  (∀ pk l b, (pk, l, b) ∈ rows → loans db !! pk = Some l) →
  let r := for_each (sweep_loan now user) rows db in
  books r.1 = books db ∧ reservations r.1 = reservations db
  ∧ userprofiles r.1 = userprofiles db
  ∧ length (loans r.1) = length (loans db)
  ∧ (∀ pk l, loans db !! pk = Some l →
       loans r.1 !! pk = Some l ∨ loans r.1 !! pk = Some (sweep_row now l))
  ∧ (∀ pk, pk ∉ rows.*1.*1 → loans r.1 !! pk = loans db !! pk)
  ∧ match r.2 with
    | None =>
        ∀ pk l b, (pk, l, b) ∈ rows → loans r.1 !! pk = Some (sweep_row now l)
    | Some e =>
        ∃ swept_rows row rest,
          rows = swept_rows ++ row :: rest
          ∧ (∀ pk l b, (pk, l, b) ∈ swept_rows →
               loans r.1 !! pk = Some (sweep_row now l))
          ∧ loans r.1 !! row.1.1 = Some row.1.2
          ∧ sweep_loan now user row r.1 = (r.1, Some e)
    end.
Proof.
  intros Hnd. revert db.
  induction rows as [|[[pk l] b] rows IH]; intros db Hrows.
  - simpl. split_and!; try done; [by left |]. intros ??? H. by apply elem_of_nil in H.
  - rewrite !fmap_cons in Hnd |- *. apply NoDup_cons in Hnd as [Hpk Hnd].
    assert (loans db !! pk = Some l) as Hl by (apply (Hrows pk l b); left).
    pose proof (sweep_loan_effect now user pk l b db Hl) as Heff.
    cbv zeta in Heff |- *. rewrite for_each_cons.
    destruct (sweep_loan now user (pk, l, b) db) as [db1 [e |]] eqn:Hstep;
      cbn [fst snd] in Heff |- *.
    + subst db1. split_and!; try done; [by left |].
      exists [], (pk, l, b), rows. split_and!; try done.
      intros ??? H. by apply elem_of_nil in H.
    + destruct Heff as (Hb & Hr & Hu & Hloans).
      assert (pk < length (loans db))%nat as Hlt by (by eapply lookup_lt_Some).
      destruct (IH Hnd db1) as (Hb' & Hr' & Hu' & Hlen' & Hrel' & Hout' & Hmatch).
      { intros pk' l' b' Hin. rewrite Hloans, list_lookup_insert_ne.
        - apply (Hrows pk' l' b'). by right.
        - intros <-. apply Hpk. by eapply elem_of_keys. }
      assert (loans (for_each (sweep_loan now user) rows db1).1 !! pk
              = Some (sweep_row now l)) as Hhere.
      { rewrite (Hout' pk Hpk), Hloans. by apply list_lookup_insert_eq. }
      split_and!.
      * congruence.
      * congruence.
      * congruence.
      * by rewrite Hlen', Hloans, length_insert.
      * intros pk' l' Hl'. destruct (decide (pk' = pk)) as [-> | Hne].
        -- right. congruence.
        -- apply Hrel'. by rewrite Hloans, list_lookup_insert_ne.
      * intros pk' Hnin. apply not_elem_of_cons in Hnin as [Hne Hnin].
        rewrite (Hout' pk' Hnin), Hloans. by apply list_lookup_insert_ne.
      * destruct ((for_each (sweep_loan now user) rows db1).2) as [e |].
        -- destruct Hmatch as (swept_rows & row & rest & -> & Hswept & Hrow & Hraise).
           exists ((pk, l, b) :: swept_rows), row, rest. split_and!; try done.
           intros pk' l' b' [[= -> -> ->] | Hin]%elem_of_cons; [done |].
           by eapply Hswept.
        -- intros pk' l' b' [[= -> -> ->] | Hin]%elem_of_cons; [done |].
           by eapply Hmatch.
Qed.

(** ** The rows a listing holds *)

Lemma elem_of_select_related {A} (book_of : A → nat) db q pk (r : A) b :
  (pk, r, b) ∈ select_related book_of db q
  ↔ (pk, r) ∈ q ∧ books db !! book_of r = Some b.
Proof.
  unfold select_related. rewrite list_elem_of_omap. split.
  - intros ([pk' r'] & Hin & Hb). simpl in Hb.
    destruct (books db !! book_of r') as [b' |] eqn:Hbook; [| done].
    by injection Hb as -> -> ->.
  - intros [Hin Hb]. exists (pk, r). split; [done |]. simpl. by rewrite Hb.
Qed.

Lemma NoDup_keys_select_related {A} (book_of : A → nat) db (q : list (nat * A)) :
  NoDup q.*1 → NoDup (select_related book_of db q).*1.*1.
Proof.
  unfold select_related. induction q as [|[pk r] q IH]; csimpl; [done |].
  rewrite NoDup_cons. intros [Hpk Hq].
  destruct (books db !! book_of r) as [b |]; csimpl; [| by apply IH].
  rewrite NoDup_cons. split; [| by apply IH].
  intros Hin. apply Hpk.
  apply list_elem_of_fmap in Hin as ([pk' r'] & Heq & Hin). simpl in Heq. subst pk'.
  apply list_elem_of_fmap in Hin as ([[pk'' r''] b''] & Heq & Hin).
  simpl in Heq. injection Heq as <- <-.
  apply (elem_of_select_related book_of db q) in Hin as [Hin _].
  by apply (list_elem_of_fmap_2 fst) in Hin.
Qed.

Lemma elem_of_loans_of_user user db pk l b :
  (pk, l, b) ∈ loans_of_user user db
  ↔ loans db !! pk = Some l ∧ Loan.user l = user ∧ books db !! Loan.book l = Some b.
Proof.
  unfold loans_of_user.
  rewrite elem_of_order_by, elem_of_select_related, elem_of_qfilter, bool_decide_eq_true.
  tauto.
Qed.

Lemma NoDup_keys_Permutation {A B} (q q' : list (nat * A * B)) :
  q ≡ₚ q' → NoDup q'.*1.*1 → NoDup q.*1.*1.
Proof. by intros ->. Qed.

Lemma NoDup_loans_of_user user db : NoDup (loans_of_user user db).*1.*1.
Proof.
  unfold loans_of_user. eapply NoDup_keys_Permutation; [apply order_by_Permutation |].
  apply NoDup_keys_select_related, NoDup_keys_qfilter.
Qed.

(** The sweep of [my_loans], as [sweep_loop_spec] describes it. *)
Lemma my_loans_spec now user db :
  let r := for_each (sweep_loan now user) (loans_of_user user db) db in
  my_loans now user db = finish r
  ∧ books r.1 = books db ∧ reservations r.1 = reservations db
  ∧ userprofiles r.1 = userprofiles db
  ∧ length (loans r.1) = length (loans db)
  ∧ (∀ pk l, loans db !! pk = Some l →
       loans r.1 !! pk = Some l ∨ loans r.1 !! pk = Some (sweep_row now l))
  ∧ match r.2 with
    | None =>
        ∀ pk l b, (pk, l, b) ∈ loans_of_user user db →
          loans r.1 !! pk = Some (sweep_row now l)
    | Some e =>
        ∃ swept_rows row rest,
          loans_of_user user db = swept_rows ++ row :: rest
          ∧ (∀ pk l b, (pk, l, b) ∈ swept_rows →
               loans r.1 !! pk = Some (sweep_row now l))
          ∧ loans r.1 !! row.1.1 = Some row.1.2
          ∧ sweep_loan now user row r.1 = (r.1, Some e)
    end.
Proof.
  pose proof (sweep_loop_spec now user (loans_of_user user db) db
                (NoDup_loans_of_user user db)) as H.
  cbv zeta in H |- *.
  destruct H as (? & ? & ? & ? & ? & _ & ?).
  { intros pk l b Hin. by apply elem_of_loans_of_user in Hin as [? _]. }
  done.
Qed.

(** ** The inventory invariant *)

Lemma counts_eq st b (l l' : Loan.t) :
  Loan.book l' = Loan.book l → st (Loan.status l') = st (Loan.status l) →
  counts st b l' = counts st b l.
Proof. unfold counts. by intros -> ->. Qed.

Lemma inventory_consistent_same st db db' :
  books db' = books db → loans db' = loans db →
  inventory_consistent st db → inventory_consistent st db'.
Proof. unfold inventory_consistent. by intros -> ->. Qed.

Section inventory.
Variable st : Loan.Status → bool.
Hypothesis st_active : st Loan.active = true.
Hypothesis st_returned : st Loan.returned = false.

Lemma borrow_book_inventory now user book_id db :
  inventory_consistent st db →
  inventory_consistent st (borrow_book now user book_id db).1.
Proof.
  intros Hinv.
  destruct (borrow_book_effect now user book_id db)
    as [[Hb Hl] | (book & loan & Hbook & Hlb & Hls & Hb & Hl)].
  { by apply (inventory_consistent_same st db). }
  intros b book'. rewrite Hb, Hl, count_where_app.
  assert (book_id < length (books db))%nat as Hlt by (by eapply lookup_lt_Some).
  destruct (decide (b = book_id)) as [-> | Hne].
  - rewrite list_lookup_insert_eq by done. intros [= <-]. simpl.
    specialize (Hinv book_id book Hbook). unfold counts at 2.
    rewrite Hlb, Hls, st_active, bool_decide_eq_true_2 by done. simpl. lia.
  - rewrite list_lookup_insert_ne by done. intros Hbook'.
    specialize (Hinv b book' Hbook'). unfold counts at 2.
    rewrite Hlb, bool_decide_eq_false_2 by done. simpl. lia.
Qed.

Lemma return_book_inventory now user loan_id db :
  inventory_consistent st db →
  inventory_consistent st (return_book now user loan_id db).1.
Proof.
  intros Hinv.
  destruct (return_book_effect now user loan_id db)
    as [-> | (loan & Hloan & Hact & Hl & Hb)]; [done |].
  intros b book'. rewrite Hl, (count_where_insert _ _ _ loan) by done.
  unfold counts at 2 3. simpl. rewrite Hact, st_active, st_returned, andb_false_r.
  destruct (books db !! Loan.book loan) as [book |] eqn:Hbook; rewrite Hb.
  - assert (Loan.book loan < length (books db))%nat as Hlt by (by eapply lookup_lt_Some).
    destruct (decide (b = Loan.book loan)) as [-> | Hne].
    + rewrite list_lookup_insert_eq by done. intros [= <-]. simpl.
      specialize (Hinv _ book Hbook).
      rewrite bool_decide_eq_true_2 by done. simpl. lia.
    + rewrite list_lookup_insert_ne by done. intros Hbook'.
      specialize (Hinv b book' Hbook').
      rewrite bool_decide_eq_false_2 by done. simpl. lia.
  - intros Hbook'. specialize (Hinv b book' Hbook').
    rewrite bool_decide_eq_false_2 by congruence. simpl. lia.
Qed.

Lemma renew_inventory now loan_id db :
  inventory_consistent st db →
  inventory_consistent st (handle now (Renew loan_id) db).1.
Proof.
  intros Hinv. simpl. destruct (loans db !! loan_id) as [self |] eqn:Hself; [| done].
  pose proof (Loan_renew_effect now loan_id self db) as Heff.
  destruct (Loan_renew now loan_id self db) as [[after self'] answer].
  simpl in *. destruct Heff as [Hb [Hl | (loan & Hlb & Hls & Hl)]].
  { by apply (inventory_consistent_same st db). }
  intros b book'. rewrite Hb, Hl, (count_where_insert _ _ _ self) by done.
  intros Hbook'. specialize (Hinv b book' Hbook').
  rewrite (counts_eq st b self loan) by congruence. lia.
Qed.
End inventory.

Lemma sweep_row_status now (l : Loan.t) :
  Loan.status (sweep_row now l) = Loan.status l
  ∨ Loan.status l = Loan.active ∧ Loan.status (sweep_row now l) = Loan.overdue.
Proof.
  destruct (bool_decide (Loan.status l = Loan.active) && Loan.is_overdue now l) eqn:Hq.
  - apply andb_true_iff in Hq as [Hact%bool_decide_eq_true Hover].
    right. split; [done |]. by apply sweep_row_overdue.
  - left. unfold sweep_row. by rewrite Hq.
Qed.

Lemma my_loans_inventory st now user db :
  st Loan.overdue = st Loan.active →
  inventory_consistent st db →
  inventory_consistent st (my_loans now user db).1.
Proof.
  intros Hst Hinv.
  destruct (my_loans_spec now user db) as (-> & Hb & _ & _ & Hlen & Hrel & _).
  rewrite finish_fst. intros b book'. rewrite Hb. intros Hbook'.
  rewrite (Hinv b book' Hbook'). f_equal.
  apply count_where_Forall2, Forall2_same_length_lookup_2; [by rewrite Hlen |].
  intros pk l l' Hl Hl'. destruct (Hrel pk l Hl) as [H | H]; rewrite H in Hl'.
  - congruence.
  - injection Hl' as <-. symmetry. apply counts_eq; [apply sweep_row_keys |].
    destruct (sweep_row_status now l) as [-> | [-> ->]]; done.
Qed.

(** C1, as stated, fails: the overdue sweep of day 15 turns the one loan
    of [lent] from [active] to [overdue] and leaves [available_copies] at
    0, so the book has no active loan, one copy in all, and none
    available. *)
Lemma overdue_sweep_breaks_active_count :
  inventory_consistent is_active lent
  ∧ ¬ inventory_consistent is_active (handle (day 15) (OverdueSweep 1) lent).1.
Proof.
  split.
  - intros [|b] book H; vm_compute in H; [| discriminate].
    injection H as <-. reflexivity.
  - intros H. specialize (H 0%nat (a_book 1 0) eq_refl). vm_compute in H.
    discriminate.
Qed.

(** C1, amended. Every operation of the engine (borrow, return, renew,
    reserve, cancel, overdue sweep, expire sweep) keeps, for every book,
    [available_copies] equal to [total_copies] minus the number of loans
    of the book whose status is [active] or [overdue]; and every
    operation but the overdue sweep keeps it equal to [total_copies]
    minus the number of [active] loans of the book. *)
Theorem inventory_preserved now req db :
  (inventory_consistent holds_copy db →
   inventory_consistent holds_copy (handle now req db).1)
  ∧ ((∀ user, req ≠ OverdueSweep user) →
     inventory_consistent is_active db →
     inventory_consistent is_active (handle now req db).1).
Proof.
  split.
  - intros Hinv. destruct req as [u b | u l | l | u b | u r | u | u].
    + by apply borrow_book_inventory.
    + by apply return_book_inventory.
    + by apply renew_inventory.
    + by destruct (reserve_book_effect now u b db) as [??];
        apply (inventory_consistent_same _ db).
    + by destruct (cancel_reservation_effect u r db) as [??];
        apply (inventory_consistent_same _ db).
    + by apply my_loans_inventory.
    + by destruct (my_reservations_effect now u db) as [??];
        apply (inventory_consistent_same _ db).
  - intros Hreq Hinv. destruct req as [u b | u l | l | u b | u r | u | u].
    + by apply borrow_book_inventory.
    + by apply return_book_inventory.
    + by apply renew_inventory.
    + by destruct (reserve_book_effect now u b db) as [??];
        apply (inventory_consistent_same _ db).
    + by destruct (cancel_reservation_effect u r db) as [??];
        apply (inventory_consistent_same _ db).
    + by destruct (Hreq u).
    + by destruct (my_reservations_effect now u db) as [??];
        apply (inventory_consistent_same _ db).
Qed.

Lemma inventory_consistent_lent st :
  st Loan.active = true → inventory_consistent st lent.
Proof.
  intros Hst [|b] book H; vm_compute in H; [| discriminate].
  injection H as <-. unfold lent. simpl. unfold count_where, counts. simpl.
  rewrite Hst. reflexivity.
Qed.

Lemma inventory_preserved_witness :
  inventory_consistent holds_copy (handle (day 15) (OverdueSweep 1) lent).1
  ∧ inventory_consistent is_active (handle (day 20) (Return 1 0) lent).1.
Proof.
  split.
  - apply (inventory_preserved (day 15) (OverdueSweep 1) lent).
    by apply inventory_consistent_lent.
  - apply (inventory_preserved (day 20) (Return 1 0) lent).
    + intros user. discriminate.
    + by apply inventory_consistent_lent.
Defined.

(** ** A loan the sweep has flipped cannot be returned *)

Lemma return_book_not_active now user loan_id db l :
  loans db !! loan_id = Some l → Loan.status l ≠ Loan.active →
  return_book now user loan_id db = (db, NOT_FOUND).
Proof.
  intros Hl Hst. unfold return_book, get_object_or_404, active_loan_of_user.
  rewrite Hl. rewrite (bool_decide_eq_false_2 (Loan.status l = Loan.active)) by done.
  by rewrite andb_false_r.
Qed.

Lemma my_loans_rendered now user db :
  (my_loans now user db).2 = RENDERED →
  (for_each (sweep_loan now user) (loans_of_user user db) db).2 = None.
Proof.
  unfold my_loans, finish. by destruct (for_each _ _ _) as [after [e |]].
Qed.

(** C9. An active loan of the borrower that is past due when [my_loans]
    runs comes out of the sweep with status [overdue]; from then on
    [return_book] answers NOT_FOUND for it, whoever asks and whenever,
    and leaves the store, and so [available_copies], as it was. *)
Theorem overdue_loan_cannot_be_returned now user db pk l b :
  loans db !! pk = Some l → Loan.user l = user →
  books db !! Loan.book l = Some b →
  Loan.status l = Loan.active → Loan.is_overdue now l = true →
  (my_loans now user db).2 = RENDERED →
  let after := (my_loans now user db).1 in
  (∃ l', loans after !! pk = Some l' ∧ Loan.status l' = Loan.overdue)
  ∧ ∀ now' user', return_book now' user' pk after = (after, NOT_FOUND).
Proof.
  intros Hl Hu Hb Hact Hover Hout.
  apply my_loans_rendered in Hout.
  destruct (my_loans_spec now user db) as (-> & _ & _ & _ & _ & _ & Hrows).
  cbv zeta. rewrite finish_fst. rewrite Hout in Hrows.
  assert (loans (for_each (sweep_loan now user) (loans_of_user user db) db).1 !! pk
          = Some (sweep_row now l)) as Hpk.
  { apply (Hrows pk l b). by apply elem_of_loans_of_user. }
  pose proof (sweep_row_overdue now l Hact Hover) as Hst.
  split; [eauto |]. intros now' user'.
  apply (return_book_not_active _ _ _ _ _ Hpk). by rewrite Hst.
Qed.

Lemma overdue_loan_cannot_be_returned_witness :
  (∃ l', loans swept !! 0%nat = Some l' ∧ Loan.status l' = Loan.overdue)
  ∧ ∀ now' user', return_book now' user' 0 swept = (swept, NOT_FOUND).
Proof.
  apply (overdue_loan_cannot_be_returned (day 15) 1 lent 0
           {| Loan.book := 0; Loan.user := 1; Loan.loan_date := day 0;
              Loan.due_date := day 14; Loan.return_date := None;
              Loan.status := Loan.active; Loan.renewal_count := 0;
              Loan.fine_amount := 0 |} (a_book 1 0)); reflexivity.
Defined.

(** ** Listings of two stores whose rows agree on what the query reads *)

Lemma Forall2_rows_from {A} (K : A → A → Prop) n table table' :
  Forall2 K table table' →
  Forall2 (λ x y, x.1 = y.1 ∧ K x.2 y.2) (rows_from n table) (rows_from n table').
Proof.
  intros H. revert n. induction H as [|x y table table' Hxy _ IH]; intros n; simpl.
  - constructor.
  - constructor; [done | apply IH].
Qed.

Lemma Forall2_filter {A B} (S : A → B → Prop) (f : A → bool) (g : B → bool) q q' :
  (∀ x y, S x y → f x = g y) →
  Forall2 S q q' → Forall2 S (List.filter f q) (List.filter g q').
Proof.
  intros Hfg. induction 1 as [|x y q q' Hxy _ IH]; simpl; [constructor |].
  rewrite <- (Hfg x y Hxy). destruct (f x); [by constructor | done].
Qed.

Lemma Forall2_select_related {A} (S : nat * A → nat * A → Prop)
    (book_of : A → nat) db db' q q' :
  books db' = books db →
  (∀ x y, S x y → book_of y.2 = book_of x.2) →
  Forall2 S q q' →
  Forall2 (λ x y, S x.1 y.1 ∧ x.2 = y.2)
    (select_related book_of db q) (select_related book_of db' q').
Proof.
  intros Hb Hbook. unfold select_related. rewrite Hb.
  induction 1 as [|x y q q' Hxy _ IH]; csimpl; [constructor |].
  rewrite (Hbook x y Hxy).
  destruct (books db !! book_of x.2) as [b |]; [| done].
  constructor; [by split | done].
Qed.

Lemma Forall2_insert_by {B C} (S : B → C → Prop) (key : B → Z) (key' : C → Z)
    x y q q' :
  (∀ x y, S x y → key x = key' y) →
  S x y → Forall2 S q q' →
  Forall2 S (insert_by key x q) (insert_by key' y q').
Proof.
  intros Hkey Hxy. induction 1 as [|x0 y0 q q' Hxy0 Hq IH]; simpl.
  - by repeat constructor.
  - rewrite <- (Hkey x y Hxy), <- (Hkey x0 y0 Hxy0).
    case_bool_decide; by repeat constructor.
Qed.

Lemma Forall2_order_by {B C} (S : B → C → Prop) (key : B → Z) (key' : C → Z) q q' :
  (∀ x y, S x y → key x = key' y) →
  Forall2 S q q' → Forall2 S (order_by key q) (order_by key' q').
Proof.
  intros Hkey. induction 1 as [|x y q q' Hxy _ IH]; simpl; [constructor |].
  by apply Forall2_insert_by.
Qed.

(** The listing of a borrower holds the same keys and the same books, in
    the same order, in two stores with the same books whose loans agree
    on borrower, book and loan date. *)
Lemma loans_of_user_Forall2 user db db' :
  books db' = books db →
  Forall2 same_loan_keys (loans db) (loans db') →
  Forall2 (λ x y, x.1.1 = y.1.1 ∧ x.2 = y.2)
    (loans_of_user user db) (loans_of_user user db').
Proof.
  intros Hb Hl. unfold loans_of_user, qfilter, objects.
  eapply Forall2_impl.
  - apply (Forall2_order_by
             (λ x y : nat * Loan.t * Book.t,
                (x.1.1 = y.1.1 ∧ same_loan_keys x.1.2 y.1.2) ∧ x.2 = y.2)).
    + intros [[pk l] b] [[pk' l'] b'] [[_ (_ & _ & Hd)] _]. simpl in *. by rewrite Hd.
    + apply (Forall2_select_related
               (λ x y : nat * Loan.t, x.1 = y.1 ∧ same_loan_keys x.2 y.2));
        [done | |].
      * by intros [pk l] [pk' l'] [_ (_ & Hbk & _)].
      * apply Forall2_filter.
        -- intros [pk l] [pk' l'] [_ (Hu & _ & _)]. simpl in *. by rewrite Hu.
        -- by apply Forall2_rows_from.
  - intros [[pk l] b] [[pk' l'] b'] [[Hpk _] Hbb]. done.
Qed.

(** ** Rows that the sweep passes over *)

Lemma sweep_loan_quiet now user pk (l : Loan.t) b db :
  bool_decide (Loan.status l = Loan.active) && Loan.is_overdue now l = false →
  sweep_loan now user (pk, l, b) db = (db, None).
Proof. intros H. unfold sweep_loan. by rewrite H. Qed.

Lemma for_each_quiet {R} (body : R → DB → DB * option Exception) rows db :
  (∀ r, r ∈ rows → body r db = (db, None)) →
  for_each body rows db = (db, None).
Proof.
  induction rows as [|r rows IH]; intros Hq; simpl; [done |].
  rewrite (Hq r) by left. apply IH. intros r' Hr'. apply Hq. by right.
Qed.

Lemma for_each_quiet_raise {R} (body : R → DB → DB * option Exception)
    quiet r rest db e :
  (∀ r', r' ∈ quiet → body r' db = (db, None)) →
  body r db = (db, Some e) →
  for_each body (quiet ++ r :: rest) db = (db, Some e).
Proof.
  induction quiet as [|r' quiet IH]; intros Hq Hr; simpl.
  - by rewrite Hr.
  - rewrite (Hq r') by left. apply IH; [| done]. intros r'' Hr''. apply Hq. by right.
Qed.

Lemma swept_rows_quiet now user after (rows1 rows2 : list (nat * Loan.t * Book.t)) :
  Forall2 (λ x y, x.1.1 = y.1.1 ∧ x.2 = y.2) rows1 rows2 →
  (∀ pk l b, (pk, l, b) ∈ rows1 → loans after !! pk = Some (sweep_row now l)) →
  (∀ pk l b, (pk, l, b) ∈ rows2 → loans after !! pk = Some l) →
  ∀ r, r ∈ rows2 → sweep_loan now user r after = (after, None).
Proof.
  intros HF H1 H2 [[pk l2] b] Hin.
  pose proof (H2 pk l2 b Hin) as Hl2.
  apply list_elem_of_lookup_1 in Hin as [i Hi].
  destruct (Forall2_lookup_r _ _ _ _ _ HF Hi) as ([[pk1 l1] b1] & Hi1 & Hpk & Hb).
  simpl in *. subst pk1 b1. apply list_elem_of_lookup_2 in Hi1.
  rewrite (H1 pk l1 b Hi1) in Hl2. injection Hl2 as <-.
  apply sweep_loan_quiet, sweep_row_quiet.
Qed.

Lemma my_loans_same_loan_keys now user db :
  Forall2 same_loan_keys (loans db)
    (loans (for_each (sweep_loan now user) (loans_of_user user db) db).1).
Proof.
  destruct (my_loans_spec now user db) as (_ & _ & _ & _ & Hlen & Hrel & _).
  apply Forall2_same_length_lookup_2; [by rewrite Hlen |].
  intros pk l l' Hl Hl'. destruct (Hrel pk l Hl) as [H | H]; rewrite H in Hl'.
  - injection Hl' as <-. by repeat split.
  - injection Hl' as <-. destruct (sweep_row_keys now l) as (? & ? & ?). by repeat split.
Qed.

(** The sweep run again on the store it left, at the same time, finds
    nothing to do, or fails where it failed. *)
Lemma my_loans_twice now user db :
  my_loans now user (my_loans now user db).1 = my_loans now user db.
Proof.
  pose proof (my_loans_same_loan_keys now user db) as Hkeys.
  destruct (my_loans_spec now user db) as (Heq & Hb & _ & _ & _ & _ & Hmatch).
  rewrite Heq, finish_fst.
  set (r := for_each (sweep_loan now user) (loans_of_user user db) db) in *.
  pose proof (loans_of_user_Forall2 user db r.1 Hb Hkeys) as HF.
  assert (∀ pk l b, (pk, l, b) ∈ loans_of_user user r.1 → loans r.1 !! pk = Some l)
    as Hrows2.
  { intros pk l b Hin. by apply elem_of_loans_of_user in Hin as [? _]. }
  unfold my_loans. f_equal. destruct r as [after [e |]] eqn:Hr; simpl in *.
  - destruct Hmatch as (swept_rows & [[pk l] b] & rest & Hrows1 & Hswept & Hrow & Hraise).
    rewrite Hrows1 in HF.
    apply Forall2_app_inv_l in HF as (swept2 & k2 & HF1 & HF2 & Hrows2eq).
    apply Forall2_cons_inv_l in HF2 as ([[pk2 l2] b2] & rest2 & [Hpk Hbb] & _ & ->).
    simpl in *. subst pk2 b2.
    assert (l2 = l) as ->.
    { specialize (Hrows2 pk l2 b). rewrite Hrows2eq in Hrows2.
      rewrite Hrows2 in Hrow; [congruence |].
      apply elem_of_app. right. by left. }
    rewrite Hrows2eq. apply for_each_quiet_raise; [| done].
    apply (swept_rows_quiet now user after swept_rows swept2 HF1 Hswept).
    intros pk' l' b' Hin. apply (Hrows2 pk' l' b'). rewrite Hrows2eq.
    apply elem_of_app. by left.
  - apply for_each_quiet.
    by apply (swept_rows_quiet now user after (loans_of_user user db) _ HF Hmatch).
Qed.

(** ** No second fine for a loan *)

Lemma qcount_qfilter {A} (P : A → bool) table :
  qcount (qfilter P table) = count_where P table.
Proof.
  unfold qcount, count_where, qfilter, objects. f_equal. generalize 0%nat.
  induction table as [|x table IH]; intros n; simpl; [done |].
  destruct (P x); simpl; by rewrite IH.
Qed.

Lemma sweep_loan_fines_unique now user row db :
  fines_unique db → fines_unique (sweep_loan now user row db).1.
Proof.
  intros Huniq. destruct row as [[pk l] b]. unfold sweep_loan.
  destruct (bool_decide (Loan.status l = Loan.active) && Loan.is_overdue now l);
    [| done].
  destruct (Loan.calculate_fine now l) as [l' amount].
  case_bool_decide; [| done].
  destruct (Fine_get_or_create _ _ _ _) as [e | [[[db' fpk] fine] created]] eqn:Hgoc;
    [done |].
  apply Fine_get_or_create_effect in Hgoc as (_ & _ & _ & _ & Hf).
  destruct created; simpl.
  - destruct Hf as (Hnone & Hfines & _). intros u' l0. simpl.
    rewrite Hfines, count_where_app.
    destruct (fine_for u' l0 _) eqn:Hfor; simpl; [| specialize (Huniq u' l0); lia].
    apply andb_true_iff in Hfor as [<-%bool_decide_eq_true <-%bool_decide_eq_true].
    simpl. rewrite <- qcount_qfilter, Hnone. done.
  - destruct Hf as (-> & Hone). intros u' l0. simpl.
    assert (fines db !! fpk = Some fine) as Hfine.
    { apply (elem_of_qfilter (fine_for user pk)). rewrite Hone. by left. }
    unfold save. rewrite (count_where_insert _ _ _ fine) by done.
    specialize (Huniq u' l0).
    replace (fine_for u' l0 (Fine.set_amount amount fine)) with (fine_for u' l0 fine)
      by done.
    lia.
Qed.

Lemma my_loans_fines_unique now user db :
  fines_unique db → fines_unique (my_loans now user db).1.
Proof.
  unfold my_loans. rewrite finish_fst.
  apply (for_each_preserves _ (λ d d', fines_unique d → fines_unique d')).
  - done.
  - intros d1 d2 d3 H12 H23 H1. auto.
  - intros r d. apply sweep_loan_fines_unique.
Qed.

(** C6. The overdue sweep run a second time, with the clock where it
    was, leaves the store of the first run as it is and answers the same:
    every fine keeps its amount and no fine row is added. And a sweep
    never gives a (borrower, loan) pair a second fine row: if no pair has
    two before, none has two after one sweep or after two. *)
Theorem overdue_sweep_idempotent now user db :
  let once := my_loans now user db in
  let twice := my_loans now user once.1 in
  twice = once
  ∧ fines twice.1 = fines once.1
  ∧ (fines_unique db → fines_unique once.1 ∧ fines_unique twice.1).
Proof.
  cbv zeta. pose proof (my_loans_twice now user db) as Htwice.
  split; [done |]. split; [by rewrite Htwice |].
  intros Huniq. rewrite Htwice. split; by apply my_loans_fines_unique.
Qed.

Lemma overdue_sweep_idempotent_witness :
  fines_unique (my_loans (day 15) 1 lent).1
  ∧ fines_unique (my_loans (day 15) 1 (my_loans (day 15) 1 lent).1).1.
Proof.
  apply (overdue_sweep_idempotent (day 15) 1 lent).
  intros u l. vm_compute. discriminate.
Defined.

(** ** One reservation row for a book and a borrower *)

Lemma reservation_pairs_save pk (r : Reservation.t) db :
  reservation_pairs db !! pk = Some (pair_of r) →
  reservation_pairs (set_reservations (save pk r (reservations db)) db)
  = reservation_pairs db.
Proof.
  intros H. unfold reservation_pairs, save in *. simpl.
  rewrite list_fmap_insert. by apply list_insert_id.
Qed.

Lemma reservation_pairs_lookup pk (r : Reservation.t) db :
  reservations db !! pk = Some r → reservation_pairs db !! pk = Some (pair_of r).
Proof. intros H. unfold reservation_pairs. by rewrite list_lookup_fmap, H. Qed.

Lemma qget_inr {A} (P : A → bool) table pk r :
  qget (qfilter P table) = inr (pk, r) → table !! pk = Some r.
Proof.
  unfold qget. destruct (qfilter P table) as [|x [|? ?]] eqn:Hq; try done.
  intros [= ->]. apply (elem_of_qfilter P). rewrite Hq. by left.
Qed.

(** Rows read from the store by a query are looked up at their keys. *)
Ltac rows_read :=
  repeat match goal with
    | H : next_reservation _ _ = Some _ |- _ =>
        apply next_reservation_earliest in H as (H & _ & _);
        apply reservation_pairs_lookup in H
    | H : qget _ = inr _ |- _ =>
        apply qget_inr in H; apply reservation_pairs_lookup in H
    | H : get_object_or_404 _ _ _ = Some _ |- _ =>
        apply get_object_or_404_Some in H as (H & _);
        apply reservation_pairs_lookup in H
    end.

Ltac pairs_saved :=
  repeat (rewrite reservation_pairs_save; [| eassumption]); try done.

Lemma borrow_book_pairs now user book_id db :
  reservation_pairs (borrow_book now user book_id db).1 = reservation_pairs db.
Proof.
  unfold borrow_book. destruct (books db !! book_id) as [book |]; [| done].
  case_bool_decide; [done |].
  destruct (qexists (qfilter (loan_of _ _) _)); [done |].
  destruct (qexists (qfilter (pending_fine_of _) _)); [done |].
  case_bool_decide; [done |]. cbn [create].
  destruct (qget _) as [[] | [pk r]] eqn:Hget; cbn [fst];
    try (destruct (next_reservation _ _) as [[pk' r'] |] eqn:Hn;
         [case_bool_decide |]);
    rows_read; pairs_saved.
Qed.

Lemma return_book_pairs now user loan_id db :
  reservation_pairs (return_book now user loan_id db).1 = reservation_pairs db.
Proof.
  unfold return_book. destruct (get_object_or_404 _ _ _) as [loan |]; [| done].
  rewrite is_overdue_returned. cbn [fst snd].
  destruct (books _ !! _) as [book |]; [| done].
  destruct (next_reservation _ _) as [[pk r] |] eqn:Hn; cbn [fst];
    rows_read; pairs_saved.
Qed.

Lemma cancel_reservation_pairs user reservation_id db :
  reservation_pairs (cancel_reservation user reservation_id db).1
  = reservation_pairs db.
Proof.
  unfold cancel_reservation.
  destruct (get_object_or_404 _ _ _) as [r |] eqn:Hget; cbn [fst];
    rows_read; pairs_saved.
Qed.

Lemma expire_loop_pairs now rows db :
  (∀ pk r b, (pk, r, b) ∈ rows → reservation_pairs db !! pk = Some (pair_of r)) →
  reservation_pairs (for_each (expire_reservation now) rows db).1
  = reservation_pairs db.
Proof.
  revert db. induction rows as [|[[pk r] b] rows IH]; intros db Hrows; [done |].
  rewrite for_each_cons. unfold expire_reservation at 1.
  assert (reservation_pairs db !! pk = Some (pair_of r)) as Hpk
    by (apply (Hrows pk r b); left).
  destruct (Reservation.is_expired now r && Reservation.is_open r).
  - rewrite IH; [by apply reservation_pairs_save |].
    intros pk' r' b' Hin. rewrite reservation_pairs_save by done.
    apply (Hrows pk' r' b'). by right.
  - apply IH. intros pk' r' b' Hin. apply (Hrows pk' r' b'). by right.
Qed.

Lemma my_reservations_pairs now user db :
  reservation_pairs (my_reservations now user db).1 = reservation_pairs db.
Proof.
  unfold my_reservations. rewrite finish_fst. apply expire_loop_pairs.
  intros pk r b Hin. apply reservation_pairs_lookup.
  unfold reservations_of_user in Hin.
  apply elem_of_order_by, elem_of_select_related in Hin as [Hin _].
  by apply elem_of_qfilter in Hin as [? _].
Qed.

Lemma reservation_pair_true b u (r : Reservation.t) :
  reservation_pair b u r = true ↔ pair_of r = (b, u).
Proof.
  unfold reservation_pair, pair_of.
  rewrite andb_true_iff, !bool_decide_eq_true. split; [by intros [-> ->] |].
  by intros [= -> ->].
Qed.

(** The constraint refuses the row exactly when the pair has a row. *)
Lemma Reservation_create_spec (r : Reservation.t) db :
  match Reservation_create r db with
  | inl e => e = IntegrityError ∧ pair_of r ∈ reservation_pairs db
  | inr (db', pk) =>
      (pair_of r ∉ reservation_pairs db)
      ∧ db' = set_reservations (reservations db ++ [r]) db
      ∧ pk = length (reservations db)
  end.
Proof.
  unfold Reservation_create.
  destruct (qexists (qfilter _ _)) eqn:Hq.
  - split; [done |]. apply qexists_qfilter in Hq as (pk & r' & Hpk & Hpair).
    apply reservation_pair_true in Hpair. change (pair_of r' = pair_of r) in Hpair.
    rewrite <- Hpair. unfold reservation_pairs.
    apply list_elem_of_fmap_2. by eapply list_elem_of_lookup_2.
  - simpl. split; [| done]. intros Hin.
    apply list_elem_of_fmap in Hin as (r' & Hpair & Hin).
    apply list_elem_of_lookup_1 in Hin as [pk Hpk].
    assert (qexists (qfilter
              (reservation_pair (Reservation.book r) (Reservation.user r))
              (reservations db)) = true) as Hq'; [| congruence].
    apply qexists_qfilter. exists pk, r'. split; [done |].
    apply reservation_pair_true. by rewrite <- Hpair.
Qed.

Lemma reserve_book_unique now user book_id db :
  unique_together db → unique_together (reserve_book now user book_id db).1.
Proof.
  intros Huniq. unfold reserve_book.
  destruct (books db !! book_id) as [book |]; [| done].
  case_bool_decide; [done |].
  destruct (qexists (qfilter (open_reservation_of _ _) _)); [done |].
  destruct (qexists (qfilter (loan_of _ _) _)); [done |].
  match goal with |- context [Reservation_create ?r db] =>
    pose proof (Reservation_create_spec r db) as Hc;
    destruct (Reservation_create r db) as [e | [db' pk]]
  end; [done |].
  destruct Hc as (Hfresh & -> & _). unfold unique_together, reservation_pairs in *.
  simpl. rewrite fmap_app. apply NoDup_app. split; [done |]. split.
  - intros p Hp Hin. apply list_elem_of_singleton in Hin as ->. done.
  - apply NoDup_singleton.
Qed.

Lemma unique_together_preserved now req db :
  unique_together db → unique_together (handle now req db).1.
Proof.
  intros Huniq. unfold unique_together in *.
  destruct req as [u b | u l | l | u b | u r | u | u]; simpl.
  - by rewrite borrow_book_pairs.
  - by rewrite return_book_pairs.
  - destruct (loans db !! l) as [self |]; [| done].
    unfold Loan_renew. by destruct (Loan_can_be_renewed now db self) as [[] ?].
  - by apply reserve_book_unique.
  - by rewrite cancel_reservation_pairs.
  - destruct (my_loans_spec now u db) as (-> & _ & Hr & _).
    rewrite finish_fst. unfold reservation_pairs. by rewrite Hr.
  - by rewrite my_reservations_pairs.
Qed.

Lemma unique_together_run reqs db :
  unique_together db → unique_together (run reqs db).
Proof.
  revert db. induction reqs as [|[now req] reqs IH]; intros db Huniq; simpl; [done |].
  by apply IH, unique_together_preserved.
Qed.

Lemma terminal_not_open (r : Reservation.t) :
  Reservation.status r
  ∈ [Reservation.cancelled; Reservation.expired; Reservation.fulfilled] →
  Reservation.is_open r = false.
Proof.
  unfold Reservation.is_open. intros H.
  repeat (apply elem_of_cons in H as [-> | H]); [done .. |].
  by apply elem_of_nil in H.
Qed.

(** C10. Let a reservation row of the book and the borrower exist with
    status [cancelled], [expired] or [fulfilled], in a store that obeys
    [unique_together]. Then a new [reserve_book] of the pair passes the
    check for a pending or available reservation, and the creation of the
    row raises IntegrityError: the call never yields a reservation and
    leaves the store as it was; it ends in IntegrityError whenever the
    two other checks let it reach the creation (no copy available, no
    active loan of the book by the borrower). And whatever requests the
    engine serves next, the store still has at most one row for each
    pair. *)
Theorem terminal_reservation_blocks_reserve now user book_id db pk r :
  unique_together db →
  reservations db !! pk = Some r →
  Reservation.book r = book_id → Reservation.user r = user →
  Reservation.status r
  ∈ [Reservation.cancelled; Reservation.expired; Reservation.fulfilled] →
  qexists (qfilter (open_reservation_of book_id user) (reservations db)) = false
  ∧ (∀ r', Reservation.book r' = book_id → Reservation.user r' = user →
       Reservation_create r' db = inl IntegrityError)
  ∧ (reserve_book now user book_id db).1 = db
  ∧ (reserve_book now user book_id db).2
    ∈ [NOT_FOUND; BOOK_AVAILABLE; ALREADY_HOLDING; RAISED IntegrityError]
  ∧ (∀ book, books db !! book_id = Some book →
       Book.available_copies book ≤ 0 →
       qexists (qfilter (loan_of book_id user) (loans db)) = false →
       (reserve_book now user book_id db).2 = RAISED IntegrityError)
  ∧ ∀ reqs, unique_together (run reqs db).
Proof.
  intros Huniq Hpk Hb Hu Hterm.
  assert (qexists (qfilter (open_reservation_of book_id user) (reservations db))
          = false) as Hdup.
  { apply not_true_is_false. intros (pk' & r' & Hpk' & Hopen)%qexists_qfilter.
    apply andb_true_iff in Hopen as [Hpair Hopen].
    apply reservation_pair_true in Hpair.
    assert (pk' = pk) as ->.
    { apply (NoDup_lookup _ _ _ (book_id, user) Huniq).
      - apply reservation_pairs_lookup in Hpk'. by rewrite Hpk', Hpair.
      - apply reservation_pairs_lookup in Hpk. rewrite Hpk. unfold pair_of.
        by rewrite Hb, Hu. }
    assert (r' = r) as -> by congruence.
    by rewrite (terminal_not_open r Hterm) in Hopen. }
  assert (∀ r', Reservation.book r' = book_id → Reservation.user r' = user →
            Reservation_create r' db = inl IntegrityError) as Hcreate.
  { intros r' Hb' Hu'. pose proof (Reservation_create_spec r' db) as Hc.
    destruct (Reservation_create r' db) as [e | [db' pk']].
    - by destruct Hc as [-> _].
    - destruct Hc as (Hfresh & _). exfalso. apply Hfresh.
      unfold reservation_pairs. apply list_elem_of_fmap. exists r.
      split; [| by eapply list_elem_of_lookup_2]. unfold pair_of. congruence. }
  split; [done |]. split; [done |].
  assert (∀ P : DB * Outcome → Prop,
            P (db, NOT_FOUND) → P (db, BOOK_AVAILABLE) → P (db, ALREADY_HOLDING) →
            P (db, RAISED IntegrityError) →
            P (reserve_book now user book_id db)) as Hcases.
  { intros P H1 H2 H3 H4. unfold reserve_book.
    destruct (books db !! book_id) as [book |]; [| done].
    case_bool_decide; [done |]. rewrite Hdup.
    destruct (qexists (qfilter (loan_of _ _) _)); [done |].
    by rewrite Hcreate. }
  split; [by apply Hcases |]. split; [apply Hcases; repeat first [by left | right] |]. split.
  - intros book Hbook Hav Hloan. unfold reserve_book.
    rewrite Hbook, bool_decide_eq_false_2, Hdup, Hloan by lia.
    by rewrite Hcreate.
  - intros reqs. by apply unique_together_run.
Qed.

Lemma terminal_reservation_blocks_reserve_witness :
  Reservation.status <$> reservations all_out !! 0%nat = Some Reservation.fulfilled
  ∧ qexists (qfilter (open_reservation_of 0 4) (reservations all_out)) = false
  ∧ reserve_book (day 10) 4 0 all_out = (all_out, RAISED IntegrityError).
Proof.
  destruct (terminal_reservation_blocks_reserve (day 10) 4 0 all_out 0
              {| Reservation.book := 0; Reservation.user := 4;
                 Reservation.reservation_date := day 1;
                 Reservation.expiry_date := day 4 + timedelta 7;
                 Reservation.status := Reservation.fulfilled |})
    as (Hdup & _ & Hsame & _ & Hraise & _).
  - apply (bool_decide_unpack _). vm_compute. exact I.
  - reflexivity.
  - reflexivity.
  - reflexivity.
  - right. right. left.
  - split; [reflexivity |]. split; [exact Hdup |].
    rewrite (surjective_pairing (reserve_book (day 10) 4 0 all_out)).
    rewrite Hsame, (Hraise (a_book 3 0)); [reflexivity | reflexivity | | reflexivity].
    vm_compute. discriminate.
Defined.

(** * More properties of the code *)

(** ** Borrowing *)

(** [borrow_book] either refuses and leaves the store alone, or passes
    its four checks and then lends: the loan goes last in the table and
    the book has one copy less. *)
Lemma borrow_book_cases now user book_id db :
  let r := borrow_book now user book_id db in
  r.1 = db
  ∧ r.2 ∈ [NOT_FOUND; UNAVAILABLE; ALREADY_BORROWED; FINES_OUTSTANDING;
           LOAN_LIMIT_REACHED]
  ∨ ∃ book,
      books db !! book_id = Some book
      ∧ 0 < Book.available_copies book
      ∧ qexists (qfilter (loan_of book_id user) (loans db)) = false
      ∧ qexists (qfilter (pending_fine_of user) (fines db)) = false
      ∧ qcount (qfilter (active_loan_of_user user) (loans db)) < 5
      ∧ books r.1
        = <[book_id := Book.set_available_copies (Book.available_copies book - 1) book]>
            (books db)
      ∧ loans r.1 = loans db ++ [borrowed_loan now user book_id]
      ∧ fines r.1 = fines db
      ∧ (r.2 = BORROWED (length (loans db)) ∨ r.2 = RAISED MultipleObjectsReturned).
Proof.
  cbv zeta. unfold borrow_book.
  destruct (books db !! book_id) as [book |] eqn:Hbook;
    [| left; split; [done | repeat first [by left | right]]].
  case_bool_decide as Hav; [left; split; [done | repeat first [by left | right]] |].
  destruct (qexists (qfilter (loan_of _ _) _)) eqn:Hloan;
    [left; split; [done | repeat first [by left | right]] |].
  destruct (qexists (qfilter (pending_fine_of _) _)) eqn:Hfine;
    [left; split; [done | repeat first [by left | right]] |].
  case_bool_decide as Hcap; [left; split; [done | repeat first [by left | right]] |].
  right. exists book. split; [done |]. split; [lia |]. split; [done |].
  split; [done |]. split; [lia |]. cbn [create].
  destruct (qget _) as [[] | [pk r]]; cbn [fst snd];
    try destruct (next_reservation _ _) as [[pk' r'] |];
    try case_bool_decide; cbn [fst snd]; split_and!; try done;
    first [by left | by right].
Qed.

(** ** The loan ledger only moves forward *)

Lemma loan_step_refl l : loan_step l l.
Proof. unfold loan_step. split_and!; try done; by left. Qed.

Lemma Forall2_diag {A} (R : A → A → Prop) table :
  (∀ x, R x x) → Forall2 R table table.
Proof. intros HR. induction table; constructor; auto. Qed.

Lemma Forall2_insert_one {A} (R : A → A → Prop) table pk x y :
  (∀ z, R z z) → table !! pk = Some x → R x y →
  Forall2 R table (<[pk := y]> table).
Proof.
  intros HR. revert pk. induction table as [|z table IH]; intros [|pk] Hpk Hxy;
    simpl in *; try discriminate.
  - injection Hpk as ->. constructor; [done | by apply Forall2_diag].
  - constructor; [done | by apply IH].
Qed.

Lemma sweep_row_renewal_count now (l : Loan.t) :
  Loan.renewal_count (sweep_row now l) = Loan.renewal_count l.
Proof.
  unfold sweep_row, Loan.calculate_fine.
  destruct (bool_decide (Loan.status l = Loan.active) && Loan.is_overdue now l); [| done].
  destruct (Loan.is_overdue now l && _); [| done]. simpl.
  by destruct (negb _).
Qed.

Lemma loan_step_sweep_row now l : loan_step l (sweep_row now l).
Proof.
  destruct (sweep_row_keys now l) as (Hb & Hu & Hd).
  unfold loan_step. rewrite Hb, Hu, Hd, sweep_row_renewal_count.
  split_and!; try done; [| by left].
  destruct (sweep_row_status now l) as [-> | [Hact ->]]; [by left |].
  right. split; [done | by right].
Qed.

Lemma Loan_can_be_renewed_true now db (self : Loan.t) message :
  Loan_can_be_renewed now db self = (true, message) →
  Loan.renewal_count self < 3 ∧ Loan.is_overdue now self = false
  ∧ qexists (qfilter (pending_reservation_on (Loan.book self)) (reservations db))
    = false.
Proof.
  unfold Loan_can_be_renewed. case_bool_decide; [done |].
  destruct (Loan.is_overdue now self); [done |].
  destruct (qexists _); [done |]. intros _. split_and!; [lia | done | done].
Qed.

Lemma handle_loans_forward now req db :
  ∃ old new,
    loans (handle now req db).1 = old ++ new
    ∧ Forall2 loan_step (loans db) old
    ∧ (new = []
       ∨ ∃ user book_id, req = Borrow user book_id
                         ∧ new = [borrowed_loan now user book_id]).
Proof.
  assert (∀ after, loans after = loans db →
            ∃ old new, loans after = old ++ new ∧ Forall2 loan_step (loans db) old
              ∧ (new = [] ∨ ∃ user book_id, req = Borrow user book_id
                                            ∧ new = [borrowed_loan now user book_id]))
    as Hsame.
  { intros after ->. exists (loans db), []. rewrite app_nil_r.
    split_and!; [done | apply Forall2_diag, loan_step_refl | by left]. }
  assert (∀ after pk l l', loans db !! pk = Some l →
            loans after = <[pk := l']> (loans db) → loan_step l l' →
            ∃ old new, loans after = old ++ new ∧ Forall2 loan_step (loans db) old
              ∧ (new = [] ∨ ∃ user book_id, req = Borrow user book_id
                                            ∧ new = [borrowed_loan now user book_id]))
    as Hone.
  { intros after pk l l' Hl -> Hstep. exists (<[pk := l']> (loans db)), [].
    rewrite app_nil_r. split_and!; [done | | by left].
    by apply (Forall2_insert_one _ _ _ l), Hstep; [apply loan_step_refl |]. }
  destruct req as [u b | u l | l | u b | u r | u | u]; simpl.
  - destruct (borrow_book_cases now u b db)
      as [[-> _] | (book & _ & _ & _ & _ & _ & _ & Hl & _)]; [by apply Hsame |].
    exists (loans db), [borrowed_loan now u b].
    split_and!; [done | apply Forall2_diag, loan_step_refl | right; eauto].
  - destruct (return_book_effect now u l db) as [-> | (loan & Hloan & Hact & Hl & _)];
      [by apply Hsame |].
    apply (Hone _ l loan _ Hloan Hl).
    unfold loan_step. simpl. split_and!; try done; [| by left].
    right. split; [done | by left].
  - destruct (loans db !! l) as [self |] eqn:Hself; [| by apply Hsame].
    unfold Loan_renew.
    destruct (Loan_can_be_renewed now db self) as [[] message] eqn:Hcan;
      [| by apply Hsame].
    apply Loan_can_be_renewed_true in Hcan as (Hlt & _ & _).
    cbn [fst]. eapply (Hone _ l self _ Hself); [reflexivity |].
    unfold loan_step. simpl. split_and!; try done; [by left | by right].
  - by destruct (reserve_book_effect now u b db) as [_ ?]; apply Hsame.
  - by destruct (cancel_reservation_effect u r db) as [_ ?]; apply Hsame.
  - destruct (my_loans_spec now u db) as (-> & _ & _ & _ & Hlen & Hrel & _).
    rewrite finish_fst.
    exists (loans (for_each (sweep_loan now u) (loans_of_user u db) db).1), [].
    rewrite app_nil_r. split_and!; [done | | by left].
    apply Forall2_same_length_lookup_2; [by rewrite Hlen |].
    intros pk l l' Hl Hl'. destruct (Hrel pk l Hl) as [H | H]; rewrite H in Hl';
      injection Hl' as <-; [apply loan_step_refl | apply loan_step_sweep_row].
  - by destruct (my_reservations_effect now u db) as [_ ?]; apply Hsame.
Qed.

(** X1. Whatever the request, no loan row is deleted, and none changes
    its book, its borrower or its loan date; the status of a row stays or
    goes from [active] to [returned] or [overdue], so a closed loan is
    never reopened; [renewal_count] stays or, below 3, grows by one. The
    only new row is the loan of a borrow. *)
Theorem loans_only_move_forward now req db :
  ∃ old new,
    loans (handle now req db).1 = old ++ new
    ∧ Forall2 loan_step (loans db) old
    ∧ (new = []
       ∨ ∃ user book_id, req = Borrow user book_id
                         ∧ new = [borrowed_loan now user book_id]).
Proof. apply handle_loans_forward. Qed.

(** ** Invariants of the loan ledger *)

Lemma qexists_false_count {A} (P : A → bool) table :
  qexists (qfilter P table) = false → count_where P table = 0.
Proof.
  intros H. rewrite <- qcount_qfilter.
  by destruct (qfilter P table).
Qed.

Lemma count_where_le_Forall2 {A} (P : A → bool) old old' :
  Forall2 (λ x y, P y = true → P x = true) old old' →
  count_where P old' ≤ count_where P old.
Proof.
  induction 1 as [|x y old old' Hxy _ IH]; [done |].
  rewrite !count_where_cons. destruct (P y) eqn:Hy.
  - rewrite (Hxy eq_refl). lia.
  - pose proof (count_where_cons P x old). destruct (P x); simpl in *; lia.
Qed.

Section loan_counts.
Variable P : Loan.t → bool.
Hypothesis P_step : ∀ l l', loan_step l l' → P l' = true → P l = true.

Lemma handle_count_le now req db :
  (∀ user book_id, req ≠ Borrow user book_id) →
  count_where P (loans (handle now req db).1) ≤ count_where P (loans db).
Proof.
  intros Hreq.
  destruct (handle_loans_forward now req db) as (old & new & -> & Hstep & Hnew).
  destruct Hnew as [-> | (u & b & -> & _)]; [| by destruct (Hreq u b)].
  rewrite app_nil_r. apply count_where_le_Forall2.
  eapply Forall2_impl; [exact Hstep |]. intros l l'. apply P_step.
Qed.
End loan_counts.

Lemma loan_of_step b u l l' :
  loan_step l l' → loan_of b u l' = true → loan_of b u l = true.
Proof.
  intros (Hb & Hu & _ & Hst & _). unfold loan_of. rewrite Hb, Hu.
  intros [[-> ->]%andb_true_iff Hact%bool_decide_eq_true]%andb_true_iff.
  rewrite !andb_true_r. apply bool_decide_eq_true.
  destruct Hst as [<- | [_ [? | ?]]]; congruence.
Qed.

Lemma active_loan_of_user_step u l l' :
  loan_step l l' → active_loan_of_user u l' = true → active_loan_of_user u l = true.
Proof.
  intros (_ & Hu & _ & Hst & _). unfold active_loan_of_user. rewrite Hu.
  intros [-> Hact%bool_decide_eq_true]%andb_true_iff.
  simpl. apply bool_decide_eq_true.
  destruct Hst as [<- | [_ [? | ?]]]; congruence.
Qed.

(** X2. If no borrower has two active loans of one book, no request
    makes it so: [borrow_book] refuses the second, and nothing else makes
    a loan active. *)
Theorem active_loans_unique_preserved now req db :
  active_loans_unique db → active_loans_unique (handle now req db).1.
Proof.
  intros Huniq b u.
  destruct req as [user book_id | | | | | |].
  2-7: etrans; [| apply (Huniq b u)];
    (apply handle_count_le; [apply loan_of_step | intros ??; discriminate]).
  simpl. destruct (borrow_book_cases now user book_id db)
    as [[-> _] | (book & _ & _ & Hnone & _ & _ & _ & -> & _)]; [apply Huniq |].
  rewrite count_where_app. destruct (loan_of b u _) eqn:Hnew; simpl.
  - apply andb_true_iff in Hnew as [Hnew _].
    apply andb_true_iff in Hnew as [<-%bool_decide_eq_true <-%bool_decide_eq_true].
    simpl. rewrite (qexists_false_count _ _ Hnone). done.
  - specialize (Huniq b u). lia.
Qed.

Lemma active_loans_unique_preserved_witness :
  active_loans_unique (handle (day 1) (Borrow 1 3) three_loans).1.
Proof.
  apply active_loans_unique_preserved.
  intros [|[|[|b]]] [|[|u]]; vm_compute; discriminate.
Defined.

(** X3. If no borrower has more than five active loans, no request makes
    it so: the constant of [borrow_book] is a cap that holds whatever
    [loan_limit] says. *)
Theorem loans_capped_preserved now req db :
  loans_capped db → loans_capped (handle now req db).1.
Proof.
  intros Hcap u.
  destruct req as [user book_id | | | | | |].
  2-7: etrans; [| apply (Hcap u)];
    (apply handle_count_le; [apply active_loan_of_user_step | intros ??; discriminate]).
  simpl. destruct (borrow_book_cases now user book_id db)
    as [[-> _] | (book & _ & _ & _ & _ & Hlt & _ & -> & _)]; [apply Hcap |].
  rewrite count_where_app. destruct (active_loan_of_user u _) eqn:Hnew; simpl.
  - apply andb_true_iff in Hnew as [<-%bool_decide_eq_true _]. simpl.
    rewrite qcount_qfilter in Hlt. lia.
  - specialize (Hcap u). lia.
Qed.

Lemma loans_capped_preserved_witness :
  loans_capped (handle (day 1) (Borrow 1 3) three_loans).1.
Proof.
  apply loans_capped_preserved.
  intros [|[|u]]; vm_compute; discriminate.
Defined.

(** X4. If every loan has a [renewal_count] from 0 to 3, every loan
    still has after any request: a new loan starts at 0 and [renew]
    refuses at 3. *)
Theorem renewals_bounded_preserved now req db :
  renewals_bounded db → renewals_bounded (handle now req db).1.
Proof.
  intros Hb pk l'.
  destruct (handle_loans_forward now req db) as (old & new & -> & Hstep & Hnew).
  intros Hl'. apply lookup_app_Some in Hl' as [Hl' | [_ Hl']].
  - destruct (Forall2_lookup_r _ _ _ _ _ Hstep Hl') as (l & Hl & _ & _ & _ & _ & Hrc).
    specialize (Hb pk l Hl). lia.
  - destruct Hnew as [-> | (u & b & _ & ->)]; [done |].
    apply list_lookup_singleton_Some in Hl' as [_ <-]. simpl. lia.
Qed.

Lemma renewals_bounded_preserved_witness :
  renewals_bounded (handle (day 1) (Renew 0) lent).1.
Proof.
  apply renewals_bounded_preserved.
  intros [|pk] l H; vm_compute in H; [| discriminate].
  injection H as <-. vm_compute. split; discriminate.
Defined.

(** X5. If no book has a negative [available_copies], none has after any
    request: [borrow_book] takes a copy only when one is there. *)
Theorem copies_nonneg_preserved now req db :
  copies_nonneg db → copies_nonneg (handle now req db).1.
Proof.
  intros Hnn.
  assert (∀ after, books after = books db → copies_nonneg after) as Hsame.
  { intros after Hb b book. rewrite Hb. apply Hnn. }
  assert (∀ after b book n, books db !! b = Some book →
            0 ≤ n → books after = <[b := Book.set_available_copies n book]> (books db) →
            copies_nonneg after) as Hone.
  { intros after b book n Hbook Hn Hb b' book'. rewrite Hb.
    intros [(-> & <- & _) | [_ H]]%list_lookup_insert_Some; [done | by eapply Hnn]. }
  destruct req as [u b | u l | l | u b | u r | u | u]; simpl.
  - destruct (borrow_book_cases now u b db)
      as [[-> _] | (book & Hbook & Hav & _ & _ & _ & Hb & _)]; [done |].
    eapply (Hone _ b book); [done | | done]. lia.
  - destruct (return_book_effect now u l db) as [-> | (loan & _ & _ & _ & Hb)];
      [done |].
    destruct (books db !! Loan.book loan) as [book |] eqn:Hbook; [| by apply Hsame].
    eapply (Hone _ _ book); [done | | done]. specialize (Hnn _ _ Hbook). lia.
  - destruct (loans db !! l) as [self |]; [| done].
    pose proof (Loan_renew_effect now l self db) as [Hb _].
    destruct (Loan_renew now l self db) as [[after self'] answer]. by apply Hsame.
  - by destruct (reserve_book_effect now u b db) as [? _]; apply Hsame.
  - by destruct (cancel_reservation_effect u r db) as [? _]; apply Hsame.
  - destruct (my_loans_spec now u db) as (-> & Hb & _). rewrite finish_fst.
    by apply Hsame.
  - by destruct (my_reservations_effect now u db) as [? _]; apply Hsame.
Qed.

Lemma copies_nonneg_preserved_witness :
  copies_nonneg (handle (day 1) (Borrow 2 0) lent).1.
Proof.
  apply copies_nonneg_preserved.
  intros [|b] book H; vm_compute in H; [| discriminate].
  injection H as <-. vm_compute. discriminate.
Defined.

(** ** Returning *)

(** The store after the active loan [l] of the caller, with key [pk] and
    book [book], has been returned. *)
Lemma return_book_active now user pk db (l : Loan.t) book :
  loans db !! pk = Some l → Loan.user l = user → Loan.status l = Loan.active →
  books db !! Loan.book l = Some book →
  let closed := Loan.set_status Loan.returned (Loan.set_return_date (Some now) l) in
  let db1 :=
    set_books (<[Loan.book l
                 := Book.set_available_copies (Book.available_copies book + 1) book]>
                 (books db))
      (set_loans (<[pk := closed]> (loans db)) db) in
  return_book now user pk db
  = (match next_reservation (Loan.book l) db with
     | Some (rk, r) =>
         set_reservations
           (<[rk := Reservation.set_expiry_date (now + timedelta 7)
                      (Reservation.set_status Reservation.available r)]>
              (reservations db)) db1
     | None => db1
     end, RETURNED 0).
Proof.
  intros Hl Hu Hact Hbook. cbv zeta. unfold return_book, get_object_or_404.
  rewrite Hl. unfold active_loan_of_user.
  rewrite !bool_decide_eq_true_2 by done. cbn [andb].
  rewrite is_overdue_returned. cbn [fst snd Loan.book Loan.set_status Loan.set_return_date].
  unfold next_reservation, set_books, set_loans, set_reservations, save.
  cbn [books loans reservations fines userprofiles]. rewrite Hbook.
  by destruct (first _) as [[rk r] |].
Qed.

Lemma return_book_RETURNED now user pk db a :
  (return_book now user pk db).2 = RETURNED a →
  ∃ l book, loans db !! pk = Some l ∧ Loan.user l = user
            ∧ Loan.status l = Loan.active ∧ books db !! Loan.book l = Some book.
Proof.
  unfold return_book.
  destruct (get_object_or_404 _ _ _) as [l |] eqn:Hget; [| done].
  apply get_object_or_404_Some in Hget as [Hl Hact].
  apply andb_true_iff in Hact as [Hu%bool_decide_eq_true Hact%bool_decide_eq_true].
  rewrite is_overdue_returned. cbn [fst snd].
  destruct (books _ !! _) as [book |] eqn:Hbook; [| done]. intros _.
  exists l, book. split_and!; done.
Qed.

(** X6. [return_book] answers RETURNED exactly when the loan exists, is
    the caller's, is [active], and its book is in the store. The fine it
    reports is then always 0 and the fines table is untouched, however
    late the return; the row is closed with [return_date = now]; and a
    second return of the same loan, by anyone at any time, answers
    NOT_FOUND and changes nothing. *)
Theorem return_book_once now user pk db :
  ((∃ a, (return_book now user pk db).2 = RETURNED a)
   ↔ ∃ l book, loans db !! pk = Some l ∧ Loan.user l = user
               ∧ Loan.status l = Loan.active
               ∧ books db !! Loan.book l = Some book)
  ∧ ∀ a, (return_book now user pk db).2 = RETURNED a →
      let after := (return_book now user pk db).1 in
      a = 0
      ∧ fines after = fines db
      ∧ (∃ l, loans db !! pk = Some l
              ∧ loans after
                = <[pk := Loan.set_status Loan.returned
                            (Loan.set_return_date (Some now) l)]> (loans db))
      ∧ ∀ now' user', return_book now' user' pk after = (after, NOT_FOUND).
Proof.
  split.
  - split; [intros [a Ha]; by eapply return_book_RETURNED |].
    intros (l & book & Hl & Hu & Hact & Hbook).
    rewrite (return_book_active now user pk db l book) by done. by exists 0.
  - intros a Ha. cbv zeta.
    destruct (return_book_RETURNED _ _ _ _ _ Ha) as (l & book & Hl & Hu & Hact & Hbook).
    pose proof (return_book_active now user pk db l book Hl Hu Hact Hbook) as Heq.
    cbv zeta in Heq. rewrite Heq in Ha |- *. cbn [fst snd] in *.
    assert (pk < length (loans db))%nat as Hlt by (by eapply lookup_lt_Some).
    split; [congruence |].
    destruct (next_reservation (Loan.book l) db) as [[rk r] |]; cbn [fines loans set_reservations set_books set_loans];
      (split; [done |]); (split; [by exists l |]); intros now' user';
      eapply return_book_not_active;
      try (cbn [loans set_reservations set_books set_loans];
           by apply list_lookup_insert_eq); done.
Qed.

(** X7. A borrow that succeeds and the return of the loan it made, at any
    later time, leave every book with the copies it had; the loan stays
    in the ledger, closed, with no fine. *)
Theorem borrow_then_return now now' user book_id db pk :
  (borrow_book now user book_id db).2 = BORROWED pk →
  let back := return_book now' user pk (borrow_book now user book_id db).1 in
  back.2 = RETURNED 0
  ∧ books back.1 = books db
  ∧ loans back.1
    = loans db ++ [Loan.set_status Loan.returned
                     (Loan.set_return_date (Some now') (borrowed_loan now user book_id))]
  ∧ fines back.1 = fines db.
Proof.
  intros Hout. cbv zeta.
  destruct (borrow_book_cases now user book_id db)
    as [[_ Hin] | (book & Hbook & _ & _ & _ & _ & Hb & Hl & Hf & Hres)].
  { rewrite Hout in Hin. repeat (apply elem_of_cons in Hin as [Hin | Hin]; [done |]).
    by apply elem_of_nil in Hin. }
  rewrite Hout in Hres. destruct Hres as [[= ->] | ?]; [| done].
  assert (book_id < length (books db))%nat as Hlt by (by eapply lookup_lt_Some).
  set (db1 := (borrow_book now user book_id db).1) in *.
  assert (loans db1 !! length (loans db) = Some (borrowed_loan now user book_id)) as Hnew.
  { rewrite Hl, lookup_app_r, Nat.sub_diag by done. done. }
  rewrite (return_book_active now' user _ db1 _
             (Book.set_available_copies (Book.available_copies book - 1) book) Hnew);
    [| done | done | by rewrite Hb; apply list_lookup_insert_eq].
  cbn [fst snd].
  assert (<[book_id
            := Book.set_available_copies
                 (Book.available_copies
                    (Book.set_available_copies
                       (Book.available_copies book - 1) book) + 1)
                 (Book.set_available_copies
                    (Book.available_copies book - 1) book)]> (books db1)
          = books db) as Hbooks.
  { rewrite Hb, list_insert_insert_eq. apply list_insert_id.
    rewrite Hbook. f_equal. destruct book as [t c a].
    unfold Book.set_available_copies. simpl. f_equal. lia. }
  assert (<[length (loans db)
            := Loan.set_status Loan.returned
                 (Loan.set_return_date (Some now') (borrowed_loan now user book_id))]>
            (loans db1)
          = loans db ++ [Loan.set_status Loan.returned
                           (Loan.set_return_date (Some now')
                              (borrowed_loan now user book_id))]) as Hloans.
  { rewrite Hl. rewrite insert_app_r_alt by lia. by rewrite Nat.sub_diag. }
  destruct (next_reservation _ db1) as [[rk r] |];
    cbn [books loans fines set_reservations set_books set_loans];
    (split; [done |]); (split; [exact Hbooks |]); (split; [exact Hloans | exact Hf]).
Qed.

Lemma borrow_then_return_witness :
  let back := return_book (day 9) 2 3 (borrow_book (day 1) 2 3 three_loans).1 in
  back.2 = RETURNED 0 ∧ books back.1 = books three_loans.
Proof.
  destruct (borrow_then_return (day 1) (day 9) 2 3 three_loans 3) as (H1 & H2 & _).
  - reflexivity.
  - split; [exact H1 | exact H2].
Defined.

Lemma return_book_once_witness :
  let after := (return_book (day 20) 1 0 lent).1 in
  fines after = fines lent
  ∧ ∀ now' user', return_book now' user' 0 after = (after, NOT_FOUND).
Proof.
  destruct (return_book_once (day 20) 1 0 lent) as [_ H].
  destruct (H 0 eq_refl) as (_ & Hf & _ & Hagain). split; [exact Hf | exact Hagain].
Defined.

(** What [days_until_expiry] reads of a reservation that is [available]
    and expires seven days after [now]: [7 - k] at a time more than
    [k - 1] and at most [k] days after [now], and 0 from then on. *)
Lemma days_until_expiry_after now t (r : Reservation.t) :
  Reservation.status r = Reservation.available →
  Reservation.expiry_date r = now + timedelta 7 →
  (∀ k, 0 ≤ k ≤ 7 → now + timedelta (k - 1) < t ≤ now + timedelta k →
     Reservation_days_until_expiry t r = Some (7 - k))
  ∧ (now + timedelta 7 ≤ t → Reservation_days_until_expiry t r = Some 0).
Proof.
  intros Hst Hexp. unfold Reservation_days_until_expiry.
  rewrite Hst, Hexp. simpl. unfold timedelta, microseconds_per_day. split.
  - intros k Hk Ht. f_equal.
    rewrite <- (Z.div_unique_pos (now + 7 * 86400000000 - t) 86400000000 (7 - k)
                  (now + k * 86400000000 - t)) by lia.
    lia.
  - intros Ht. f_equal.
    assert ((now + 7 * 86400000000 - t) `div` 86400000000 ≤ 0); [| lia].
    apply Z.div_le_upper_bound; lia.
Qed.

(** X8. A return that succeeds promotes the hold that heads the queue of
    the book, if there is one: the pending reservation of the book with
    the earliest [reservation_date] becomes [available] with
    [expiry_date = now + 7 days]; [days_until_expiry], which reads its
    own clock, then reads [7 - k] at a time more than [k - 1] and at
    most [k] days after the return (7 at the instant of the return, 6
    during the day that follows) and 0 from seven days after it; no
    other reservation changes. With no pending reservation of the book,
    no reservation changes. *)
Theorem return_promotes_head now user pk db a :
  (return_book now user pk db).2 = RETURNED a →
  ∃ l, loans db !! pk = Some l
    ∧ match next_reservation (Loan.book l) db with
      | Some (rk, r) =>
          let promoted :=
            Reservation.set_expiry_date (now + timedelta 7)
              (Reservation.set_status Reservation.available r) in
          reservations (return_book now user pk db).1
          = <[rk := promoted]> (reservations db)
          ∧ (∀ t k, 0 ≤ k ≤ 7 →
               now + timedelta (k - 1) < t ≤ now + timedelta k →
               Reservation_days_until_expiry t promoted = Some (7 - k))
          ∧ (∀ t, now + timedelta 7 ≤ t →
               Reservation_days_until_expiry t promoted = Some 0)
          ∧ reservations db !! rk = Some r
          ∧ Reservation.status r = Reservation.pending
          ∧ ∀ rk' r', reservations db !! rk' = Some r' →
              pending_reservation_on (Loan.book l) r' = true →
              Reservation.reservation_date r ≤ Reservation.reservation_date r'
      | None => reservations (return_book now user pk db).1 = reservations db
      end.
Proof.
  intros Ha.
  destruct (return_book_RETURNED _ _ _ _ _ Ha) as (l & book & Hl & Hu & Hact & Hbook).
  exists l. split; [done |].
  rewrite (return_book_active now user pk db l book Hl Hu Hact Hbook).
  destruct (next_reservation (Loan.book l) db) as [[rk r] |] eqn:Hnext; [| done].
  apply next_reservation_earliest in Hnext as (Hrk & Hpend & Hmin).
  cbv zeta. split_and!; try done.
  - intros t. by apply (days_until_expiry_after now t).
  - intros t. by apply (days_until_expiry_after now t).
  - by apply andb_true_iff in Hpend as [_ ?%bool_decide_eq_true].
Qed.

Lemma return_promotes_head_witness :
  ∃ l, loans queued !! 0%nat = Some l
    ∧ match next_reservation (Loan.book l) queued with
      | Some (rk, r) =>
          let promoted :=
            Reservation.set_expiry_date (day 5 + timedelta 7)
              (Reservation.set_status Reservation.available r) in
          reservations (return_book (day 5) 1 0 queued).1
          = <[rk := promoted]> (reservations queued)
          ∧ (∀ t k, 0 ≤ k ≤ 7 →
               day 5 + timedelta (k - 1) < t ≤ day 5 + timedelta k →
               Reservation_days_until_expiry t promoted = Some (7 - k))
          ∧ (∀ t, day 5 + timedelta 7 ≤ t →
               Reservation_days_until_expiry t promoted = Some 0)
          ∧ reservations queued !! rk = Some r
          ∧ Reservation.status r = Reservation.pending
          ∧ ∀ rk' r', reservations queued !! rk' = Some r' →
              pending_reservation_on (Loan.book l) r' = true →
              Reservation.reservation_date r ≤ Reservation.reservation_date r'
      | None => reservations (return_book (day 5) 1 0 queued).1
                = reservations queued
      end.
Proof. apply (return_promotes_head (day 5) 1 0 queued 0). reflexivity. Defined.

(** ** What each view does to the reservations *)

Lemma queue_head_earliest b table h (rh : Reservation.t) :
  queue_head b table = Some (h, rh) →
  table !! h = Some rh
  ∧ Reservation.book rh = b ∧ Reservation.status rh = Reservation.pending
  ∧ ∀ pk r, table !! pk = Some r → pending_reservation_on b r = true →
      Reservation.reservation_date rh ≤ Reservation.reservation_date r.
Proof.
  intros H.
  destruct (next_reservation_earliest b
              (mkDB [] [] table [] ∅) h rh H) as (Hh & Hpend & Hmin).
  apply andb_true_iff in Hpend as [Hb%bool_decide_eq_true Hs%bool_decide_eq_true].
  split_and!; done.
Qed.

(** The reservations after [borrow_book]: as they were; or with the open
    hold of the borrower fulfilled; or, after that, with the head of the
    queue made available. *)
Lemma borrow_book_reservations now user book_id db :
  let R0 := reservations db in
  let R1 :=
    match qget (qfilter (open_reservation_of book_id user) R0) with
    | inr (k, rk) => <[k := Reservation.set_status Reservation.fulfilled rk]> R0
    | inl _ => R0
    end in
  reservations (borrow_book now user book_id db).1 = R0
  ∨ reservations (borrow_book now user book_id db).1 = R1
  ∨ ∃ h rh, queue_head book_id R1 = Some (h, rh)
            ∧ reservations (borrow_book now user book_id db).1
              = <[h := Reservation.set_status Reservation.available rh]> R1.
Proof.
  cbv zeta. unfold borrow_book.
  destruct (books db !! book_id) as [book |]; [| by left].
  case_bool_decide; [by left |].
  destruct (qexists (qfilter (loan_of _ _) _)); [by left |].
  destruct (qexists (qfilter (pending_fine_of _) _)); [by left |].
  case_bool_decide; [by left |]. cbn [create].
  unfold next_reservation, set_books, set_loans, set_reservations, save.
  cbn [books loans reservations fines userprofiles].
  destruct (qget _) as [[] | [k rk]]; cbn [fst reservations];
    try (by left);
    (destruct (first _) as [[h rh] |] eqn:Hhead;
     [case_bool_decide |]; cbn [reservations];
     [right; right; exists h, rh; by split | by right; left | by right; left]).
Qed.

Lemma return_book_reservations now user pk db :
  reservations (return_book now user pk db).1 = reservations db
  ∨ ∃ l h rh, loans db !! pk = Some l
      ∧ queue_head (Loan.book l) (reservations db) = Some (h, rh)
      ∧ reservations (return_book now user pk db).1
        = <[h := Reservation.set_expiry_date (now + timedelta 7)
                   (Reservation.set_status Reservation.available rh)]>
            (reservations db).
Proof.
  unfold return_book.
  destruct (get_object_or_404 _ _ _) as [l |] eqn:Hget; [| by left].
  apply get_object_or_404_Some in Hget as [Hl _].
  rewrite is_overdue_returned. cbn [fst snd].
  unfold next_reservation, set_books, set_loans, set_reservations, save.
  cbn [books loans reservations fines userprofiles Loan.book Loan.set_status
       Loan.set_return_date].
  destruct (books db !! Loan.book l) as [book |]; [| by left].
  destruct (first _) as [[h rh] |] eqn:Hhead; [| by left].
  right. exists l, h, rh. by split_and!.
Qed.

Lemma cancel_reservation_reservations user rk db :
  cancel_reservation user rk db = (db, NOT_FOUND)
  ∨ ∃ r, reservations db !! rk = Some r ∧ Reservation.user r = user
      ∧ Reservation.is_open r = true
      ∧ cancel_reservation user rk db
        = (set_reservations
             (<[rk := Reservation.set_status Reservation.cancelled r]> (reservations db))
             db, CANCELLED).
Proof.
  unfold cancel_reservation.
  destruct (get_object_or_404 _ _ _) as [r |] eqn:Hget; [| by left].
  apply get_object_or_404_Some in Hget as [Hr Hp].
  apply andb_true_iff in Hp as [Hu%bool_decide_eq_true Hopen].
  right. exists r. by split_and!.
Qed.

(** [reserve_book] either refuses and leaves the store alone, or passes
    its checks and the constraint, and then queues the new row last. *)
Lemma reserve_book_cases now user book_id db :
  let r := reserve_book now user book_id db in
  r.1 = db
  ∧ r.2 ∈ [NOT_FOUND; BOOK_AVAILABLE; DUPLICATE_RESERVATION; ALREADY_HOLDING;
           RAISED IntegrityError]
  ∨ ∃ book,
      books db !! book_id = Some book
      ∧ Book.available_copies book ≤ 0
      ∧ qexists (qfilter (loan_of book_id user) (loans db)) = false
      ∧ ((book_id, user) ∉ reservation_pairs db)
      ∧ r.1 = set_reservations (reservations db ++ [reserved_row now user book_id]) db
      ∧ r.2 = RESERVED (length (reservations db))
                (qcount (qfilter (pending_before book_id now)
                           (reservations db ++ [reserved_row now user book_id])) + 1).
Proof.
  cbv zeta. unfold reserve_book.
  destruct (books db !! book_id) as [book |] eqn:Hbook;
    [| left; split; [done | repeat first [by left | right]]].
  case_bool_decide as Hav; [left; split; [done | repeat first [by left | right]] |].
  destruct (qexists (qfilter (open_reservation_of _ _) _)) eqn:Hdup;
    [left; split; [done | repeat first [by left | right]] |].
  destruct (qexists (qfilter (loan_of _ _) _)) eqn:Hloan;
    [left; split; [done | repeat first [by left | right]] |].
  match goal with |- context [Reservation_create ?r db] =>
    pose proof (Reservation_create_spec r db) as Hc;
    destruct (Reservation_create r db) as [e | [db' rk]]
  end.
  - destruct Hc as [-> _]. left. split; [done | repeat first [by left | right]].
  - destruct Hc as (Hfresh & -> & ->). right. exists book.
    split_and!; try done. lia.
Qed.

(** ** The expire sweep, row by row *)

Lemma expire_row_quiet now (r : Reservation.t) :
  Reservation.is_expired now (expire_row now r)
  && Reservation.is_open (expire_row now r) = false.
Proof.
  unfold expire_row.
  destruct (Reservation.is_expired now r && Reservation.is_open r) eqn:Hq; [| done].
  by rewrite andb_false_r.
Qed.

Lemma expire_row_step now r : reservation_step r (expire_row now r).
Proof.
  unfold expire_row, reservation_step.
  destruct (Reservation.is_expired now r && Reservation.is_open r) eqn:Hq.
  - apply andb_true_iff in Hq as [_ Hopen]. simpl. split_and!; try done.
    right. left. split; [done |]. by right; right.
  - split_and!; try done. by left.
Qed.

Lemma expire_reservation_effect now pk r b db :
  reservations db !! pk = Some r →
  expire_reservation now (pk, r, b) db
  = (set_reservations (<[pk := expire_row now r]> (reservations db)) db, None).
Proof.
  intros Hpk. unfold expire_reservation, expire_row.
  destruct (Reservation.is_expired now r && Reservation.is_open r); [done |].
  rewrite list_insert_id by done. by destruct db.
Qed.

Lemma expire_loop_spec now rows db :
  NoDup rows.*1.*1 →
  (∀ pk r b, (pk, r, b) ∈ rows → reservations db !! pk = Some r) →
  let res := for_each (expire_reservation now) rows db in
  res.2 = None
  ∧ books res.1 = books db ∧ loans res.1 = loans db ∧ fines res.1 = fines db
  ∧ userprofiles res.1 = userprofiles db
  ∧ length (reservations res.1) = length (reservations db)
  ∧ (∀ pk, pk ∉ rows.*1.*1 → reservations res.1 !! pk = reservations db !! pk)
  ∧ (∀ pk r b, (pk, r, b) ∈ rows →
       reservations res.1 !! pk = Some (expire_row now r)).
Proof.
  intros Hnd. revert db.
  induction rows as [|[[pk r] b] rows IH]; intros db Hrows.
  - simpl. split_and!; try done. intros ??? H. by apply elem_of_nil in H.
  - rewrite !fmap_cons in Hnd |- *. apply NoDup_cons in Hnd as [Hpk Hnd].
    assert (reservations db !! pk = Some r) as Hr by (apply (Hrows pk r b); left).
    assert (pk < length (reservations db))%nat as Hlt by (by eapply lookup_lt_Some).
    cbv zeta. rewrite for_each_cons, (expire_reservation_effect now pk r b db Hr).
    set (db1 := set_reservations _ db).
    destruct (IH Hnd db1) as (Hout & Hb & Hl & Hf & Hu & Hlen & Hother & Hin).
    { intros pk' r' b' Hin. unfold db1. cbn [reservations set_reservations].
      rewrite list_lookup_insert_ne.
      - apply (Hrows pk' r' b'). by right.
      - intros <-. apply Hpk. by eapply elem_of_keys. }
    split_and!; try done.
    + rewrite Hlen. unfold db1. cbn [reservations set_reservations].
      by rewrite length_insert.
    + intros pk' Hnin. apply not_elem_of_cons in Hnin as [Hne Hnin].
      rewrite (Hother pk' Hnin). unfold db1. cbn [reservations set_reservations].
      by apply list_lookup_insert_ne.
    + intros pk' r' b' [[= -> -> ->] | Hin']%elem_of_cons; [| by eapply Hin].
      rewrite (Hother pk Hpk). unfold db1. cbn [reservations set_reservations].
      by apply list_lookup_insert_eq.
Qed.

Lemma elem_of_reservations_of_user user db pk r b :
  (pk, r, b) ∈ reservations_of_user user db
  ↔ reservations db !! pk = Some r ∧ Reservation.user r = user
    ∧ books db !! Reservation.book r = Some b.
Proof.
  unfold reservations_of_user.
  rewrite elem_of_order_by, elem_of_select_related, elem_of_qfilter, bool_decide_eq_true.
  tauto.
Qed.

Lemma NoDup_reservations_of_user user db :
  NoDup (reservations_of_user user db).*1.*1.
Proof.
  unfold reservations_of_user.
  eapply NoDup_keys_Permutation; [apply order_by_Permutation |].
  apply NoDup_keys_select_related, NoDup_keys_qfilter.
Qed.

(** The sweep of [my_reservations]: it never raises, touches the
    reservations only, and makes of each row of the listing what
    [expire_row] says. *)
Lemma my_reservations_spec now user db :
  let after := (my_reservations now user db).1 in
  (my_reservations now user db).2 = RENDERED
  ∧ books after = books db ∧ loans after = loans db ∧ fines after = fines db
  ∧ userprofiles after = userprofiles db
  ∧ length (reservations after) = length (reservations db)
  ∧ (∀ pk r, reservations db !! pk = Some r →
       reservations after !! pk
       = Some (if bool_decide (Reservation.user r = user
                               ∧ is_Some (books db !! Reservation.book r))
               then expire_row now r else r)).
Proof.
  pose proof (expire_loop_spec now (reservations_of_user user db) db
                (NoDup_reservations_of_user user db)) as H.
  cbv zeta in H |- *. unfold my_reservations.
  destruct H as (Hout & Hb & Hl & Hf & Hu & Hlen & Hother & Hin).
  { intros pk r b Hin. by apply elem_of_reservations_of_user in Hin as [? _]. }
  rewrite finish_fst.
  destruct (for_each _ _ db) as [after [e |]]; cbn [fst snd] in *; [done |].
  split_and!; try done.
  intros pk r Hr. case_bool_decide as Hmine.
  - destruct Hmine as [Hu' [b Hb']]. apply (Hin pk r b).
    by apply elem_of_reservations_of_user.
  - rewrite Hother; [done |]. intros Hpk.
    apply list_elem_of_fmap in Hpk as ([pk' r'] & Heq & Hpk). simpl in Heq. subst pk'.
    apply list_elem_of_fmap in Hpk as ([[pk'' r''] b''] & Heq & Hpk).
    simpl in Heq. injection Heq as <- <-.
    apply elem_of_reservations_of_user in Hpk as (Hr' & Hu' & Hb').
    apply Hmine. rewrite Hr in Hr'. injection Hr' as <-. split; [done | by eexists].
Qed.

Lemma DB_eq (d d' : DB) :
  books d = books d' → loans d = loans d' → reservations d = reservations d' →
  fines d = fines d' → userprofiles d = userprofiles d' → d = d'.
Proof. destruct d, d'. simpl. by intros -> -> -> -> ->. Qed.

Lemma expire_row_keys now (r : Reservation.t) :
  Reservation.user (expire_row now r) = Reservation.user r
  ∧ Reservation.book (expire_row now r) = Reservation.book r.
Proof. unfold expire_row. by destruct (_ && _). Qed.

Lemma expire_row_twice now (r : Reservation.t) :
  expire_row now (expire_row now r) = expire_row now r.
Proof.
  pose proof (expire_row_quiet now r) as Hq.
  unfold expire_row at 1. by rewrite Hq.
Qed.

Lemma my_reservations_twice now user db :
  my_reservations now user (my_reservations now user db).1
  = my_reservations now user db.
Proof.
  destruct (my_reservations_spec now user db)
    as (Hout & Hb & Hl & Hf & Hu & Hlen & Hrows).
  set (once := my_reservations now user db) in *.
  destruct (my_reservations_spec now user once.1)
    as (Hout2 & Hb2 & Hl2 & Hf2 & Hu2 & Hlen2 & Hrows2).
  set (twice := my_reservations now user once.1) in *.
  rewrite (surjective_pairing twice), (surjective_pairing once), Hout, Hout2.
  f_equal. apply DB_eq; try done.
  apply list_eq. intros pk.
  destruct (reservations db !! pk) as [x |] eqn:Hx.
  - pose proof (Hrows pk x Hx) as Hr. rewrite (Hrows2 pk _ Hr), Hr. f_equal.
    rewrite Hb. case_bool_decide as Hmine0.
    + destruct (expire_row_keys now x) as [-> ->].
      rewrite bool_decide_eq_true_2 by done. apply expire_row_twice.
    + by rewrite bool_decide_eq_false_2.
  - apply lookup_ge_None in Hx.
    rewrite !(proj2 (lookup_ge_None _ _)); [done | lia | lia].
Qed.

(** X9. The expire sweep of [my_reservations] never raises and changes
    reservations only. Afterwards no pending or available hold of the
    borrower (on a book of the store) is past its [expiry_date]: those
    that were are [expired], the pending ones and their placeholder date
    included. Every other row is as it was, and a second sweep at the
    same time changes nothing. *)
Theorem expire_sweep_settles now user db :
  let once := my_reservations now user db in
  once.2 = RENDERED
  ∧ books once.1 = books db ∧ loans once.1 = loans db ∧ fines once.1 = fines db
  ∧ my_reservations now user once.1 = once
  ∧ (∀ pk r, reservations once.1 !! pk = Some r →
       Reservation.user r = user → is_Some (books db !! Reservation.book r) →
       Reservation.is_open r = true → now ≤ Reservation.expiry_date r)
  ∧ (∀ pk r, reservations db !! pk = Some r →
       Reservation.user r = user → is_Some (books db !! Reservation.book r) →
       Reservation.is_open r = true → Reservation.expiry_date r < now →
       reservations once.1 !! pk
       = Some (Reservation.set_status Reservation.expired r))
  ∧ (∀ pk r, reservations db !! pk = Some r →
       Reservation.user r ≠ user ∨ Reservation.is_open r = false
       ∨ now ≤ Reservation.expiry_date r →
       reservations once.1 !! pk = Some r).
Proof.
  cbv zeta.
  destruct (my_reservations_spec now user db)
    as (Hout & Hb & Hl & Hf & Hu & Hlen & Hrows).
  split_and!; try done.
  - apply my_reservations_twice.
  - intros pk r Hr Hmine Hbook Hopen.
    assert (pk < length (reservations db))%nat as Hlt
      by (rewrite <- Hlen; by eapply lookup_lt_Some).
    apply lookup_lt_is_Some in Hlt as [x Hx].
    rewrite (Hrows pk x Hx) in Hr. injection Hr as <-.
    case_bool_decide as Hmine0.
    + pose proof (expire_row_quiet now x) as Hq. rewrite Hopen, andb_true_r in Hq.
      unfold Reservation.is_expired in Hq. unfold Reservation.is_open in Hopen.
      destruct (Reservation.status (expire_row now x)); simpl in *; try done;
        rewrite andb_true_r in Hq; apply bool_decide_eq_false in Hq; lia.
    + destruct Hmine0. by split.
  - intros pk r Hr Hmine Hbook Hopen Hpast. rewrite (Hrows pk r Hr).
    rewrite bool_decide_eq_true_2 by done. unfold expire_row.
    unfold Reservation.is_expired. rewrite Hopen, (bool_decide_eq_true_2 _ Hpast).
    unfold Reservation.is_open in Hopen.
    by destruct (Reservation.status r).
  - intros pk r Hr Hwhy. rewrite (Hrows pk r Hr). case_bool_decide as Hmine; [| done].
    unfold expire_row. destruct Hwhy as [? | [-> | Hle]]; [by destruct Hmine | | ].
    + by rewrite andb_false_r.
    + unfold Reservation.is_expired. by rewrite bool_decide_eq_false_2 by lia.
Qed.

Lemma expire_sweep_settles_witness :
  reservations (my_reservations (day 10) 3 queued).1 !! 1%nat
  = Some (Reservation.set_status Reservation.expired (reserved_row (day 2) 3 0)).
Proof.
  destruct (expire_sweep_settles (day 10) 3 queued) as (_ & _ & _ & _ & _ & _ & H & _).
  apply (H 1%nat (reserved_row (day 2) 3 0)).
  - reflexivity.
  - reflexivity.
  - by eexists.
  - reflexivity.
  - reflexivity.
Defined.

(** ** The reservations only move forward *)

Lemma reservation_step_refl r : reservation_step r r.
Proof. unfold reservation_step. split_and!; try done. by left. Qed.

Lemma is_open_status (r : Reservation.t) :
  Reservation.is_open r = true
  ↔ Reservation.status r = Reservation.pending
    ∨ Reservation.status r = Reservation.available.
Proof.
  unfold Reservation.is_open. rewrite orb_true_iff, !bool_decide_eq_true. done.
Qed.

Lemma reservation_step_trans r1 r2 r3 :
  reservation_step r1 r2 → reservation_step r2 r3 → reservation_step r1 r3.
Proof.
  intros (Hb & Hu & Hd & H12) (Hb' & Hu' & Hd' & H23). unfold reservation_step.
  split_and!; try congruence.
  destruct H23 as [-> | [[Hopen2 Hterm] | [Hp2 Ha3]]]; [done | |].
  - right. left. split; [| done].
    destruct H12 as [<- | [[? Hterm1] | [Hp1 _]]]; [done | |].
    + apply is_open_status in Hopen2. destruct Hterm1 as [? | [? | ?]], Hopen2; congruence.
    + apply is_open_status. by left.
  - destruct H12 as [<- | [[? Hterm1] | [_ ?]]]; [by right; right | | congruence].
    destruct Hterm1 as [? | [? | ?]]; congruence.
Qed.

Lemma Forall2_compose {A} (R : A → A → Prop) l1 l2 l3 :
  (∀ x y z, R x y → R y z → R x z) →
  Forall2 R l1 l2 → Forall2 R l2 l3 → Forall2 R l1 l3.
Proof.
  intros HR H12. revert l3. induction H12 as [|x y l1 l2 Hxy _ IH]; intros l3 H23.
  - by inversion H23.
  - inversion H23 as [|? z ? l3' Hyz H23']; subst. constructor; eauto.
Qed.

Lemma qget_inr_filter {A} (P : A → bool) table pk r :
  qget (qfilter P table) = inr (pk, r) → table !! pk = Some r ∧ P r = true.
Proof.
  unfold qget. destruct (qfilter P table) as [|x [|? ?]] eqn:Hq; try done.
  intros [= ->]. apply (elem_of_qfilter P). rewrite Hq. by left.
Qed.

Lemma fulfil_step user book_id table :
  Forall2 reservation_step table
    match qget (qfilter (open_reservation_of book_id user) table) with
    | inr (k, rk) => <[k := Reservation.set_status Reservation.fulfilled rk]> table
    | inl _ => table
    end.
Proof.
  destruct (qget _) as [e | [k rk]] eqn:Hget;
    [apply Forall2_diag, reservation_step_refl |].
  apply qget_inr_filter in Hget as [Hk Hopen].
  apply andb_true_iff in Hopen as [_ Hopen].
  apply (Forall2_insert_one _ _ _ rk); [apply reservation_step_refl | done |].
  unfold reservation_step. simpl. split_and!; try done.
  right. left. split; [done | by left].
Qed.

Lemma fulfil_lookup user book_id table pk (r x : Reservation.t) :
  table !! pk = Some r →
  match qget (qfilter (open_reservation_of book_id user) table) with
  | inr (k, rk) => <[k := Reservation.set_status Reservation.fulfilled rk]> table
  | inl _ => table
  end !! pk = Some x →
  x = r ∨ x = Reservation.set_status Reservation.fulfilled r.
Proof.
  intros Hr. destruct (qget _) as [e | [k rk]] eqn:Hget; [left; congruence |].
  apply qget_inr_filter in Hget as [Hk _].
  intros [(-> & <- & _) | [_ Hx]]%list_lookup_insert_Some.
  - right. congruence.
  - left. congruence.
Qed.

Lemma promote_step book_id table h rh (r' : Reservation.t) :
  queue_head book_id table = Some (h, rh) →
  Reservation.book r' = Reservation.book rh →
  Reservation.user r' = Reservation.user rh →
  Reservation.reservation_date r' = Reservation.reservation_date rh →
  Reservation.status r' = Reservation.available →
  Forall2 reservation_step table (<[h := r']> table).
Proof.
  intros (Hh & _ & Hpend & _)%queue_head_earliest Hb Hu Hd Hs.
  apply (Forall2_insert_one _ _ _ rh); [apply reservation_step_refl | done |].
  unfold reservation_step. split_and!; try done. by right; right.
Qed.

Lemma handle_reservations_forward now req db :
  ∃ old new,
    reservations (handle now req db).1 = old ++ new
    ∧ Forall2 reservation_step (reservations db) old
    ∧ (new = []
       ∨ ∃ user book_id, req = Reserve user book_id
                         ∧ new = [reserved_row now user book_id]).
Proof.
  assert (∀ R, Forall2 reservation_step (reservations db) R →
            ∃ old new, R = old ++ new ∧ Forall2 reservation_step (reservations db) old
              ∧ (new = [] ∨ ∃ user book_id, req = Reserve user book_id
                                            ∧ new = [reserved_row now user book_id]))
    as Hold.
  { intros R HR. exists R, []. rewrite app_nil_r. split_and!; [done | done | by left]. }
  pose proof (Forall2_diag reservation_step (reservations db) reservation_step_refl)
    as Hrefl.
  destruct req as [u b | u l | l | u b | u r | u | u]; simpl.
  - apply Hold. pose proof (fulfil_step u b (reservations db)) as H1.
    destruct (borrow_book_reservations now u b db) as [-> | [-> | (h & rh & Hh & ->)]];
      [done | done |].
    eapply Forall2_compose; [apply reservation_step_trans | exact H1 |].
    by eapply promote_step.
  - apply Hold.
    destruct (return_book_reservations now u l db) as [-> | (? & h & rh & _ & Hh & ->)];
      [done |].
    by eapply promote_step.
  - apply Hold. destruct (loans db !! l) as [self |]; [| done].
    unfold Loan_renew. by destruct (Loan_can_be_renewed now db self) as [[] ?].
  - destruct (reserve_book_cases now u b db)
      as [[-> _] | (book & _ & _ & _ & _ & -> & _)]; [by apply Hold |].
    exists (reservations db), [reserved_row now u b].
    split_and!; [done | done | right; eauto].
  - apply Hold.
    destruct (cancel_reservation_reservations u r db)
      as [-> | (x & Hx & _ & Hopen & ->)]; [done |].
    apply (Forall2_insert_one _ _ _ x); [apply reservation_step_refl | done |].
    unfold reservation_step. simpl. split_and!; try done.
    right. left. split; [done | by right; left].
  - apply Hold. destruct (my_loans_spec now u db) as (-> & _ & Hr & _).
    rewrite finish_fst. by rewrite Hr.
  - apply Hold.
    destruct (my_reservations_spec now u db) as (_ & _ & _ & _ & _ & Hlen & Hrows).
    apply Forall2_same_length_lookup_2; [by rewrite Hlen |].
    intros pk x x' Hx Hx'. rewrite (Hrows pk x Hx) in Hx'. injection Hx' as <-.
    case_bool_decide; [apply expire_row_step | apply reservation_step_refl].
Qed.

(** X10. Whatever the request, no reservation row is deleted, and none
    changes its book, its borrower or its reservation date. A row stays
    as it is, or goes from pending or available to fulfilled, cancelled
    or expired, or from pending to available: a fulfilled, cancelled or
    expired reservation is never changed again. The only new row is the
    pending one of a reserve. *)
Theorem reservations_only_move_forward now req db :
  (∃ old new,
     reservations (handle now req db).1 = old ++ new
     ∧ Forall2 reservation_step (reservations db) old
     ∧ (new = []
        ∨ ∃ user book_id, req = Reserve user book_id
                          ∧ new = [reserved_row now user book_id]))
  ∧ ∀ pk r, reservations db !! pk = Some r → Reservation.is_open r = false →
      reservations (handle now req db).1 !! pk = Some r.
Proof.
  destruct (handle_reservations_forward now req db) as (old & new & Heq & Hstep & Hnew).
  split; [by exists old, new |].
  intros pk r Hr Hclosed. rewrite Heq.
  destruct (Forall2_lookup_l _ _ _ _ _ Hstep Hr) as (r' & Hr' & _ & _ & _ & H).
  rewrite (lookup_app_l_Some _ _ _ _ Hr'). f_equal.
  destruct H as [-> | [[Hopen _] | [Hp _]]]; [done | congruence |].
  assert (Reservation.is_open r = true) by (apply is_open_status; by left).
  congruence.
Qed.

Lemma reservations_only_move_forward_witness :
  reservations (handle (day 30) (ExpireSweep 4) all_out).1 !! 0%nat
  = reservations all_out !! 0%nat.
Proof.
  destruct (reservations_only_move_forward (day 30) (ExpireSweep 4) all_out) as [_ H].
  rewrite (H 0%nat (Reservation.mk 0 4 (day 1) (day 4 + timedelta 7)
                      Reservation.fulfilled)); reflexivity.
Defined.

(** ** First come, first served *)

Lemma promoted_is_earliest book_id table h rh (r' : Reservation.t) pk r pk2 r2 :
  queue_head book_id table = Some (h, rh) →
  Reservation.status r' = Reservation.available →
  table !! pk = Some r → Reservation.status r = Reservation.pending →
  (∃ x, <[h := r']> table !! pk = Some x
        ∧ Reservation.status x = Reservation.available) →
  <[h := r']> table !! pk2 = Some r2 →
  pending_reservation_on (Reservation.book r) r2 = true →
  Reservation.reservation_date r ≤ Reservation.reservation_date r2.
Proof.
  intros (Hh & Hbook & Hpend & Hmin)%queue_head_earliest Hs' Hr Hp (x & Hx & Hxa) Hr2 Hp2.
  assert (pk = h) as ->.
  { destruct (decide (pk = h)) as [-> | Hne]; [done |].
    rewrite list_lookup_insert_ne in Hx by done. congruence. }
  assert (rh = r) as -> by congruence.
  apply (Hmin pk2 r2); [| by rewrite <- Hbook].
  destruct (decide (h = pk2)) as [<- | Hne].
  - rewrite list_lookup_insert_eq in Hr2 by (by eapply lookup_lt_Some).
    injection Hr2 as <-.
    apply andb_true_iff in Hp2 as [_ Hp2%bool_decide_eq_true]. congruence.
  - by rewrite list_lookup_insert_ne in Hr2.
Qed.

(** X11. First come, first served. Whenever a request turns a pending
    reservation into an available one, no reservation of the same book
    that is still pending after the request has an earlier
    [reservation_date]. *)
Theorem promotion_is_fifo now req db pk r r' :
  reservations db !! pk = Some r →
  Reservation.status r = Reservation.pending →
  reservations (handle now req db).1 !! pk = Some r' →
  Reservation.status r' = Reservation.available →
  ∀ pk2 r2, reservations (handle now req db).1 !! pk2 = Some r2 →
    pending_reservation_on (Reservation.book r) r2 = true →
    Reservation.reservation_date r ≤ Reservation.reservation_date r2.
Proof.
  intros Hr Hp Hr' Ha pk2 r2 Hr2 Hp2.
  assert (∀ R, reservations (handle now req db).1 = R →
            R !! pk = Some r ∨ (∃ x, R !! pk = Some x
                                     ∧ Reservation.status x ≠ Reservation.available) →
            False) as Hnot.
  { intros R HR [Hsame | (x & Hx & Hne)]; rewrite HR in Hr'; congruence. }
  destruct req as [u b | u l | l | u b | u k | u | u]; simpl in *.
  - destruct (borrow_book_reservations now u b db) as [HR | [HR | (h & rh & Hh & HR)]].
    + exfalso. apply (Hnot _ HR). by left.
    + exfalso. apply (Hnot _ HR).
      assert (is_Some (match qget (qfilter (open_reservation_of b u) (reservations db))
                       with
                       | inr (k, rk) =>
                           <[k := Reservation.set_status Reservation.fulfilled rk]>
                             (reservations db)
                       | inl _ => reservations db
                       end !! pk)) as [x Hx].
      { apply lookup_lt_is_Some. apply lookup_lt_Some in Hr.
        destruct (qget _) as [e | [k rk]]; [done | by rewrite length_insert]. }
      destruct (fulfil_lookup u b _ pk r x Hr Hx) as [-> | ->]; [by left |].
      right. eexists. split; [done |]. done.
    + rewrite HR in Hr', Hr2.
      apply queue_head_earliest in Hh as Hhead. destruct Hhead as (Hh' & _ & Hhp & _).
      assert (pk = h) as ->.
      { destruct (decide (pk = h)) as [-> | Hne]; [done |].
        rewrite list_lookup_insert_ne in Hr' by done.
        destruct (fulfil_lookup u b _ pk r r' Hr Hr') as [-> | ->]; simpl in *;
          congruence. }
      destruct (fulfil_lookup u b _ h r rh Hr Hh') as [-> | ->]; [| done].
      apply (promoted_is_earliest b _ h r
               (Reservation.set_status Reservation.available r)
               h r pk2 r2 Hh eq_refl Hh' Hp); [by exists r' | done | done].
  - destruct (return_book_reservations now u l db) as [HR | (? & h & rh & _ & Hh & HR)].
    + exfalso. apply (Hnot _ HR). by left.
    + rewrite HR in Hr', Hr2.
      apply (promoted_is_earliest _ _ h rh
               (Reservation.set_expiry_date (now + timedelta 7)
                  (Reservation.set_status Reservation.available rh))
               pk r pk2 r2 Hh eq_refl Hr Hp);
        [by exists r' | done | done].
  - exfalso. apply (Hnot (reservations db)); [| by left].
    destruct (loans db !! l) as [self |]; [| done].
    unfold Loan_renew. by destruct (Loan_can_be_renewed now db self) as [[] ?].
  - exfalso.
    destruct (reserve_book_cases now u b db)
      as [[HR _] | (book & _ & _ & _ & _ & HR & _)];
      rewrite HR in Hnot; (eapply Hnot; [done |]); left; [done |].
    cbn [reservations set_reservations]. by apply lookup_app_l_Some.
  - exfalso.
    destruct (cancel_reservation_reservations u k db)
      as [HR | (x & Hx & _ & _ & HR)]; rewrite HR in Hnot;
      (eapply Hnot; [done |]); [by left |].
    cbn [fst reservations set_reservations].
    destruct (decide (k = pk)) as [-> | Hne].
    + right. eexists. split; [apply list_lookup_insert_eq; by eapply lookup_lt_Some |].
      done.
    + left. by rewrite list_lookup_insert_ne.
  - exfalso. apply (Hnot (reservations db)); [| by left].
    destruct (my_loans_spec now u db) as (-> & _ & HR & _). by rewrite finish_fst.
  - exfalso.
    destruct (my_reservations_spec now u db) as (_ & _ & _ & _ & _ & _ & Hrows).
    eapply Hnot; [done |]. rewrite (Hrows pk r Hr).
    case_bool_decide; [| by left]. unfold expire_row.
    destruct (_ && _); [| by left]. right. eexists. split; [done |]. done.
Qed.

Lemma promotion_is_fifo_witness :
  reservations (handle (day 5) (Return 1 0) queued).1 !! 1%nat
  = Some (reserved_row (day 2) 3 0)
  ∧ day 1 ≤ Reservation.reservation_date (reserved_row (day 2) 3 0).
Proof.
  split; [reflexivity |].
  apply (promotion_is_fifo (day 5) (Return 1 0) queued 0 (reserved_row (day 1) 2 0)
           (Reservation.set_expiry_date (day 5 + timedelta 7)
              (Reservation.set_status Reservation.available
                 (reserved_row (day 1) 2 0)))
           eq_refl eq_refl eq_refl eq_refl 1%nat (reserved_row (day 2) 3 0));
    reflexivity.
Defined.

(** ** Cancelling *)

(** X12. [cancel_reservation] answers CANCELLED exactly when the row
    exists, is the caller's and is pending or available. Then only that
    row changes, to [cancelled]: no book, loan or fine is touched and no
    other hold is promoted, not even when the cancelled hold was the
    available one. Any other call, and any second cancel of the row,
    answers NOT_FOUND and changes nothing. *)
Theorem cancel_reservation_once user rk db :
  ((cancel_reservation user rk db).2 = CANCELLED
   ↔ ∃ r, reservations db !! rk = Some r ∧ Reservation.user r = user
          ∧ Reservation.is_open r = true)
  ∧ ((cancel_reservation user rk db).2 = CANCELLED →
     ∃ r, reservations db !! rk = Some r
       ∧ (cancel_reservation user rk db).1
         = set_reservations
             (<[rk := Reservation.set_status Reservation.cancelled r]> (reservations db))
             db
       ∧ ∀ user', cancel_reservation user' rk (cancel_reservation user rk db).1
                  = ((cancel_reservation user rk db).1, NOT_FOUND))
  ∧ ((cancel_reservation user rk db).2 ≠ CANCELLED →
     cancel_reservation user rk db = (db, NOT_FOUND)).
Proof.
  destruct (cancel_reservation_reservations user rk db)
    as [Heq | (r & Hr & Hu & Hopen & Heq)]; rewrite Heq; cbn [fst snd].
  - split_and!; [| done | done]. split; [done |].
    intros (r & Hr & Hu & Hopen). exfalso. revert Heq. unfold cancel_reservation.
    rewrite (proj2 (get_object_or_404_Some _ rk (reservations db) r)); [done |].
    split; [done |]. by rewrite Hu, bool_decide_eq_true_2.
  - split_and!; [split; [eauto | done] | | done].
    intros _. exists r. split_and!; [done | done |].
    intros user'. unfold cancel_reservation, get_object_or_404.
    cbn [reservations set_reservations].
    rewrite list_lookup_insert_eq by (by eapply lookup_lt_Some).
    by rewrite andb_false_r.
Qed.

Lemma cancel_reservation_once_witness :
  ∃ r, reservations queued !! 0%nat = Some r
    ∧ (cancel_reservation 2 0 queued).1
      = set_reservations
          (<[0%nat := Reservation.set_status Reservation.cancelled r]>
             (reservations queued)) queued
    ∧ ∀ user', cancel_reservation user' 0 (cancel_reservation 2 0 queued).1
               = ((cancel_reservation 2 0 queued).1, NOT_FOUND).
Proof.
  destruct (cancel_reservation_once 2 0 queued) as (_ & H & _).
  apply H. reflexivity.
Defined.

(** ** The queue *)

Lemma qfilter_singleton {A} (P : A → bool) table pk r :
  table !! pk = Some r → P r = true →
  (∀ pk' r', table !! pk' = Some r' → P r' = true → pk' = pk) →
  qfilter P table = [(pk, r)].
Proof.
  intros Hr HP Honly.
  pose proof (NoDup_keys_qfilter P table) as Hnd.
  assert ((pk, r) ∈ qfilter P table) as Hin by (by apply elem_of_qfilter).
  assert (∀ x, x ∈ qfilter P table → x = (pk, r)) as Hall.
  { intros [pk' r'] [Hr' HP']%elem_of_qfilter.
    assert (pk' = pk) as -> by (by eapply Honly). congruence. }
  destruct (qfilter P table) as [|x [|y q]].
  - by apply elem_of_nil in Hin.
  - f_equal. apply Hall. by left.
  - exfalso. rewrite (Hall x), (Hall y) in Hnd
      by (repeat first [by left | right]).
    rewrite !fmap_cons in Hnd. apply NoDup_cons in Hnd as [Hnd _].
    apply Hnd. by left.
Qed.

Lemma count_where_none {A} (P : A → bool) table :
  (∀ pk r, table !! pk = Some r → P r = false) → count_where P table = 0.
Proof.
  induction table as [|x table IH]; intros Hnone; [done |].
  rewrite count_where_cons, (Hnone 0%nat x eq_refl), IH; [done |].
  intros pk r Hr. by apply (Hnone (S pk)).
Qed.

Lemma count_where_mono {A} (P Q : A → bool) table :
  (∀ x, Q x = true → P x = true) → count_where Q table ≤ count_where P table.
Proof.
  intros Himp. induction table as [|x table IH]; [done |].
  rewrite !count_where_cons. destruct (Q x) eqn:HQx.
  - rewrite (Himp x HQx). lia.
  - destruct (P x); simpl; lia.
Qed.

Lemma count_where_strict {A} (P Q : A → bool) table pk r :
  table !! pk = Some r → P r = true → Q r = false →
  (∀ x, Q x = true → P x = true) →
  count_where Q table + 1 ≤ count_where P table.
Proof.
  intros Hr HP HQ Himp. revert pk Hr.
  induction table as [|x table IH]; intros [|pk] Hr; simpl in Hr; try discriminate.
  - injection Hr as ->. rewrite !count_where_cons, HP, HQ. simpl.
    pose proof (count_where_mono P Q table Himp). lia.
  - rewrite !count_where_cons. specialize (IH pk Hr).
    destruct (Q x) eqn:HQx; [rewrite (Himp x HQx) |]; simpl;
      [lia | destruct (P x); simpl; lia].
Qed.

(** X13. Queue positions. A pending reservation has a
    [queue_position] from 1 to the [reservation_queue_length] of its
    book; the reservation that heads the queue, the one a return
    promotes, has position 1; and where [unique_together] holds, the
    view [get_reservation_queue_position] answers the borrower with that
    same position. *)
Theorem queue_position_spec db pk (r : Reservation.t) :
  reservations db !! pk = Some r →
  Reservation.status r = Reservation.pending →
  1 ≤ Reservation_queue_position db r
    ≤ Book_reservation_queue_length db (Reservation.book r)
  ∧ (next_reservation (Reservation.book r) db = Some (pk, r) →
     Reservation_queue_position db r = 1)
  ∧ (unique_together db →
     get_reservation_queue_position (Reservation.user r) (Reservation.book r) db
     = inr (Some (Reservation_queue_position db r, Reservation.pending))).
Proof.
  intros Hr Hp. unfold Reservation_queue_position, Book_reservation_queue_length.
  rewrite !qcount_qfilter.
  assert (pending_reservation_on (Reservation.book r) r = true) as Hon.
  { unfold pending_reservation_on. by rewrite Hp, !bool_decide_eq_true_2. }
  assert (count_where
            (pending_before (Reservation.book r) (Reservation.reservation_date r))
            (reservations db) + 1
          ≤ count_where (pending_reservation_on (Reservation.book r)) (reservations db))
    as Hlt.
  { apply (count_where_strict _ _ _ pk r Hr Hon).
    - unfold pending_before. rewrite Hon. simpl. apply bool_decide_eq_false. lia.
    - unfold pending_before. by intros x [? _]%andb_true_iff. }
  split_and!.
  - pose proof (count_where_mono (λ _, true)
                  (pending_before (Reservation.book r) (Reservation.reservation_date r))
                  (reservations db) (λ _ _, eq_refl)).
    unfold count_where in *. lia.
  - done.
  - intros (_ & _ & Hmin)%next_reservation_earliest.
    rewrite count_where_none; [done |].
    intros pk' r' Hr'. unfold pending_before.
    destruct (pending_reservation_on _ r') eqn:Hon'; [| done]. simpl.
    apply bool_decide_eq_false. specialize (Hmin pk' r' Hr' Hon'). lia.
  - intros Huniq. unfold get_reservation_queue_position.
    rewrite (qfilter_singleton _ _ pk r Hr).
    + simpl. by rewrite qcount_qfilter, Hp.
    + unfold pending_reservation_of. by rewrite Hp, !bool_decide_eq_true_2.
    + intros pk' r' Hr' Hof.
      apply andb_true_iff in Hof as [Hof _].
      apply andb_true_iff in Hof as [Hb%bool_decide_eq_true Hu%bool_decide_eq_true].
      apply (NoDup_lookup _ _ _ (pair_of r) Huniq).
      * apply reservation_pairs_lookup in Hr'. rewrite Hr'. unfold pair_of. congruence.
      * by apply reservation_pairs_lookup.
Qed.

Lemma queue_position_spec_witness :
  1 ≤ Reservation_queue_position queued (reserved_row (day 2) 3 0)
    ≤ Book_reservation_queue_length queued 0
  ∧ Reservation_queue_position queued (reserved_row (day 1) 2 0) = 1
  ∧ get_reservation_queue_position 3 0 queued = inr (Some (2, Reservation.pending)).
Proof.
  destruct (queue_position_spec queued 1 (reserved_row (day 2) 3 0) eq_refl eq_refl)
    as (H1 & _ & H3).
  destruct (queue_position_spec queued 0 (reserved_row (day 1) 2 0) eq_refl eq_refl)
    as (_ & H2 & _).
  split; [exact H1 |]. split; [apply H2; reflexivity |].
  etrans; [apply H3; apply (bool_decide_unpack _); vm_compute; exact I |].
  reflexivity.
Defined.

(** ** Reserving *)

(** X14. A reserve that succeeds found the book with no copy available
    and no reservation row at all for the pair, whatever its status. It
    adds one pending row, last in the table, with
    [expiry_date = now + 7 days], and changes nothing else; the position
    it reports is the [queue_position] of the new row, one more than the
    number of pending reservations of the book made before [now]. A
    second reserve of the same book by the same borrower, at any time,
    answers DUPLICATE_RESERVATION and changes nothing. *)
Theorem reserve_book_reserved now user book_id db rk position :
  (reserve_book now user book_id db).2 = RESERVED rk position →
  let after := (reserve_book now user book_id db).1 in
  (∃ book, books db !! book_id = Some book ∧ Book.available_copies book ≤ 0)
  ∧ ((book_id, user) ∉ reservation_pairs db)
  ∧ after = set_reservations (reservations db ++ [reserved_row now user book_id]) db
  ∧ rk = length (reservations db)
  ∧ position = Reservation_queue_position after (reserved_row now user book_id)
  ∧ position = count_where (pending_before book_id now) (reservations db) + 1
  ∧ ∀ now', reserve_book now' user book_id after = (after, DUPLICATE_RESERVATION).
Proof.
  intros Hout. cbv zeta.
  destruct (reserve_book_cases now user book_id db)
    as [[_ Hin] | (book & Hbook & Hav & Hloan & Hfresh & Hafter & Hres)].
  { rewrite Hout in Hin. repeat (apply elem_of_cons in Hin as [Hin | Hin]; [done |]).
    by apply elem_of_nil in Hin. }
  rewrite Hout in Hres. injection Hres as -> ->. rewrite Hafter.
  split_and!; try done.
  - by exists book.
  - rewrite qcount_qfilter, count_where_app. unfold pending_before at 2. simpl.
    rewrite (bool_decide_eq_false_2 (now < now)) by lia. rewrite andb_false_r. simpl. lia.
  - intros now'. unfold reserve_book. cbn [books set_reservations].
    rewrite Hbook, bool_decide_eq_false_2 by lia.
    assert (qexists (qfilter (open_reservation_of book_id user)
                       (reservations
                          (set_reservations
                             (reservations db ++ [reserved_row now user book_id]) db)))
            = true) as ->; [| done].
    apply qexists_qfilter. exists (length (reservations db)), (reserved_row now user book_id).
    split.
    + cbn [reservations set_reservations]. rewrite lookup_app_r by lia.
      by rewrite Nat.sub_diag.
    + unfold open_reservation_of. simpl. by rewrite !bool_decide_eq_true_2.
Qed.

Lemma reserve_book_reserved_witness :
  let after := (reserve_book (day 3) 4 0 queued).1 in
  after = set_reservations (reservations queued ++ [reserved_row (day 3) 4 0]) queued
  ∧ Reservation_queue_position after (reserved_row (day 3) 4 0) = 3
  ∧ ∀ now', reserve_book now' 4 0 after = (after, DUPLICATE_RESERVATION).
Proof.
  destruct (reserve_book_reserved (day 3) 4 0 queued 2 3 eq_refl)
    as (_ & _ & H1 & _ & H2 & _ & H3).
  split; [exact H1 |]. split; [by rewrite <- H2 | exact H3].
Defined.

(** ** Renewing *)

(** X15. [Loan.renew] answers yes exactly when the loan has been renewed
    fewer than three times, is not overdue, and its book has no pending
    reservation. It then saves the row with one renewal more and due 14
    days from now, not from the old due date, so that the loan is not
    overdue at that time. When it answers no, neither the store nor the
    row in memory changes. *)
Theorem renew_spec now pk (self : Loan.t) db :
  let res := Loan_renew now pk self db in
  (res.2.1 = true
   ↔ Loan.renewal_count self < 3 ∧ Loan.is_overdue now self = false
     ∧ qexists (qfilter (pending_reservation_on (Loan.book self)) (reservations db))
       = false)
  ∧ (res.2.1 = true →
     let renewed :=
       Loan.set_renewal_count (Loan.renewal_count self + 1)
         (Loan.set_due_date (now + timedelta 14) self) in
     res = (set_loans (<[pk := renewed]> (loans db)) db, renewed,
            (true, "Loan renewed successfully"%string))
     ∧ Loan.is_overdue now renewed = false)
  ∧ (res.2.1 = false → res.1 = (db, self)).
Proof.
  cbv zeta. unfold Loan_renew.
  destruct (Loan_can_be_renewed now db self) as [[] message] eqn:Hcan; cbn [fst snd].
  - apply Loan_can_be_renewed_true in Hcan as (Hlt & Hover & Hnone).
    split_and!; [done | | done]. intros _. split; [done |].
    unfold Loan.is_overdue. simpl. destruct (bool_decide _); [done |].
    apply bool_decide_eq_false. unfold timedelta, microseconds_per_day. lia.
  - split_and!; [| done | done]. split; [done |]. intros (Hlt & Hover & Hnone).
    exfalso. revert Hcan. unfold Loan_can_be_renewed.
    rewrite bool_decide_eq_false_2, Hover, Hnone by lia. done.
Qed.

Lemma renew_spec_witness :
  let renewed :=
    Loan.set_renewal_count (Loan.renewal_count (borrowed_loan (day 0) 1 0) + 1)
      (Loan.set_due_date (day 1 + timedelta 14) (borrowed_loan (day 0) 1 0)) in
  Loan_renew (day 1) 0 (borrowed_loan (day 0) 1 0) lent
  = (set_loans (<[0%nat := renewed]> (loans lent)) lent, renewed,
     (true, "Loan renewed successfully"%string))
  ∧ Loan.is_overdue (day 1) renewed = false.
Proof.
  apply (proj1 (proj2 (renew_spec (day 1) 0 (borrowed_loan (day 0) 1 0) lent))).
  vm_compute. reflexivity.
Defined.

(** ** The amount of a fine *)

Lemma date_mono (t t' : datetime) : t ≤ t' → date t ≤ date t'.
Proof. intros H. unfold date. by apply Z.div_le_mono. Qed.

Lemma is_overdue_true now (l : Loan.t) :
  Loan.is_overdue now l = true
  ↔ Loan.status l ≠ Loan.returned ∧ Loan.due_date l < now.
Proof.
  unfold Loan.is_overdue. case_bool_decide as Hret.
  - split; [done | by intros [? _]].
  - rewrite bool_decide_eq_true. split; [done | by intros [_ ?]].
Qed.

(** X16. [calculate_fine] returns the whole calendar days from the due
    date to now, times 1.00: never a negative amount, and 0 for a loan
    that is not overdue or is returned, which it leaves untouched. For an
    overdue loan it writes the amount to [fine_amount] and sets the
    status to [overdue], also on the due day itself, where the amount is
    0. The amount never decreases as time passes. *)
Theorem calculate_fine_spec now (l : Loan.t) :
  let res := Loan.calculate_fine now l in
  0 ≤ res.2
  ∧ res.2 = Loan.days_overdue now l * fine_per_day
  ∧ (Loan.is_overdue now l = false → res = (l, 0))
  ∧ (Loan.is_overdue now l = true →
     res.2 = (date now - date (Loan.due_date l)) * fine_per_day
     ∧ res.1 = Loan.set_status Loan.overdue (Loan.set_fine_amount res.2 l)
     ∧ (res.2 = 0 ↔ date now = date (Loan.due_date l)))
  ∧ ∀ now', now ≤ now' → res.2 ≤ (Loan.calculate_fine now' l).2.
Proof.
  cbv zeta.
  assert (∀ t, Loan.is_overdue t l = true →
            Loan.calculate_fine t l
            = (Loan.set_status Loan.overdue
                 (Loan.set_fine_amount ((date t - date (Loan.due_date l)) * fine_per_day) l),
               (date t - date (Loan.due_date l)) * fine_per_day)
            ∧ 0 ≤ date t - date (Loan.due_date l)) as Hover.
  { intros t Ht. pose proof Ht as [Hret Hdue]%is_overdue_true.
    unfold Loan.calculate_fine, Loan.days_overdue. rewrite Ht.
    rewrite (bool_decide_eq_false_2 _ Hret). simpl.
    split; [| pose proof (date_mono (Loan.due_date l) t); lia].
    destruct (bool_decide (Loan.status l = Loan.overdue)) eqn:Hst; simpl; [| done].
    apply bool_decide_eq_true in Hst. destruct l. simpl in *. by subst. }
  assert (∀ t, Loan.is_overdue t l = false → Loan.calculate_fine t l = (l, 0)) as Hnot.
  { intros t Ht. unfold Loan.calculate_fine. by rewrite Ht. }
  destruct (Loan.is_overdue now l) eqn:Hnow.
  - destruct (Hover now Hnow) as [Heq Hnn]. rewrite Heq. cbn [fst snd].
    unfold Loan.days_overdue. rewrite Hnow. simpl. unfold fine_per_day.
    split_and!; try done; [lia | split; [done | split; [done | lia]] |].
    intros now' Hle. apply is_overdue_true in Hnow as [Hret Hdue].
    assert (Loan.is_overdue now' l = true) as Hnow'
      by (apply is_overdue_true; split; [done | lia]).
    destruct (Hover now' Hnow') as [-> _]. cbn [snd].
    pose proof (date_mono now now' Hle). unfold fine_per_day. lia.
  - rewrite (Hnot now Hnow). cbn [fst snd]. unfold Loan.days_overdue. rewrite Hnow.
    split_and!; try done. intros now' Hle.
    destruct (Loan.is_overdue now' l) eqn:Hnow'.
    + destruct (Hover now' Hnow') as [-> Hnn]. cbn [snd]. unfold fine_per_day. lia.
    + by rewrite (Hnot now' Hnow').
Qed.

Lemma calculate_fine_spec_witness :
  (Loan.calculate_fine (day 20) (borrowed_loan (day 0) 1 0)).2 = 6 * fine_per_day
  ∧ (Loan.calculate_fine (day 20) (borrowed_loan (day 0) 1 0)).2
    ≤ (Loan.calculate_fine (day 21) (borrowed_loan (day 0) 1 0)).2.
Proof.
  destruct (calculate_fine_spec (day 20) (borrowed_loan (day 0) 1 0))
    as (_ & _ & _ & H1 & H2).
  split.
  - destruct (H1 eq_refl) as [-> _]. reflexivity.
  - apply H2. vm_compute. discriminate.
Defined.

Lemma for_each_preserves_in {R} (body : R → DB → DB * option Exception)
    (I : DB → DB → Prop) rows db :
  (∀ db', I db' db') →
  (∀ db1 db2 db3, I db1 db2 → I db2 db3 → I db1 db3) →
  (∀ r db', r ∈ rows → I db' (body r db').1) →
  I db (for_each body rows db).1.
Proof.
  intros Hrefl Htrans. revert db.
  induction rows as [|r rows IH]; intros db Hbody; simpl; [done |].
  pose proof (Hbody r db ltac:(left)) as Hstep.
  destruct (body r db) as [db' [e |]]; simpl in *; [done |].
  apply (Htrans _ db'); [done |]. apply IH. intros r' d Hr'. apply Hbody. by right.
Qed.

Lemma sweep_loan_fines_count now user pk pk' (l' : Loan.t) b' db :
  pk' ≠ pk ∨ (Loan.calculate_fine now l').2 ≤ 0 →
  count_where (fine_for user pk) (fines (sweep_loan now user (pk', l', b') db).1)
  = count_where (fine_for user pk) (fines db).
Proof.
  intros Hwhy. unfold sweep_loan.
  destruct (bool_decide (Loan.status l' = Loan.active) && Loan.is_overdue now l');
    [| done].
  destruct (Loan.calculate_fine now l') as [l'' amount]. cbn [snd] in Hwhy.
  case_bool_decide as Hpos; [| done].
  destruct Hwhy as [Hne | Hle]; [| lia].
  destruct (Fine_get_or_create _ _ _ _) as [e | [[[db' fpk] fine] created]] eqn:Hgoc;
    [done |].
  apply Fine_get_or_create_effect in Hgoc as (_ & _ & _ & _ & Hf).
  destruct created; simpl.
  - destruct Hf as (_ & -> & _). rewrite count_where_app. unfold fine_for at 2. simpl.
    rewrite (bool_decide_eq_false_2 (pk' = pk)) by done.
    rewrite andb_false_r. simpl. lia.
  - destruct Hf as (-> & Hone).
    assert (fines db !! fpk = Some fine) as Hfine.
    { apply (elem_of_qfilter (fine_for user pk')). rewrite Hone. by left. }
    unfold save. rewrite (count_where_insert _ _ _ fine) by done.
    replace (fine_for user pk (Fine.set_amount amount fine)) with (fine_for user pk fine)
      by done.
    lia.
Qed.

(** X17. A loan that [my_loans] finds past due on the calendar day of
    its due date is flipped to [overdue] with [fine_amount] 0, and the
    sweep adds no fine for it: the borrower has no more fines on that
    loan than before. *)
Theorem sweep_on_due_day now user db pk (l : Loan.t) b :
  loans db !! pk = Some l → Loan.user l = user →
  books db !! Loan.book l = Some b →
  Loan.status l = Loan.active →
  Loan.due_date l < now → date now = date (Loan.due_date l) →
  (my_loans now user db).2 = RENDERED →
  loans (my_loans now user db).1 !! pk
  = Some (Loan.set_status Loan.overdue (Loan.set_fine_amount 0 l))
  ∧ count_where (fine_for user pk) (fines (my_loans now user db).1)
    = count_where (fine_for user pk) (fines db).
Proof.
  intros Hl Hu Hb Hact Hdue Hday Hout.
  assert (Loan.is_overdue now l = true) as Hover
    by (apply is_overdue_true; split; [congruence | done]).
  destruct (calculate_fine_spec now l) as (_ & _ & _ & Hcalc & _).
  destruct (Hcalc Hover) as (Hamount & Hrow & _).
  rewrite Hday, Z.sub_diag, Z.mul_0_l in Hamount. rewrite Hamount in Hrow.
  split.
  - apply my_loans_rendered in Hout.
    destruct (my_loans_spec now user db) as (-> & _ & _ & _ & _ & _ & Hrows).
    rewrite finish_fst. rewrite Hout in Hrows.
    rewrite (Hrows pk l b) by (by apply elem_of_loans_of_user).
    unfold sweep_row. by rewrite Hact, Hover, Hrow.
  - unfold my_loans. rewrite finish_fst.
    apply (for_each_preserves_in _
             (λ d d', count_where (fine_for user pk) (fines d')
                      = count_where (fine_for user pk) (fines d))).
    + done.
    + intros d1 d2 d3 H12 H23. congruence.
    + intros [[pk' l'] b'] d [Hl' _]%elem_of_loans_of_user.
      apply sweep_loan_fines_count.
      destruct (decide (pk' = pk)) as [-> | Hne]; [right | by left].
      assert (l' = l) as -> by congruence. rewrite Hamount. done.
Qed.

Lemma sweep_on_due_day_witness :
  loans (my_loans (day 14 + 1) 1 lent).1 !! 0%nat
  = Some (Loan.set_status Loan.overdue
            (Loan.set_fine_amount 0 (borrowed_loan (day 0) 1 0)))
  ∧ count_where (fine_for 1 0) (fines (my_loans (day 14 + 1) 1 lent).1)
    = count_where (fine_for 1 0) (fines lent).
Proof.
  apply (sweep_on_due_day (day 14 + 1) 1 lent 0 (borrowed_loan (day 0) 1 0)
           (a_book 1 0)); reflexivity.
Defined.

(** ** The check of the model and the check of the view *)

Lemma qfilter_at_most_one {A} (P : A → bool) table :
  (∀ pk pk' r r', table !! pk = Some r → table !! pk' = Some r' →
     P r = true → P r' = true → pk = pk') →
  qget (qfilter P table) ≠ inl MultipleObjectsReturned.
Proof.
  intros Honly. pose proof (NoDup_keys_qfilter P table) as Hnd.
  destruct (qfilter P table) as [|[pk r] [|[pk' r'] q]] eqn:Hq; simpl; try done.
  exfalso.
  assert ((pk, r) ∈ qfilter P table) as [Hr HP]%elem_of_qfilter
    by (rewrite Hq; by left).
  assert ((pk', r') ∈ qfilter P table) as [Hr' HP']%elem_of_qfilter
    by (rewrite Hq; right; by left).
  rewrite (Honly pk pk' r r' Hr Hr' HP HP') in Hnd.
  rewrite !fmap_cons in Hnd. apply NoDup_cons in Hnd as [Hnd _].
  apply Hnd. by left.
Qed.

Lemma unique_open_reservation book_id user db :
  unique_together db →
  qget (qfilter (open_reservation_of book_id user) (reservations db))
  ≠ inl MultipleObjectsReturned.
Proof.
  intros Huniq. apply qfilter_at_most_one. intros pk pk' r r' Hr Hr' HP HP'.
  apply andb_true_iff in HP as [HP _], HP' as [HP' _].
  apply reservation_pair_true in HP, HP'.
  apply (NoDup_lookup _ _ _ (book_id, user) Huniq).
  - apply reservation_pairs_lookup in Hr. by rewrite Hr, HP.
  - apply reservation_pairs_lookup in Hr'. by rewrite Hr', HP'.
Qed.

(** X18. Where [unique_together] holds and the borrower's [loan_limit]
    is at most 5, a yes of [Book.can_be_borrowed_by] is a promise that
    [borrow_book] keeps: the view lends the book. *)
Theorem can_be_borrowed_then_borrowed now user book_id db book profile :
  books db !! book_id = Some book →
  userprofiles db !! user = Some profile →
  UserProfile.loan_limit profile ≤ 5 →
  unique_together db →
  Book_can_be_borrowed_by db book_id book user = inr (true, "Can borrow"%string) →
  (borrow_book now user book_id db).2 = BORROWED (length (loans db)).
Proof.
  intros Hbook Hprofile Hlimit Huniq. unfold Book_can_be_borrowed_by.
  unfold Book.is_available. case_bool_decide as Hav; simpl; [| done].
  destruct (qexists (qfilter (loan_of _ _) _)) eqn:Hloan; [done |].
  rewrite Hprofile. case_bool_decide as Hcount; [done |].
  destruct (qexists (qfilter (pending_fine_of _) _)) eqn:Hfine; [done |]. intros _.
  destruct (borrow_book_cases now user book_id db)
    as [[_ Hin] | (? & _ & _ & _ & _ & _ & _ & _ & _ & [Hok | Hraise])]; [| done |].
  - exfalso. revert Hin. unfold borrow_book.
    rewrite Hbook, bool_decide_eq_false_2, Hloan, Hfine, bool_decide_eq_false_2 by lia.
    cbn [create]. intros Hin.
    destruct (qget _) as [[] | [pk r]]; cbn [snd] in Hin;
      try destruct (next_reservation _ _) as [[pk' r'] |];
      try case_bool_decide; cbn [snd] in Hin;
      repeat (apply elem_of_cons in Hin as [Hin | Hin]; [done |]);
      by apply elem_of_nil in Hin.
  - exfalso. revert Hraise. unfold borrow_book.
    rewrite Hbook, bool_decide_eq_false_2, Hloan, Hfine, bool_decide_eq_false_2 by lia.
    cbn [create]. unfold set_books, set_loans. cbn [reservations].
    pose proof (unique_open_reservation book_id user db Huniq) as Hone.
    destruct (qget _) as [[] | [pk r]]; try done; cbn [snd];
      try destruct (next_reservation _ _) as [[pk' r'] |];
      try case_bool_decide; done.
Qed.

Lemma can_be_borrowed_then_borrowed_witness :
  (borrow_book (day 1) 1 0 shelf).2 = BORROWED 0.
Proof.
  apply (can_be_borrowed_then_borrowed (day 1) 1 0 shelf (a_book 1 1)
           (UserProfile.mk 3)); try reflexivity.
  - vm_compute. discriminate.
  - apply NoDup_nil_2.
Defined.

(** ** The total of the pending fines *)

Lemma fold_left_add xs a : fold_left Z.add xs a = a + foldr Z.add 0 xs.
Proof.
  revert a. induction xs as [|x xs IH]; intros a; simpl; [lia |].
  rewrite IH. lia.
Qed.

Lemma py_sum_Permutation xs ys : xs ≡ₚ ys → py_sum xs = py_sum ys.
Proof.
  intros H. unfold py_sum. rewrite !fold_left_add. f_equal.
  induction H; simpl; lia.
Qed.

Lemma filter_Permutation {A} (f : A → bool) l l' :
  l ≡ₚ l' → List.filter f l ≡ₚ List.filter f l'.
Proof.
  induction 1 as [|x l l' _ IH|x y l|l1 l2 l3 _ IH1 _ IH2]; simpl.
  - done.
  - destruct (f x); [by constructor | done].
  - destruct (f x), (f y); try done. apply Permutation_swap.
  - by etrans.
Qed.

Lemma filter_filter_and {A} (f g : A → bool) l :
  List.filter f (List.filter g l) = List.filter (λ x, g x && f x) l.
Proof.
  induction l as [|x l IH]; simpl; [done |].
  destruct (g x); simpl; [destruct (f x); by rewrite IH | done].
Qed.

Lemma filter_all {A} (f : A → bool) l :
  (∀ x, x ∈ l → f x = true) → List.filter f l = l.
Proof.
  induction l as [|x l IH]; intros Hall; simpl; [done |].
  rewrite (Hall x) by left. f_equal. apply IH. intros y Hy. apply Hall. by right.
Qed.

(** X19. The two totals of a borrower's pending fines agree: the
    [total_pending] that [my_fines] shows is the [total_fines] of the
    profile, provided every fine of the borrower is on a loan of the
    store whose book is in the store. A total other than 0 means that
    the borrower has a pending fine. *)
Theorem total_fines_agree user db :
  (fines_resolve user db → my_fines user db = UserProfile_total_fines db user)
  ∧ (UserProfile_total_fines db user ≠ 0 → has_pending_fine user db).
Proof.
  split.
  - intros Hres. unfold my_fines, UserProfile_total_fines.
    apply py_sum_Permutation, fmap_Permutation.
    etrans; [apply filter_Permutation, order_by_Permutation |].
    symmetry. etrans; [apply order_by_Permutation |].
    assert (select_related_loan_book db
              (qfilter (λ f, bool_decide (Fine.user f = user)) (fines db))
            = qfilter (λ f, bool_decide (Fine.user f = user)) (fines db)) as ->.
    { apply filter_all.
      intros [pk f] [Hf Hu%bool_decide_eq_true]%elem_of_qfilter.
      destruct (Hres pk f Hf Hu) as (l & b & Hl & Hb). simpl. rewrite Hl.
      apply bool_decide_eq_true. by eexists. }
    unfold qfilter. rewrite filter_filter_and.
    erewrite filter_ext; [done |]. intros [pk f]. done.
  - intros Hne. apply has_pending_fine_qexists.
    destruct (qfilter (pending_fine_of user) (fines db)) eqn:Hq; [| done].
    exfalso. apply Hne. unfold UserProfile_total_fines. by rewrite Hq.
Qed.

Lemma total_fines_agree_witness :
  my_fines 1 swept = UserProfile_total_fines swept 1
  ∧ has_pending_fine 1 swept.
Proof.
  destruct (total_fines_agree 1 swept) as [H1 H2]. split.
  - apply H1. intros [|pk] f Hf Hu; vm_compute in Hf; [| discriminate].
    injection Hf as <-. by eexists _, _.
  - apply H2. vm_compute. discriminate.
Defined.

(** ** The admin actions on loans *)

Lemma elem_of_selected_rows {A} selected (table : list A) pk r :
  (pk, r) ∈ selected_rows selected table ↔ pk ∈ selected ∧ table !! pk = Some r.
Proof.
  unfold selected_rows. rewrite list_elem_of_omap. split.
  - intros (pk' & Hin & Hsome). destruct (table !! pk') eqn:Hpk; [| done].
    by injection Hsome as <- <-.
  - intros [Hin Hpk]. exists pk. by rewrite Hpk.
Qed.

Lemma NoDup_selected_rows {A} selected (table : list A) :
  NoDup selected → NoDup (selected_rows selected table).*1.
Proof.
  induction 1 as [|pk sel Hnotin _ IH]; [constructor |].
  unfold selected_rows in *. csimpl.
  destruct (table !! pk) as [r|] eqn:Hpk; csimpl; [| done].
  constructor; [| done].
  intros ([pk' r'] & Heq & Hin)%list_elem_of_fmap. simpl in Heq. subst pk'.
  by apply (elem_of_selected_rows sel table) in Hin as [Hin _].
Qed.

(** A join that finds the book of every row keeps every row. *)
Lemma select_related_all {A} (book_of : A → nat) db (q : list (nat * A)) :
  (∀ pk r, (pk, r) ∈ q → is_Some (books db !! book_of r)) →
  (select_related book_of db q).*1 = q.
Proof.
  unfold select_related. induction q as [|[pk r] q IH]; intros Hall; csimpl; [done |].
  destruct (Hall pk r ltac:(left)) as [b Hb]. rewrite Hb. csimpl.
  f_equal. apply IH. intros pk' r' Hin. apply (Hall pk' r'). by right.
Qed.

Lemma admin_queryset_rows joined selected db :
  loans_resolve db →
  (admin_queryset joined selected db).*1 = selected_rows selected (loans db).
Proof.
  intros Hfk. unfold admin_queryset. destruct joined.
  - rewrite <- list_fmap_compose.
    rewrite <- (select_related_all Loan.book db (selected_rows selected (loans db))) at 2.
    + done.
    + intros pk l [_ Hl]%elem_of_selected_rows. by apply (Hfk pk l).
  - rewrite <- list_fmap_compose. apply list_fmap_id.
Qed.

Lemma elem_of_admin_queryset joined selected db pk l c :
  (pk, l, c) ∈ admin_queryset joined selected db →
  pk ∈ selected ∧ loans db !! pk = Some l
  ∧ match c with
    | Some b => books db !! Loan.book l = Some b
    | None => joined = false
    end.
Proof.
  unfold admin_queryset. destruct joined.
  - intros ([[pk' l'] b] & [= -> -> ->] & Hin)%list_elem_of_fmap.
    apply elem_of_select_related in Hin as [Hin Hb]. simpl in Hb.
    by apply elem_of_selected_rows in Hin as [Hin Hl].
  - intros ([pk' l'] & [= -> -> ->] & Hin)%list_elem_of_fmap.
    by apply elem_of_selected_rows in Hin as [Hin Hl].
Qed.

Lemma loans_resolve_three_loans : loans_resolve three_loans.
Proof.
  intros [|[|[|pk]]] l Hl; vm_compute in Hl; try discriminate;
    injection Hl as <-; vm_compute; by eexists.
Qed.

(** The loop of [mark_as_returned] stops at the first active row and
    writes nothing. *)
Lemma admin_return_loop rows db :
  let r := for_each admin_return_loan rows db in
  r.1 = db
  ∧ (r.2 = Some NameError
     ↔ ∃ pk l c, (pk, l, c) ∈ rows ∧ Loan.status l = Loan.active)
  ∧ (r.2 = None
     ↔ ∀ pk l c, (pk, l, c) ∈ rows → Loan.status l ≠ Loan.active).
Proof.
  induction rows as [|[[pk0 l0] c0] rows (IH1 & IH2 & IH3)]; cbv zeta in *.
  { simpl. split_and!; [done | |].
    - split; [done |]. by intros (pk & l & c & ?%elem_of_nil & _).
    - split; [| done]. by intros _ pk l c ?%elem_of_nil. }
  rewrite for_each_cons. unfold admin_return_loan at 1 3 5.
  destruct (decide (Loan.status l0 = Loan.active)) as [Hact | Hact].
  - rewrite bool_decide_eq_true_2 by done. simpl. split_and!; [done | |].
    + split; [| done]. intros _. exists pk0, l0, c0. split; [by left | done].
    + split; [done |]. intros Hnone. by destruct (Hnone pk0 l0 c0 ltac:(left)).
  - rewrite bool_decide_eq_false_2 by done. split_and!; [done | |].
    + rewrite IH2. split.
      * intros (pk & l & c & Hin & Hl). exists pk, l, c. split; [by right | done].
      * intros (pk & l & c & [[= -> -> ->] | Hin]%elem_of_cons & Hl); [done |].
        by exists pk, l, c.
    + rewrite IH3. split.
      * intros Hnone pk l c [[= -> -> ->] | Hin]%elem_of_cons; [done |].
        by eapply Hnone.
      * intros Hnone pk l c Hin. eapply Hnone. by right.
Qed.

Lemma elem_of_admin_queryset_2 joined selected db pk l :
  loans_resolve db → pk ∈ selected → loans db !! pk = Some l →
  ∃ c, (pk, l, c) ∈ admin_queryset joined selected db.
Proof.
  intros Hfk Hin Hl.
  assert ((pk, l) ∈ (admin_queryset joined selected db).*1) as Hkey.
  { rewrite admin_queryset_rows by done. by apply elem_of_selected_rows. }
  apply list_elem_of_fmap in Hkey as ([[pk' l'] c] & [= <- <-] & Hkey).
  by exists c.
Qed.

(** X20. [LoanAdmin.mark_as_returned] never returns a loan. In a store
    where every loan is on a book of the store, whatever the selection,
    the action leaves the store as it is; it raises [NameError] exactly
    when a selected loan is [active], and ends without an exception
    exactly when none is. *)
Theorem mark_as_returned_spec joined selected db :
  loans_resolve db →
  let r := mark_as_returned joined selected db in
  r.1 = db
  ∧ (r.2 = Some NameError
     ↔ ∃ pk l, pk ∈ selected ∧ loans db !! pk = Some l
               ∧ Loan.status l = Loan.active)
  ∧ (r.2 = None
     ↔ ∀ pk l, pk ∈ selected → loans db !! pk = Some l →
         Loan.status l ≠ Loan.active).
Proof.
  intros Hfk. unfold mark_as_returned.
  destruct (admin_return_loop (admin_queryset joined selected db) db)
    as (H1 & H2 & H3).
  cbv zeta in *. split_and!; [done | |].
  - rewrite H2. split.
    + intros (pk & l & c & Hin & Hact).
      apply elem_of_admin_queryset in Hin as (Hin & Hl & _). by exists pk, l.
    + intros (pk & l & Hin & Hl & Hact).
      destruct (elem_of_admin_queryset_2 joined selected db pk l Hfk Hin Hl) as [c Hc].
      by exists pk, l, c.
  - rewrite H3. split.
    + intros Hnone pk l Hin Hl.
      destruct (elem_of_admin_queryset_2 joined selected db pk l Hfk Hin Hl) as [c Hc].
      by eapply Hnone.
    + intros Hnone pk l c Hin.
      apply elem_of_admin_queryset in Hin as (Hin & Hl & _). by eapply Hnone.
Qed.

Lemma mark_as_returned_spec_witness :
  let r := mark_as_returned true [0; 2]%nat three_loans in
  r.1 = three_loans
  ∧ (r.2 = Some NameError
     ↔ ∃ pk l, pk ∈ [0; 2]%nat ∧ loans three_loans !! pk = Some l
               ∧ Loan.status l = Loan.active)
  ∧ (r.2 = None
     ↔ ∀ pk l, pk ∈ [0; 2]%nat → loans three_loans !! pk = Some l →
         Loan.status l ≠ Loan.active).
Proof.
  apply (mark_as_returned_spec true [0; 2]%nat three_loans).
  apply loans_resolve_three_loans.
Defined.

Lemma calculate_fine_keys now (l : Loan.t) :
  Loan.user (Loan.calculate_fine now l).1 = Loan.user l
  ∧ Loan.book (Loan.calculate_fine now l).1 = Loan.book l.
Proof.
  unfold Loan.calculate_fine.
  destruct (Loan.is_overdue now l && _); [| done]. simpl.
  by destruct (negb _).
Qed.

Lemma fines_unique_qget u l db :
  fines_unique db →
  qget (qfilter (fine_for u l) (fines db)) ≠ inl MultipleObjectsReturned.
Proof.
  intros Huniq. specialize (Huniq u l). rewrite <- qcount_qfilter in Huniq.
  unfold qcount in Huniq.
  destruct (qfilter (fine_for u l) (fines db)) as [|r [|r' q]]; simpl in *;
    [done | done | lia].
Qed.

(** One round of the loop of [calculate_fines]. *)
Lemma admin_fine_loan_effect now pk l c db :
  is_Some (related_book c l db) → fines_unique db →
  let r := admin_fine_loan now (pk, l, c) db in
  r.2 = None ∧ books r.1 = books db ∧ loans r.1 = loans db
  ∧ reservations r.1 = reservations db
  ∧ (∃ new, fines r.1 = fines db ++ new) ∧ fines_unique r.1
  ∧ (0 < (Loan.calculate_fine now l).2 →
     1 ≤ count_where (fine_for (Loan.user l) pk) (fines r.1)).
Proof.
  intros [book Hbook] Huniq. unfold admin_fine_loan.
  destruct (calculate_fine_keys now l) as [Huser Hbk].
  destruct (Loan.calculate_fine now l) as [l' amount]. cbn [fst snd] in *.
  case_bool_decide as Hpos; simpl.
  2: { split_and!; try done. exists []. by rewrite app_nil_r. }
  replace (related_book c l' db) with (Some book)
    by (destruct c; [done |]; simpl in *; by rewrite Hbk).
  rewrite Huser.
  pose proof (fines_unique_qget (Loan.user l) pk db Huniq) as Hone.
  destruct (Fine_get_or_create _ _ _ _) as [e | [[[db' fpk] fine] created]] eqn:Hgoc.
  { exfalso. unfold Fine_get_or_create in Hgoc.
    destruct (qfilter (fine_for (Loan.user l) pk) (fines db)) as [|[? ?] [|? ?]];
      simpl in *; done. }
  apply Fine_get_or_create_effect in Hgoc as (Hb & Hl & Hr & Hu & Hf).
  simpl. destruct created.
  - destruct Hf as (Hnone & Hfines & _). split_and!; try done.
    + by eexists.
    + intros u' l0. rewrite Hfines, count_where_app.
      destruct (fine_for u' l0 _) eqn:Hfor; simpl; [| specialize (Huniq u' l0); lia].
      apply andb_true_iff in Hfor as [<-%bool_decide_eq_true <-%bool_decide_eq_true].
      simpl. rewrite <- qcount_qfilter, Hnone. done.
    + intros _. rewrite Hfines, count_where_app. unfold fine_for at 2. simpl.
      rewrite !bool_decide_eq_true_2 by done. simpl.
      unfold count_where. lia.
  - destruct Hf as (-> & Hfound). split_and!; try done.
    + exists []. by rewrite app_nil_r.
    + intros _. rewrite <- qcount_qfilter, Hfound. done.
Qed.

(** The loop of [calculate_fines] over rows whose book can be read. *)
Lemma admin_fine_loop now rows db :
  (∀ pk l c, (pk, l, c) ∈ rows → is_Some (related_book c l db)) →
  fines_unique db →
  let r := for_each (admin_fine_loan now) rows db in
  r.2 = None ∧ books r.1 = books db ∧ loans r.1 = loans db
  ∧ reservations r.1 = reservations db
  ∧ (∃ new, fines r.1 = fines db ++ new) ∧ fines_unique r.1
  ∧ ∀ pk l c, (pk, l, c) ∈ rows → 0 < (Loan.calculate_fine now l).2 →
      1 ≤ count_where (fine_for (Loan.user l) pk) (fines r.1).
Proof.
  revert db. induction rows as [|[[pk0 l0] c0] rows IH]; intros db Hbook Huniq.
  { simpl. split_and!; try done; [by exists []; rewrite app_nil_r |].
    by intros pk l c ?%elem_of_nil. }
  rewrite for_each_cons.
  destruct (admin_fine_loan_effect now pk0 l0 c0 db (Hbook _ _ _ ltac:(left)) Huniq)
    as (He & Hb & Hl & Hr & [new Hf] & Huniq' & Hfine).
  destruct (admin_fine_loan now (pk0, l0, c0) db) as [db' e]. simpl in *. subst e.
  destruct (IH db') as (He' & Hb' & Hl' & Hr' & [new' Hf'] & Huniq'' & Hfine').
  - intros pk l c Hin. destruct (Hbook pk l c ltac:(by right)) as [b Hbk].
    exists b. destruct c; [done |]. simpl in *. by rewrite Hb.
  - done.
  - split_and!; try congruence.
    + exists (new ++ new'). by rewrite Hf', Hf, app_assoc.
    + intros pk l c [[= -> -> ->] | Hin]%elem_of_cons Hpos; [| by eapply Hfine'].
      specialize (Hfine Hpos). rewrite Hf'.
      unfold count_where in *. rewrite List.filter_app, length_app. lia.
Qed.

(** X22. [LoanAdmin.calculate_fines] on a selection of loans, in a store
    where every loan is on a book of the store and no (borrower, loan)
    pair has two fines: the action does not raise; it leaves the books,
    the loans and the reservations as they are, so a loan it finds past
    due is not made [overdue] in the store; the fines that were there
    are all there unchanged, in their places, so the amount of a fine
    that exists is never brought up to date; still no pair has two
    fines; and every selected loan for which [calculate_fine] is above
    zero has its one fine. *)
Theorem calculate_fines_spec now joined selected db :
  loans_resolve db → fines_unique db →
  let r := calculate_fines now joined selected db in
  r.2 = None ∧ books r.1 = books db ∧ loans r.1 = loans db
  ∧ reservations r.1 = reservations db
  ∧ (∃ new, fines r.1 = fines db ++ new) ∧ fines_unique r.1
  ∧ ∀ pk l, pk ∈ selected → loans db !! pk = Some l →
      0 < (Loan.calculate_fine now l).2 →
      count_where (fine_for (Loan.user l) pk) (fines r.1) = 1.
Proof.
  intros Hfk Huniq. unfold calculate_fines.
  destruct (admin_fine_loop now (admin_queryset joined selected db) db)
    as (He & Hb & Hl & Hr & Hf & Huniq' & Hfine); [| done |].
  - intros pk l c Hin. apply elem_of_admin_queryset in Hin as (_ & Hl & Hc).
    destruct c as [b |]; [by eexists |]. simpl. by apply (Hfk pk l).
  - split_and!; try done. intros pk l Hin Hloan Hpos.
    assert (∃ c, (pk, l, c) ∈ admin_queryset joined selected db) as [c Hrow].
    { assert ((pk, l) ∈ (admin_queryset joined selected db).*1) as Hkey.
      { rewrite admin_queryset_rows by done. by apply elem_of_selected_rows. }
      apply list_elem_of_fmap in Hkey as ([[pk' l'] c] & [= <- <-] & Hkey).
      by exists c. }
    specialize (Hfine pk l c Hrow Hpos). specialize (Huniq' (Loan.user l) pk). lia.
Qed.

Lemma calculate_fines_spec_witness :
  let r := calculate_fines (day 20) true [0; 2]%nat three_loans in
  r.2 = None ∧ books r.1 = books three_loans ∧ loans r.1 = loans three_loans
  ∧ reservations r.1 = reservations three_loans
  ∧ (∃ new, fines r.1 = fines three_loans ++ new) ∧ fines_unique r.1
  ∧ ∀ pk l, pk ∈ [0; 2]%nat → loans three_loans !! pk = Some l →
      0 < (Loan.calculate_fine (day 20) l).2 →
      count_where (fine_for (Loan.user l) pk) (fines r.1) = 1.
Proof.
  apply (calculate_fines_spec (day 20) true [0; 2]%nat three_loans).
  - apply loans_resolve_three_loans.
  - intros u l. vm_compute. discriminate.
Defined.

(** ** The availability a borrower is told *)

(** X23. What [check_book_availability] reports is what the views act
    on. It answers 404 exactly when [borrow_book] and [reserve_book]
    answer NOT_FOUND; it reports [is_available] false exactly when
    [borrow_book] answers UNAVAILABLE, and true exactly when
    [reserve_book] answers BOOK_AVAILABLE. *)
Theorem check_book_availability_agrees now user book_id db :
  (check_book_availability book_id db = None
   ↔ (borrow_book now user book_id db).2 = NOT_FOUND)
  ∧ (check_book_availability book_id db = None
     ↔ (reserve_book now user book_id db).2 = NOT_FOUND)
  ∧ ((∃ a t, check_book_availability book_id db = Some (a, t, false))
     ↔ (borrow_book now user book_id db).2 = UNAVAILABLE)
  ∧ ((∃ a t, check_book_availability book_id db = Some (a, t, true))
     ↔ (reserve_book now user book_id db).2 = BOOK_AVAILABLE).
Proof.
  assert (∀ book, (borrow_book now user book_id db).2 = UNAVAILABLE →
            books db !! book_id = Some book → Book.available_copies book ≤ 0) as Hb.
  { intros book Hout Hbook. unfold borrow_book in Hout. rewrite Hbook in Hout.
    case_bool_decide; [done |]. exfalso.
    destruct (qexists (qfilter (loan_of _ _) _)); [done |].
    destruct (qexists (qfilter (pending_fine_of _) _)); [done |].
    case_bool_decide; [done |]. unfold create in Hout.
    destruct (qget _) as [[] | [? ?]]; done. }
  assert (∀ book, (reserve_book now user book_id db).2 = BOOK_AVAILABLE →
            books db !! book_id = Some book → 0 < Book.available_copies book) as Hr.
  { intros book Hout Hbook. unfold reserve_book in Hout. rewrite Hbook in Hout.
    case_bool_decide; [done |]. exfalso.
    destruct (qexists (qfilter (open_reservation_of _ _) _)); [done |].
    destruct (qexists (qfilter (loan_of _ _) _)); [done |].
    by destruct (Reservation_create _ _) as [e | [? ?]]. }
  assert ((borrow_book now user book_id db).2 = NOT_FOUND →
          books db !! book_id = None) as Hbn.
  { intros Hout. unfold borrow_book in Hout.
    destruct (books db !! book_id) as [book |]; [| done]. exfalso.
    case_bool_decide; [done |].
    destruct (qexists (qfilter (loan_of _ _) _)); [done |].
    destruct (qexists (qfilter (pending_fine_of _) _)); [done |].
    case_bool_decide; [done |]. unfold create in Hout.
    destruct (qget _) as [[] | [? ?]]; done. }
  assert ((reserve_book now user book_id db).2 = NOT_FOUND →
          books db !! book_id = None) as Hrn.
  { intros Hout. unfold reserve_book in Hout.
    destruct (books db !! book_id) as [book |]; [| done]. exfalso.
    case_bool_decide; [done |].
    destruct (qexists (qfilter (open_reservation_of _ _) _)); [done |].
    destruct (qexists (qfilter (loan_of _ _) _)); [done |].
    by destruct (Reservation_create _ _) as [e | [? ?]]. }
  unfold check_book_availability.
  destruct (books db !! book_id) as [book |] eqn:Hbook.
  - split_and!; split; try done.
    + by intros ?%Hbn.
    + by intros ?%Hrn.
    + intros (a & t & [= <- <- Hav]). apply bool_decide_eq_false in Hav.
      unfold borrow_book. rewrite Hbook. rewrite bool_decide_eq_true_2; [done | lia].
    + intros Hout. specialize (Hb book Hout eq_refl). eexists _, _.
      rewrite bool_decide_eq_false_2; [done | lia].
    + intros (a & t & [= <- <- Hav]). apply bool_decide_eq_true in Hav.
      unfold reserve_book. rewrite Hbook. by rewrite bool_decide_eq_true_2.
    + intros Hout. specialize (Hr book Hout eq_refl). eexists _, _.
      by rewrite bool_decide_eq_true_2.
  - unfold borrow_book, reserve_book. rewrite Hbook.
    split_and!; split; try done; by intros (a & t & ?).
Qed.

(** ** Overdue loans and the loan limit *)

Lemma sweep_row_active_count now user (l : Loan.t) :
  active_loan_of_user user (sweep_row now l)
  = active_loan_of_user user l && negb (Loan.is_overdue now l).
Proof.
  destruct (sweep_row_keys now l) as (_ & Hu & _).
  unfold active_loan_of_user. rewrite Hu.
  destruct (decide (Loan.status l = Loan.active)) as [Hact | Hact].
  - destruct (Loan.is_overdue now l) eqn:Hover.
    + rewrite (sweep_row_overdue now l Hact Hover), Hact.
      rewrite (bool_decide_eq_false_2 (Loan.overdue = Loan.active)) by done.
      by rewrite !andb_false_r.
    + unfold sweep_row. rewrite Hover, andb_false_r. by rewrite andb_true_r.
  - unfold sweep_row. rewrite (bool_decide_eq_false_2 _ Hact). simpl.
    rewrite (bool_decide_eq_false_2 _ Hact). by rewrite !andb_false_r.
Qed.

Lemma loans_resolve_lent : loans_resolve lent.
Proof.
  intros [|pk] l Hl; vm_compute in Hl; [| discriminate].
  injection Hl as <-. vm_compute. by eexists.
Qed.

(** X24. An overdue loan takes no place under the loan limit. After an
    overdue sweep that rendered, in a store where every loan is on a book
    of the store, the [active_loans_count] of the borrower is the number
    of the borrower's active loans that were not past due: the count
    that [borrow_book] and [can_be_borrowed_by] compare with the limit
    drops by one for every loan the sweep flips. *)
Theorem sweep_frees_loan_slots now user db :
  loans_resolve db →
  (my_loans now user db).2 = RENDERED →
  UserProfile_active_loans_count (my_loans now user db).1 user
  = count_where (λ l, active_loan_of_user user l && negb (Loan.is_overdue now l))
      (loans db).
Proof.
  intros Hfk Hout. apply my_loans_rendered in Hout.
  destruct (my_loans_spec now user db) as (Heq & _ & _ & _ & Hlen & Hrow & Hswept).
  cbv zeta in *. rewrite Heq, finish_fst. rewrite Hout in Hswept.
  unfold UserProfile_active_loans_count. rewrite qcount_qfilter.
  apply count_where_Forall2, Forall2_same_length_lookup_2; [done |].
  intros pk l' l Hl' Hl.
  destruct (decide (Loan.user l = user)) as [Hu | Hu].
  - destruct (Hfk pk l Hl) as [b Hb].
    assert ((pk, l, b) ∈ loans_of_user user db) as Hin
      by (by apply elem_of_loans_of_user).
    rewrite (Hswept pk l b Hin) in Hl'. injection Hl' as <-.
    apply sweep_row_active_count.
  - destruct (Hrow pk l Hl) as [Hsame | Hsw]; rewrite Hl' in *.
    + injection Hsame as ->. unfold active_loan_of_user.
      by rewrite (bool_decide_eq_false_2 _ Hu).
    + injection Hsw as ->. rewrite sweep_row_active_count.
      unfold active_loan_of_user. by rewrite (bool_decide_eq_false_2 _ Hu).
Qed.

Lemma sweep_frees_loan_slots_witness :
  UserProfile_active_loans_count (my_loans (day 15) 1 lent).1 1
  = count_where (λ l, active_loan_of_user 1 l && negb (Loan.is_overdue (day 15) l))
      (loans lent).
Proof.
  apply (sweep_frees_loan_slots (day 15) 1 lent).
  - apply loans_resolve_lent.
  - vm_compute. reflexivity.
Defined.
